(** * Learning Galaxy: the sheet-data pipeline of [learning-galaxy-v5.jsx]

  A shallow embedding of the data-ingestion code of the application
  ([parseCSV], the [localStorage] cache, [fetchWithRetry] and the effect of
  the [useSheetData] hook) together with the properties its specification
  states about them.

  JavaScript strings are sequences of UTF-16 code units; they are modelled
  as [list N].  Objects used as string-keyed maps are [gmap]s. *)

From Stdlib Require Import ZArith NArith List Ascii String Bool Lia DecimalString.
From stdpp Require Import base option list gmap.

Import ListNotations.
Local Open Scope N_scope.

(** ** JavaScript strings *)

Module Js.

(** A string is its sequence of code units. *)
Abbreviation jsstring := (list N).

(** [str "abc"] is the JavaScript string with the code units of the
    (Latin-1) literal. *)
Fixpoint str (s : String.string) : jsstring :=
  match s with
  | EmptyString => []
  | String c s' => N_of_ascii c :: str s'
  end.

Definition QUOTE : N := 34.   (* the double quote *)
Definition COMMA : N := 44.   (* the comma *)
Definition LF : N := 10.      (* line feed *)
Definition CR : N := 13.      (* carriage return *)

(** The code units [String.prototype.trim] strips: WhiteSpace and
    LineTerminator of ECMAScript. *)
Definition isWhiteSpace (c : N) : bool :=
  (c =? 9) || (c =? 10) || (c =? 11) || (c =? 12) || (c =? 13) || (c =? 32)
  || (c =? 160) || (c =? 5760) || ((8192 <=? c) && (c <=? 8202))
  || (c =? 8232) || (c =? 8233) || (c =? 8239) || (c =? 8287)
  || (c =? 12288) || (c =? 65279).

Arguments isWhiteSpace : simpl never.

Definition nonWhite (c : N) : bool := negb (isWhiteSpace c).

Fixpoint trimStart (s : jsstring) : jsstring :=
  match s with
  | [] => []
  | c :: s' => if isWhiteSpace c then trimStart s' else s
  end.

Definition trimEnd (s : jsstring) : jsstring := rev (trimStart (rev s)).

(** [s.trim()] *)
Definition trim (s : jsstring) : jsstring := trimEnd (trimStart s).

(** [s.startsWith(p)] *)
Fixpoint startsWith (s p : jsstring) : bool :=
  match p, s with
  | [], _ => true
  | _ :: _, [] => false
  | a :: p', b :: s' => (a =? b) && startsWith s' p'
  end.

(** [s.endsWith(p)] *)
Definition endsWith (s p : jsstring) : bool := startsWith (rev s) (rev p).

(** [s.slice(start, end)]: negative positions count from the end, both
    are clamped to the string, an empty range gives the empty string. *)
Definition slicePos (len : Z) (p : Z) : Z :=
  if (p <? 0)%Z then Z.max (len + p) 0 else Z.min p len.

Definition slice (s : jsstring) (start stop : Z) : jsstring :=
  let len := Z.of_nat (length s) in
  let from := slicePos len start in
  let to := slicePos len stop in
  take (Z.to_nat (to - from)) (drop (Z.to_nat from) s).

(** Truthiness of a string: non-empty. *)
Definition truthy (s : jsstring) : bool :=
  match s with [] => false | _ :: _ => true end.

(** The values a JavaScript variable can hold, as far as this code
    distinguishes them. *)
Inductive value : Type :=
| VUndefined
| VNull
| VBoolean (b : bool)
| VNumber (n : Z)
| VString (s : jsstring)
| VObject.

(** ToBoolean *)
Definition toBoolean (v : value) : bool :=
  match v with
  | VUndefined => false
  | VNull => false
  | VBoolean b => b
  | VNumber n => negb (n =? 0)%Z
  | VString s => truthy s
  | VObject => true
  end.

(** An [Error] object, as far as the code reads it. *)
Record jserror : Type := Error { message : jsstring }.

(** The outcome of evaluating code that may throw. *)
Inductive completion (E A : Type) : Type :=
| Normal (a : A)
| Throw (e : E).
Arguments Normal {E A} a.
Arguments Throw {E A} e.

#[export] Instance completion_ret {E} : MRet (completion E) :=
  fun _ a => Normal a.
#[export] Instance completion_bind {E} : MBind (completion E) :=
  fun _ _ f c => match c with Normal a => f a | Throw e => Throw e end.

(** [try { body } catch (e) { handler(e) }] *)
Definition tryCatch {E A} (body : completion E A) (handler : E -> A) : A :=
  match body with
  | Normal a => a
  | Throw e => handler e
  end.

End Js.

Import Js.

(** ** The delimited-text parser: [parseCSV] *)

Module Parser.

(** A record: an object whose keys are the header names. *)
Abbreviation record := (gmap jsstring jsstring).

(** [obj[h] = v] on an object created by [{}].  The one key that is not
    stored is [__proto__]: it is an accessor of [Object.prototype] whose
    setter ignores a string. *)
Definition PROTO : jsstring := str "__proto__".

Definition assign (obj : record) (h v : jsstring) : record :=
  if decide (h = PROTO) then obj else <[h := v]> obj.

(** [Object.values(obj).some(v => v.trim())] *)
Definition someValueNonBlank (obj : record) : bool :=
  existsb (fun kv => truthy (trim kv.2)) (map_to_list obj).

(** [cleanValue]: trim, then remove surrounding quotes if present. *)
Definition cleanValue (value : jsstring) : jsstring :=
  let value := trim value in
  if startsWith value [QUOTE] && endsWith value [QUOTE]
  then slice value 1 (-1)
  else value.

(** The loop of [parseRow]; [row] is the part of the row from index [i]
    on, so that [char] is [row[i]] and the head of [rest] is [row[i+1]]. *)
Fixpoint parseRow_loop (row : jsstring) (values : list jsstring)
    (current : jsstring) (inQuotes : bool) : list jsstring :=
  match row with
  | [] => values ++ [cleanValue current]
  | char :: rest =>
      if char =? QUOTE then
        match rest with
        | nextChar :: rest' =>
            if inQuotes && (nextChar =? QUOTE)
            then parseRow_loop rest' values (current ++ [QUOTE]) inQuotes
            else parseRow_loop rest values current (negb inQuotes)
        | [] => parseRow_loop rest values current (negb inQuotes)
        end
      else if (char =? COMMA) && negb inQuotes then
        parseRow_loop rest (values ++ [cleanValue current]) [] inQuotes
      else
        parseRow_loop rest values (current ++ [char]) inQuotes
  end.

Definition parseRow (row : jsstring) : list jsstring :=
  parseRow_loop row [] [] false.

(** [if (currentRow.trim()) rows.push(currentRow)] *)
Definition pushRow (rows : list jsstring) (currentRow : jsstring)
    : list jsstring :=
  if truthy (trim currentRow) then rows ++ [currentRow] else rows.

(** The row-splitting loop of [parseCSV]; [csv] is the text from index
    [i] on. *)
Fixpoint splitRows_loop (csv : jsstring) (rows : list jsstring)
    (currentRow : jsstring) (inQuotes : bool) : list jsstring :=
  match csv with
  | [] => pushRow rows currentRow
  | char :: rest =>
      if char =? QUOTE then
        match rest with
        | nextChar :: rest' =>
            if inQuotes && (nextChar =? QUOTE)
            then splitRows_loop rest' rows (currentRow ++ [QUOTE; QUOTE]) inQuotes
            else splitRows_loop rest rows (currentRow ++ [char]) (negb inQuotes)
        | [] => splitRows_loop rest rows (currentRow ++ [char]) (negb inQuotes)
        end
      else if ((char =? LF) || (char =? CR)) && negb inQuotes then
        match rest with
        | nextChar :: rest' =>
            if (char =? CR) && (nextChar =? LF)
            then splitRows_loop rest' (pushRow rows currentRow) [] inQuotes
            else splitRows_loop rest (pushRow rows currentRow) [] inQuotes
        | [] => splitRows_loop rest (pushRow rows currentRow) [] inQuotes
        end
      else
        splitRows_loop rest rows (currentRow ++ [char]) inQuotes
  end.

Definition splitRows (csv : jsstring) : list jsstring :=
  splitRows_loop csv [] [] false.

(** [headers.forEach((h, i) => { obj[h] = values[i] || ''; })]: the
    headers from index [i] on; a missing value gives the empty string. *)
Fixpoint fillRecord (headers : list jsstring) (i : nat)
    (values : list jsstring) (obj : record) : record :=
  match headers with
  | [] => obj
  | h :: headers' =>
      fillRecord headers' (S i) values
        (assign obj h (default [] (values !! i)))
  end.

(** The callback of [rows.slice(1).map]. *)
Definition buildRecord (headers : list jsstring) (row : jsstring) : record :=
  let values := parseRow row in
  fillRecord headers 0 values ∅.

Section WithLowerCase.

(** [String.prototype.toLowerCase], a function of the platform. *)
Variable toLowerCase : jsstring -> jsstring.

(** The body of the [try] block, for a non-empty string. *)
Definition parseCSV_body (csv : jsstring) : completion jserror (list record) :=
  let rows := splitRows csv in
  if (length rows <? 2)%nat then Normal []
  else
    let headers := map toLowerCase (parseRow (default [] (head rows))) in
    Normal (filter (fun obj => someValueNonBlank obj = true)
              (map (buildRecord headers) (tail rows))).

(** [parseCSV] *)
Definition parseCSV (csv : value) : list record :=
  match csv with
  | VString s =>
      if negb (truthy s) then []
      else tryCatch (parseCSV_body s) (fun _ => [])
  | _ => []
  end.

End WithLowerCase.

(** Lower-casing of the ASCII letters, on which [toLowerCase] agrees with
    every locale-independent implementation. *)
Definition asciiLower (s : jsstring) : jsstring :=
  map (fun c => if (65 <=? c) && (c <=? 90) then c + 32 else c) s.

End Parser.

(** ** The cache over [localStorage] *)

Module Cache.

(** [CACHE_DURATION]: one hour in milliseconds. *)
Definition CACHE_DURATION : Z := 60 * 60 * 1000.

(** The base64 alphabet. *)
Definition b64char (n : N) : N :=
  if n <? 26 then 65 + n
  else if n <? 52 then 97 + (n - 26)
  else if n <? 62 then 48 + (n - 52)
  else if n =? 62 then 43
  else 47.

Definition PAD : N := 61.

Fixpoint base64 (s : jsstring) : jsstring :=
  match s with
  | [] => []
  | [a] => [b64char (a / 4); b64char ((a mod 4) * 16); PAD; PAD]
  | [a; b] =>
      [b64char (a / 4); b64char ((a mod 4) * 16 + b / 16);
       b64char ((b mod 16) * 4); PAD]
  | a :: b :: c :: rest =>
      b64char (a / 4) :: b64char ((a mod 4) * 16 + b / 16)
      :: b64char ((b mod 16) * 4 + c / 64) :: b64char (c mod 64)
      :: base64 rest
  end.

(** [btoa]: throws an InvalidCharacterError when a code unit is above
    255, and is the base64 encoding of the code units otherwise. *)
Definition isLatin1 (s : jsstring) : bool := forallb (fun c => c <=? 255) s.

Definition btoa (s : jsstring) : completion jserror jsstring :=
  if isLatin1 s then Normal (base64 s)
  else Throw (Error (str "InvalidCharacterError")).

(** [getCacheKey] *)
Definition getCacheKey (url : jsstring) : completion jserror jsstring :=
  encoded ← btoa url;
  mret (str "sheet-cache-" ++ take 50 encoded).

(** What [const { data, timestamp } = JSON.parse(cached)] binds:
    [data], and the number [timestamp] converts to in
    [Date.now() - timestamp] ([None] when that is NaN). *)
Record parsedEntry : Type :=
  { data : value; timestamp : option Z }.

(** [age < CACHE_DURATION], false on NaN. *)
Definition isFresh (now : Z) (timestamp : option Z) : bool :=
  match timestamp with
  | Some t => (now - t <? CACHE_DURATION)%Z
  | None => false
  end.

Section WithStorage.

(** [JSON.stringify({ data, timestamp })] for a string [data] and a
    number [timestamp]. *)
Variable JSON_stringify : jsstring -> Z -> jsstring.

(** [JSON.parse] followed by the destructuring; it throws on text
    that is not JSON and on the JSON text null. *)
Variable JSON_parse : jsstring -> completion jserror parsedEntry.

(** Whether [localStorage.setItem(key, value)] exceeds the quota. *)
Variable quotaExceeded : gmap jsstring jsstring -> jsstring -> jsstring -> bool.

(** [localStorage.setItem] *)
Definition setItem (ls : gmap jsstring jsstring) (key v : jsstring)
    : completion jserror (gmap jsstring jsstring) :=
  if quotaExceeded ls key v then Throw (Error (str "QuotaExceededError"))
  else Normal (<[key := v]> ls).

(** [getCachedData], at time [now = Date.now()]; it returns the value
    and the storage it leaves. *)
Definition getCachedData (url : jsstring) (now : Z)
    (ls : gmap jsstring jsstring) : value * gmap jsstring jsstring :=
  tryCatch
    (cacheKey ← getCacheKey url;
     match ls !! cacheKey with
     | None => Normal (VNull, ls)
     | Some cached =>
         if negb (truthy cached) then Normal (VNull, ls)
         else
           entry ← JSON_parse cached;
           if isFresh now (timestamp entry)
           then Normal (data entry, ls)
           else Normal (VNull, delete cacheKey ls)
     end)
    (fun _ => (VNull, ls)).

(** [setCachedData], at time [now = Date.now()]. *)
Definition setCachedData (url data : jsstring) (now : Z)
    (ls : gmap jsstring jsstring) : gmap jsstring jsstring :=
  tryCatch
    (cacheKey ← getCacheKey url;
     setItem ls cacheKey (JSON_stringify data now))
    (fun _ => ls).

End WithStorage.

End Cache.

(** ** The network retry utility: [fetchWithRetry] *)

Module Fetcher.

(** What the code does to the outside, in order. *)
Inductive effect : Type :=
| Fetch (url : jsstring)
| Sleep (ms : Z).

(** A [Response]: [ok], [status], [statusText] and what [text()]
    settles with. *)
Record response : Type :=
  { ok : bool; status : Z; statusText : jsstring;
    text : completion jserror jsstring }.

(** The network: what the [n]-th call of [fetch] settles with. *)
Abbreviation network := (nat -> jsstring -> completion jserror response).

Record world : Type := { calls : nat; trace : list effect }.

Definition start : world := {| calls := 0; trace := [] |}.

(** Asynchronous code that may throw an [E]. *)
Definition async (E A : Type) : Type := world -> completion E A * world.

Definition ret {E A} (a : A) : async E A := fun w => (Normal a, w).

Definition throw {E A} (e : E) : async E A := fun w => (Throw e, w).

Definition bind {E A B} (m : async E A) (k : A -> async E B) : async E B :=
  fun w =>
    match m w with
    | (Normal a, w') => k a w'
    | (Throw e, w') => (Throw e, w')
    end.

(** [try { m } catch (error) { ... }], with the outcome handed to the
    continuation. *)
Definition try {E E' A} (m : async E A) : async E' (completion E A) :=
  fun w => let (r, w') := m w in (Normal r, w').

Definition lift {E A} (c : completion E A) : async E A := fun w => (c, w).

Declare Scope async_scope.
Delimit Scope async_scope with async.
Notation "x <- m ;; k" := (bind m (fun x => k))
  (at level 100, m at next level, right associativity) : async_scope.
Notation "m ;; k" := (bind m (fun _ => k))
  (at level 100, right associativity) : async_scope.

Local Open Scope async_scope.

(** The decimal digits of a status code. *)
Definition decimal (n : Z) : jsstring :=
  str (NilZero.string_of_int (Z.to_int n)).

Section WithNetwork.

Variable net : network.

(** [await fetch(url)] *)
Definition fetch (url : jsstring) : async jserror response :=
  fun w =>
    (net (calls w) url,
     {| calls := S (calls w); trace := trace w ++ [Fetch url] |}).

(** [await new Promise(resolve => setTimeout(resolve, delay))] *)
Definition sleep {E} (delay : Z) : async E unit :=
  fun w => (Normal tt, {| calls := calls w; trace := trace w ++ [Sleep delay] |}).

(** The body of the [try] block of one attempt. *)
Definition attemptOnce (url : jsstring) : async jserror jsstring :=
  response <- fetch url ;;
  if negb (ok response)
  then throw (Error (str "HTTP " ++ decimal (status response)
                       ++ str ": " ++ statusText response))
  else lift (text response).

(** The [for] loop; [fuel] is the number of iterations left,
    [maxRetries - attempt].  The value thrown at the end is
    [lastError], [None] while it is undefined. *)
Fixpoint retryLoop (fuel : nat) (url : jsstring) (maxRetries attempt : Z)
    (lastError : option jserror) : async (option jserror) jsstring :=
  match fuel with
  | O => throw lastError
  | S fuel' =>
      r <- try (attemptOnce url) ;;
      match r with
      | Normal t => ret t
      | Throw error =>
          (if (attempt <? maxRetries - 1)%Z
           then sleep (2 ^ attempt * 1000)%Z
           else ret tt) ;;
          retryLoop fuel' url maxRetries (attempt + 1)%Z (Some error)
      end
  end.

(** [fetchWithRetry] *)
Definition fetchWithRetry (url : jsstring) (maxRetries : Z)
    : async (option jserror) jsstring :=
  retryLoop (Z.to_nat maxRetries) url maxRetries 0%Z None.

End WithNetwork.

(** The failure of an attempt, if it fails: the rejection of [fetch], a
    status outside the success range, or the rejection of [text()]. *)
Definition failureOf (r : completion jserror response) : option jserror :=
  match r with
  | Throw e => Some e
  | Normal response =>
      if negb (ok response)
      then Some (Error (str "HTTP " ++ decimal (status response)
                          ++ str ": " ++ statusText response))
      else match text response with
           | Throw e => Some e
           | Normal _ => None
           end
  end.

(** The delay before attempt [k], for [k] from 1 on. *)
Definition delayBefore (k : Z) : Z := (2 ^ (k - 1) * 1000)%Z.

(** What [fuel] failing attempts from attempt [attempt] on do: a fetch
    each, and a delay before each but the first. *)
Fixpoint failingTrace (fuel : nat) (url : jsstring) (maxRetries attempt : Z)
    : list effect :=
  match fuel with
  | O => []
  | S fuel' =>
      Fetch url
      :: (if (attempt + 1 <? maxRetries)%Z
          then [Sleep (delayBefore (attempt + 1))] else [])
      ++ failingTrace fuel' url maxRetries (attempt + 1)%Z
  end.

End Fetcher.

(** ** The data hook: [useSheetData] *)

Module Controller.

Import Parser.

(** The state variables of the hook. *)
Record hookState : Type :=
  { data : list record;
    loading : bool;
    error : option jsstring;      (* [null] or a message *)
    retryTrigger : Z;
    fromCache : bool }.

(** The [useState] initial values. *)
Definition initialState : hookState :=
  {| data := []; loading := true; error := None;
     retryTrigger := 0; fromCache := false |}.

Definition setData (v : list record) (h : hookState) : hookState :=
  {| data := v; loading := loading h; error := error h;
     retryTrigger := retryTrigger h; fromCache := fromCache h |}.

Definition setLoading (v : bool) (h : hookState) : hookState :=
  {| data := data h; loading := v; error := error h;
     retryTrigger := retryTrigger h; fromCache := fromCache h |}.

Definition setError (v : option jsstring) (h : hookState) : hookState :=
  {| data := data h; loading := loading h; error := v;
     retryTrigger := retryTrigger h; fromCache := fromCache h |}.

Definition setRetryTrigger (f : Z -> Z) (h : hookState) : hookState :=
  {| data := data h; loading := loading h; error := error h;
     retryTrigger := f (retryTrigger h); fromCache := fromCache h |}.

Definition setFromCache (v : bool) (h : hookState) : hookState :=
  {| data := data h; loading := loading h; error := error h;
     retryTrigger := retryTrigger h; fromCache := v |}.

Definition GAME_TYPE : jsstring := str "game_type".

(** [gameType ? parsed.filter(row => row.game_type === gameType) : parsed] *)
Definition filterByGameType (gameType : jsstring) (parsed : list record)
    : list record :=
  if truthy gameType
  then filter (fun row => row !! GAME_TYPE = Some gameType) parsed
  else parsed.

(** The records of a list that have the game type [g], in their order. *)
Inductive selected (g : jsstring) : list record -> list record -> Prop :=
| selected_nil : selected g [] []
| selected_keep row rows out :
    row !! GAME_TYPE = Some g -> selected g rows out ->
    selected g (row :: rows) (row :: out)
| selected_drop row rows out :
    row !! GAME_TYPE <> Some g -> selected g rows out ->
    selected g (row :: rows) out.

(** The two places a [fetchWithRetry(url)] promise is created, each with
    its own [then] and [catch] callbacks. *)
Inductive branch : Type :=
| Background   (* after a cache hit *)
| Foreground.  (* no cache *)

(** A promise in flight, with the variables its callbacks close over. *)
Record request : Type :=
  { req_url : jsstring; req_gameType : jsstring; req_branch : branch }.

(** The hook with its surroundings: its state, [localStorage], the
    promises not yet settled, and the dependency array of the last run
    of the effect. *)
Record system : Type :=
  { hook : hookState;
    localStorage : gmap jsstring jsstring;
    inflight : gmap nat request;
    nextRequest : nat;
    lastDeps : option (jsstring * jsstring * Z) }.

Definition mounting (ls : gmap jsstring jsstring) : system :=
  {| hook := initialState; localStorage := ls; inflight := ∅;
     nextRequest := 0; lastDeps := None |}.

(** What happens to the hook. *)
Inductive event : Type :=
| Render (url gameType : jsstring) (now : Z)
    (* the component renders with these arguments at time [now] *)
| Retry
    (* [retry()] is called *)
| Settle (id : nat) (outcome : completion jserror jsstring) (now : Z).
    (* the promise [id] fulfils with a text or rejects with an error *)

Section WithPlatform.

Variable toLowerCase : jsstring -> jsstring.
Variable JSON_stringify : jsstring -> Z -> jsstring.
Variable JSON_parse : jsstring -> completion jserror Cache.parsedEntry.
Variable quotaExceeded : gmap jsstring jsstring -> jsstring -> jsstring -> bool.

Definition parse (csv : value) : list record := parseCSV toLowerCase csv.

Definition spawn (r : request) (s : system) (h : hookState)
    (ls : gmap jsstring jsstring) : system :=
  {| hook := h; localStorage := ls;
     inflight := <[nextRequest s := r]> (inflight s);
     nextRequest := S (nextRequest s);
     lastDeps := lastDeps s |}.

(** The body of the effect, run with [url] and [gameType] at time
    [now]. *)
Definition runEffect (url gameType : jsstring) (now : Z) (s : system)
    : system :=
  if negb (truthy url) then
    {| hook := setLoading false (hook s); localStorage := localStorage s;
       inflight := inflight s; nextRequest := nextRequest s;
       lastDeps := lastDeps s |}
  else
    let (cached, ls) :=
      Cache.getCachedData JSON_parse url now (localStorage s) in
    if toBoolean cached then
      let parsed := parse cached in
      let filtered := filterByGameType gameType parsed in
      spawn {| req_url := url; req_gameType := gameType;
               req_branch := Background |} s
        (setLoading false (setFromCache true (setData filtered (hook s))))
        ls
    else
      spawn {| req_url := url; req_gameType := gameType;
               req_branch := Foreground |} s
        (setFromCache false (setError None (setLoading true (hook s))))
        ls.

(** The [then] callbacks. *)
Definition onFulfilled (r : request) (csv : jsstring) (now : Z)
    (h : hookState) (ls : gmap jsstring jsstring)
    : hookState * gmap jsstring jsstring :=
  let ls' :=
    Cache.setCachedData JSON_stringify quotaExceeded (req_url r) csv now ls in
  let parsed := parse (VString csv) in
  let filtered := filterByGameType (req_gameType r) parsed in
  match req_branch r with
  | Background => (setFromCache false (setData filtered h), ls')
  | Foreground => (setLoading false (setData filtered h), ls')
  end.

(** The [catch] callbacks. *)
Definition onRejected (r : request) (err : jserror) (h : hookState)
    : hookState :=
  match req_branch r with
  | Background => h
  | Foreground => setLoading false (setError (Some (message err)) h)
  end.

Definition step (s : system) (e : event) : system :=
  match e with
  | Render url gameType now =>
      let deps := (url, gameType, retryTrigger (hook s)) in
      if decide (lastDeps s = Some deps) then s
      else
        let s' := runEffect url gameType now s in
        {| hook := hook s'; localStorage := localStorage s';
           inflight := inflight s'; nextRequest := nextRequest s';
           lastDeps := Some deps |}
  | Retry =>
      {| hook := setRetryTrigger (fun prev => prev + 1)%Z (hook s);
         localStorage := localStorage s; inflight := inflight s;
         nextRequest := nextRequest s; lastDeps := lastDeps s |}
  | Settle id outcome now =>
      match inflight s !! id with
      | None => s
      | Some r =>
          let (h, ls) :=
            match outcome with
            | Normal csv => onFulfilled r csv now (hook s) (localStorage s)
            | Throw err => (onRejected r err (hook s), localStorage s)
            end in
          {| hook := h; localStorage := ls;
             inflight := delete id (inflight s);
             nextRequest := nextRequest s; lastDeps := lastDeps s |}
      end
  end.

Definition run (s : system) (es : list event) : system :=
  fold_left step es s.

End WithPlatform.

End Controller.

(** ** A platform to run the model on

  Concrete functions for the parameters of the model, used where a
  statement is evaluated on an input. *)

Module Reference.

(** [lit] reads a literal in which the apostrophe stands for the double
    quote. *)
Definition lit (s : String.string) : jsstring :=
  map (fun c => if c =? 39 then QUOTE else c) (str s).

Definition COLON : N := 58.

Definition isDigit (c : N) : bool := (48 <=? c) && (c <=? 57).

Definition digitsValue (ds : jsstring) : Z :=
  fold_left (fun acc c => acc * 10 + Z.of_N (c - 48))%Z ds 0%Z.

(** A serialisation of [{ data, timestamp }]: the timestamp in decimal,
    a colon, the data. *)
Definition stringify (data : jsstring) (timestamp : Z) : jsstring :=
  Fetcher.decimal timestamp ++ [COLON] ++ data.

Fixpoint splitColon (s : jsstring) (acc : jsstring)
    : option (jsstring * jsstring) :=
  match s with
  | [] => None
  | c :: s' => if c =? COLON then Some (acc, s') else splitColon s' (acc ++ [c])
  end.

Definition parseNumber (s : jsstring) : option Z :=
  match s with
  | [] => None
  | c :: ds =>
      if (c =? 45) && truthy ds && forallb isDigit ds
      then Some (- digitsValue ds)%Z
      else if forallb isDigit s then Some (digitsValue s) else None
  end.

Definition parse (s : jsstring) : completion jserror Cache.parsedEntry :=
  match splitColon s [] with
  | Some (n, d) =>
      match parseNumber n with
      | Some t => Normal {| Cache.data := VString d; Cache.timestamp := Some t |}
      | None => Throw (Error (str "SyntaxError"))
      end
  | None => Throw (Error (str "SyntaxError"))
  end.

(** A storage that never runs out of space. *)
Definition noQuota (ls : gmap jsstring jsstring) (k v : jsstring) : bool :=
  false.

(** A network on which every call of [fetch] is answered with status
    503, the [n]-th with status text [n]. *)
Definition unavailable : Fetcher.network :=
  fun n _ =>
    Normal {| Fetcher.ok := false; Fetcher.status := 503;
              Fetcher.statusText := Fetcher.decimal (Z.of_nat n);
              Fetcher.text := Normal [] |}.

End Reference.

(** ** Well-formed delimited text

  The documents the parser is specified on: a header row and data rows,
  each a sequence of fields separated by commas, rows separated by a line
  break.  A field is written plainly when its text has no quote, comma
  or line break, and quoted (with its quotes doubled) otherwise. *)

Module Csv.

Import Parser.

Inductive field : Type :=
| Plain (s : jsstring)
| Quoted (s : jsstring).

(** The text a field stands for. *)
Definition content (f : field) : jsstring :=
  match f with Plain s => s | Quoted s => s end.

Definition isPlainChar (c : N) : bool :=
  negb ((c =? QUOTE) || (c =? COMMA) || (c =? LF) || (c =? CR)).

Definition wfField (f : field) : bool :=
  match f with
  | Plain s => forallb isPlainChar s
  | Quoted _ => true
  end.

Definition wfRow (fs : list field) : bool := forallb wfField fs.

(** Quotes inside a quoted field are doubled. *)
Fixpoint escape (s : jsstring) : jsstring :=
  match s with
  | [] => []
  | c :: s' => if c =? QUOTE then QUOTE :: QUOTE :: escape s' else c :: escape s'
  end.

Definition quoteField (s : jsstring) : jsstring :=
  QUOTE :: escape s ++ [QUOTE].

Definition renderField (f : field) : jsstring :=
  match f with
  | Plain s => s
  | Quoted s => quoteField s
  end.

Fixpoint renderRow (fs : list field) : jsstring :=
  match fs with
  | [] => []
  | f :: fs' =>
      match fs' with
      | [] => renderField f
      | _ :: _ => renderField f ++ COMMA :: renderRow fs'
      end
  end.

(** The three row separators. *)
Inductive newline : Type := NL_LF | NL_CR | NL_CRLF.

Definition renderNewline (nl : newline) : jsstring :=
  match nl with
  | NL_LF => [LF]
  | NL_CR => [CR]
  | NL_CRLF => [CR; LF]
  end.

(** The data rows, each after its separator. *)
Fixpoint renderRows (rows : list (newline * list field)) : jsstring :=
  match rows with
  | [] => []
  | (nl, fs) :: rows' => renderNewline nl ++ renderRow fs ++ renderRows rows'
  end.

Definition render (header : list field) (rows : list (newline * list field))
    : jsstring :=
  renderRow header ++ renderRows rows.

(** The line of a data row. *)
Definition lineOf (r : newline * list field) : jsstring := renderRow r.2.

(** A row of well-formed fields whose line is not blank. *)
Definition goodRow (r : newline * list field) : Prop :=
  wfRow r.2 = true /\ truthy (trim (renderRow r.2)) = true.

(** What may follow a quoted field: anything but another quote. *)
Definition noQuoteAhead (rest : jsstring) : Prop := head rest <> Some QUOTE.

(** The values [parseRow] is to give for a row: the cleaned texts. *)
Definition cleaned (fs : list field) : list jsstring :=
  map (fun f => cleanValue (content f)) fs.

Definition isBlank (v : jsstring) : bool := negb (truthy (trim v)).

(** A row none of whose values has anything but white space. *)
Definition fullyBlank (fs : list field) : bool :=
  forallb isBlank (cleaned fs).

(** The same, looking only at the first [n] values. *)
Definition blankUnder (n : nat) (fs : list field) : bool :=
  forallb isBlank (take n (cleaned fs)).

(** The record a data row is to give under a header: the cleaned values
    of the row stored under the lower-cased cleaned header names. *)
Definition keysOf (toLowerCase : jsstring -> jsstring) (header : list field)
    : list jsstring :=
  map toLowerCase (cleaned header).

Definition recordOf (toLowerCase : jsstring -> jsstring)
    (header : list field) (r : newline * list field) : record :=
  fillRecord (keysOf toLowerCase header) 0 (cleaned r.2) ∅.

(** The loop of [parseRow] with the cleaning left out: the decoded text
    of each field of a row. *)
Fixpoint fieldTexts_loop (row : jsstring) (texts : list jsstring)
    (current : jsstring) (inQuotes : bool) : list jsstring :=
  match row with
  | [] => texts ++ [current]
  | char :: rest =>
      if char =? QUOTE then
        match rest with
        | nextChar :: rest' =>
            if inQuotes && (nextChar =? QUOTE)
            then fieldTexts_loop rest' texts (current ++ [QUOTE]) inQuotes
            else fieldTexts_loop rest texts current (negb inQuotes)
        | [] => fieldTexts_loop rest texts current (negb inQuotes)
        end
      else if (char =? COMMA) && negb inQuotes then
        fieldTexts_loop rest (texts ++ [current]) [] inQuotes
      else
        fieldTexts_loop rest texts (current ++ [char]) inQuotes
  end.

Definition fieldTexts (row : jsstring) : list jsstring :=
  fieldTexts_loop row [] [] false.

(** The cleaning as the specification words it: the trimmed text, with
    its first and last character removed when it starts and ends with a
    double quote. *)
Definition isWrapped (t : jsstring) : bool :=
  match t, last t with
  | c :: _, Some d => (c =? QUOTE) && (d =? QUOTE)
  | _, _ => false
  end.

Definition unwrap (t : jsstring) : jsstring :=
  match t with
  | [] => []
  | _ :: t' => removelast t'
  end.

Definition cleanSpec (text : jsstring) : jsstring :=
  let t := trim text in
  if isWrapped t then unwrap t else t.

End Csv.

(** ** Sample inputs *)

Module Samples.

Import Csv Reference.

Definition sampleHeader : list field :=
  [Plain (str "Name"); Quoted (str "Game_Type"); Plain (str " q ")].

(** The text [He said 'hi',] , a line break, [ok], with double quotes
    for the apostrophes. *)
Definition sampleValue : jsstring :=
  lit "He said 'hi'," ++ [LF] ++ str "ok".

Definition sampleRows : list (newline * list field) :=
  [(NL_LF, [Plain (str "n1"); Plain (str "x")]);
   (NL_CRLF, [Plain []; Quoted sampleValue; Plain (str "z");
              Plain (str "extra")])].

Definition sampleUrl : jsstring := str "https://sheets/pub?output=csv".

Definition sampleKey : jsstring :=
  str "sheet-cache-" ++ take 50 (Cache.base64 sampleUrl).

Definition sampleText : jsstring :=
  str "game_type,q" ++ [LF] ++ str "x,1" ++ [LF] ++ str "y,2" ++ [LF] ++ str "x,3".

End Samples.

(** ** More on well-formed text *)

Module Lines.

Import Parser Csv.

(** A line that [parseCSV] keeps as a row: it has more than white space. *)
Definition keptLine (line : jsstring) : Prop := truthy (trim line) = true.

(** The data rows whose line is kept. *)
Definition keptRows (rows : list (newline * list field))
    : list (newline * list field) :=
  filter (fun r => keptLine (lineOf r)) rows.

(** The texts of the fields of a row, and of the rows of a document. *)
Definition contents (fs : list field) : list jsstring := map content fs.

Definition rowContents (rows : list (newline * list field))
    : list (list jsstring) :=
  map (fun r => contents r.2) rows.

(** The number of commas of a text. *)
Definition commas (row : jsstring) : nat :=
  length (filter (fun c => c = COMMA) row).

End Lines.

(** ** What a run of [fetchWithRetry] looks like *)

Module Backoff.

Import Fetcher.

(** An attempt that succeeds with the text [t]: a response in the success
    range whose [text()] fulfils with [t]. *)
Definition succeeds (r : completion jserror response) (t : jsstring) : Prop :=
  exists resp, r = Normal resp /\ ok resp = true /\ text resp = Normal t.

(** [k] failed attempts, each followed by its delay: 1000 ms after the
    first, twice the last delay after every other. *)
Definition rounds (url : jsstring) (k : nat) : list effect :=
  flat_map (fun i => [Fetch url; Sleep (2 ^ Z.of_nat i * 1000)]) (seq 0 k).

(** The time slept in a trace. *)
Definition totalSleep (tr : list effect) : Z :=
  fold_right (fun e acc => match e with Sleep ms => ms + acc | Fetch _ => acc end)%Z
    0%Z tr.

(** The longest delay [setTimeout] takes as it is: a signed 32-bit number
    of milliseconds. *)
Definition TIMEOUT_MAX : Z := 2 ^ 31 - 1.

(** The most attempts for which every delay the loop asks for,
    [2^attempt * 1000] for [attempt] up to [maxRetries - 2], is within
    [TIMEOUT_MAX]: up to there the sleeps of the model are the waits of
    the code. *)
Definition TIMED_RETRIES : Z := 23.

(** A trace all of whose sleeps are as long as they are asked for. *)
Definition timed (tr : list effect) : Prop :=
  Forall (fun e => match e with
                   | Sleep ms => (0 <= ms <= TIMEOUT_MAX)%Z
                   | Fetch _ => True
                   end) tr.

End Backoff.

(** ** The error helpers: [getErrorDetails] *)

Module ErrorHelpers.

Import Reference.

(** [s.includes(needle)] *)
Fixpoint includes (s needle : jsstring) : bool :=
  startsWith s needle
  || match s with
     | [] => false
     | _ :: s' => includes s' needle
     end.

(** What [getErrorDetails] returns. *)
Record errorDetails : Type :=
  { title : jsstring; message : jsstring; hints : list jsstring }.

(** [String(error)] for the plain object the caller passes. *)
Definition OBJECT_STRING : jsstring := str "[object Object]".

(** [getErrorDetails]; its argument is an object with a [message], as the
    component passes it. *)
Definition getErrorDetails (error : jserror) : errorDetails :=
  let errorMessage :=
    if truthy (Js.message error) then Js.message error else OBJECT_STRING in
  if includes errorMessage (str "Failed to fetch")
     || includes errorMessage (str "NetworkError") then
    {| title := str "Network Error";
       message := errorMessage;
       hints := [str "Check your internet connection";
                 str "Try disabling VPN or proxy if enabled";
                 str "Firewall might be blocking the connection"] |}
  else if includes errorMessage (str "HTTP 404") then
    {| title := str "Sheet Not Found";
       message := str "Google Sheet not found or not published";
       hints := [str "Verify the Sheet URL in Settings";
                 str "Ensure the Sheet is published to web";
                 str "Check: File " ++ [8218; 220; 237] ++ str " Share " ++ [8218; 220; 237] ++ str " Publish to web " ++ [8218; 220; 237] ++ str " CSV"] |}
  else if includes errorMessage (str "HTTP 403") then
    {| title := str "Access Denied";
       message := str "Cannot access the Google Sheet";
       hints := [str "Sheet must be published to web (not just shared)";
                 str "Go to File " ++ [8218; 220; 237] ++ str " Share " ++ [8218; 220; 237] ++ str " Publish to web";
                 lit "Select 'Comma-separated values (.csv)' format"] |}
  else if includes errorMessage (str "HTTP 500")
          || includes errorMessage (str "HTTP 503") then
    {| title := str "Server Error";
       message := str "Google Sheets is temporarily unavailable";
       hints := [str "This is a temporary issue with Google";
                 str "Try again in a few minutes";
                 str "Check Google Workspace Status"] |}
  else if includes errorMessage (str "CORS")
          || includes errorMessage (str "cross-origin") then
    {| title := str "Security Error";
       message := str "Cannot load data due to browser security";
       hints := [str "Ensure Sheet is published as CSV";
                 lit "URL must end with '?output=csv'";
                 str "Try a different browser if issue persists"] |}
  else if includes errorMessage (str "parse")
          || includes errorMessage (str "JSON") then
    {| title := str "Data Format Error";
       message := str "Sheet data is not in valid CSV format";
       hints := [str "Check for special characters in questions";
                 str "Ensure CSV format is correct";
                 str "Try re-publishing the Sheet"] |}
  else
    {| title := str "Connection Error";
       message := errorMessage;
       hints := [str "Check your internet connection";
                 str "Verify the Sheet URL in Settings";
                 str "Contact support if issue persists"] |}.

(** The texts [getErrorDetails] looks for. *)
Definition needles : list jsstring :=
  [str "Failed to fetch"; str "NetworkError"; str "HTTP 404"; str "HTTP 403";
   str "HTTP 500"; str "HTTP 503"; str "CORS"; str "cross-origin";
   str "parse"; str "JSON"].

(** A text in which none of them occurs. *)
Definition neutral (s : jsstring) : bool :=
  forallb (fun needle => negb (includes s needle)) needles.

(** Whether [needle] can start where [q] starts, as far as [q] goes. *)
Fixpoint agree (q needle : jsstring) : bool :=
  match q, needle with
  | c :: q', d :: needle' => (d =? c) && agree q' needle'
  | _, _ => true
  end.

(** No occurrence of [needle] starts inside [p], whatever follows [p]. *)
Definition noStart (p needle : jsstring) : bool :=
  truthy needle
  && forallb (fun i => negb (agree (drop i p) needle)) (seq 0 (length p)).

(** The error [fetchWithRetry] makes of a response outside the success
    range. *)
Definition httpError (status : Z) (statusText : jsstring) : jserror :=
  Error (str "HTTP " ++ Fetcher.decimal status ++ str ": " ++ statusText).

(** What the game component shows for a state of the hook: the spinner
    while loading, else the error screen when there is an error, else the
    game. *)
Inductive screen : Type :=
| Spinner
| ErrorScreen (details : errorDetails)
| Game.

Definition screenOf (h : Controller.hookState) : screen :=
  if Controller.loading h then Spinner
  else match Controller.error h with
       | Some e =>
           if truthy e then ErrorScreen (getErrorDetails {| Js.message := e |})
           else Game
       | None => Game
       end.

End ErrorHelpers.

(** ** The settings: [validateGoogleSheetUrl] *)

Module Settings.

(** The regular expressions the code uses: a literal text, an optional
    part, one or more characters of a class, a sequence. *)
Inductive regex : Type :=
| Lit (s : jsstring)
| Opt (r : regex)
| Plus (cls : N -> bool)
| Seq (r1 r2 : regex).

(** Zero or more characters of the class, the most first, and then [k]. *)
Fixpoint star (cls : N -> bool) (s : jsstring) (k : jsstring -> bool) : bool :=
  match s with
  | c :: s' => if cls c then star cls s' k || k s else k s
  | [] => k []
  end.

(** A match of [r] at the start of [s] after which [k] accepts the rest;
    the alternatives are tried in the order of a backtracking matcher. *)
Fixpoint matchAt (r : regex) (s : jsstring) (k : jsstring -> bool) : bool :=
  match r with
  | Lit l => startsWith s l && k (drop (length l) s)
  | Opt r' => matchAt r' s k || k s
  | Plus cls =>
      match s with
      | c :: s' => cls c && star cls s' k
      | [] => false
      end
  | Seq r1 r2 => matchAt r1 s (fun s' => matchAt r2 s' k)
  end.

(** [/^r/.test(s)] *)
Definition test (r : regex) (s : jsstring) : bool := matchAt r s (fun _ => true).

(** The class [\w]: letters, digits and the underscore. *)
Definition isWord (c : N) : bool :=
  ((65 <=? c) && (c <=? 90)) || ((97 <=? c) && (c <=? 122))
  || ((48 <=? c) && (c <=? 57)) || (c =? 95).

(** The class [[\w-]]. *)
Definition isWordOrDash (c : N) : bool := isWord c || (c =? 45).

Definition SHEETS_PREFIX : jsstring :=
  str "https://docs.google.com/spreadsheets/d/".

Definition PUB_CSV : jsstring := str "/pub?output=csv".

(** [googleSheetsPattern] *)
Definition googleSheetsPattern : regex :=
  Seq (Lit SHEETS_PREFIX)
    (Seq (Opt (Lit (str "e/")))
       (Seq (Plus isWordOrDash) (Lit PUB_CSV))).

Definition URL_REQUIRED : jsstring := str "URL is required".

Definition INVALID_URL : jsstring :=
  str "Invalid Google Sheets URL. Must be a published CSV link (File " ++ [8218; 220; 237] ++ str " Share " ++ [8218; 220; 237] ++ str " Publish to web " ++ [8218; 220; 237] ++ str " CSV)".

(** [validateGoogleSheetUrl]: the error to show, empty for a valid URL. *)
Definition validateGoogleSheetUrl (url : jsstring) : jsstring :=
  if negb (truthy url) || negb (truthy (trim url)) then URL_REQUIRED
  else if negb (test googleSheetsPattern url) then INVALID_URL
  else [].

(** The two URLs of [DEFAULT_SETTINGS]. *)
Definition mathSheetUrl : jsstring :=
  str "https://docs.google.com/spreadsheets/d/e/2PACX-1vQr3nlml1JTPMR4ROfCKarFSayMFxYyOwZO-v_A0INlG1oMloM5wm0wltURipcy0A/pub?output=csv".

Definition englishSheetUrl : jsstring :=
  str "https://docs.google.com/spreadsheets/d/e/2PACX-1vRses_Y74IwZ6nFvmwMygKruq0HgQZZmOEYSdf3sE0pInXXByyU0uSf8KPY8Z6Giw/pub?output=csv".

(** The cache key of every URL with the prefix of a sheet. *)
Definition SHEETS_KEY : jsstring :=
  str "sheet-cache-aHR0cHM6Ly9kb2NzLmdvb2dsZS5jb20vc3ByZWFkc2hlZXRzL2".

End Settings.


(** ** The clock display: [formatTime] *)

Module Display.

(** [s.padStart(2, '0')] *)
Definition padStart2 (s : jsstring) : jsstring :=
  repeat 48 (2 - length s) ++ s.

(** [formatTime], on an integer number of seconds: [Math.floor(s / 60)]
    is the floor division and [s % 60] the remainder that takes the sign
    of [s]. *)
Definition formatTime (s : Z) : jsstring :=
  padStart2 (Fetcher.decimal (s / 60)) ++ str ":"
  ++ padStart2 (Fetcher.decimal (Z.rem s 60)).

(** The character of a decimal digit. *)
Definition digit (d : Z) : N := 48 + Z.to_N d.

End Display.

(** ** The leaderboard: [handleGameEnd], the totals, [Leaderboard] *)

Module Scores.

(** An entry of the leaderboard.  The game writes integers into [stars]
    and [streak]. *)
Record score : Type :=
  { game : jsstring; name : jsstring; stars : Z; streak : Z;
    date : jsstring }.

(** The [id]s of [MATH_GAMES]. *)
Definition MATH_GAMES : list jsstring :=
  [str "space-math"; str "alien-invasion"; str "bubble-pop";
   str "planet-hopper"; str "fraction-frenzy"; str "time-warp";
   str "money-master"; str "geometry-galaxy"].

(** [MATH_GAMES.find(g => g.id === id)], as a condition: the object found
    is truthy, [undefined] is not. *)
Definition findMathGame (id : jsstring) : bool :=
  existsb (fun g => bool_decide (g = id)) MATH_GAMES.

(** [isMath] of [SheetBasedGame]: its own list of names. *)
Definition isMath (gameId : jsstring) : bool :=
  existsb (fun g => bool_decide (g = gameId))
    [str "space-math"; str "alien-invasion"; str "bubble-pop";
     str "planet-hopper"; str "fraction-frenzy"; str "time-warp";
     str "money-master"; str "geometry-galaxy"].

(** The sheet a game reads. *)
Definition sheetUrl (mathSheetUrl englishSheetUrl gameId : jsstring)
    : jsstring :=
  if isMath gameId then mathSheetUrl else englishSheetUrl.

(** [filtered] of [Leaderboard]. *)
Definition filtered (filter : jsstring) (leaderboard : list score)
    : list score :=
  if bool_decide (filter = str "all") then leaderboard
  else List.filter
         (fun s => if bool_decide (filter = str "math")
                   then findMathGame (game s)
                   else negb (findMathGame (game s)))
         leaderboard.

(** [.sort((a, b) => b.stars - a.stars)] on a copy.  The comparator is a
    consistent order on integers and the sort of the language is stable,
    which fixes the result: decreasing stars, equal stars in the order of
    the array.  Insertion from the right computes it. *)
Fixpoint insertByStars (x : score) (l : list score) : list score :=
  match l with
  | [] => [x]
  | y :: l' =>
      if (stars x <? stars y)%Z then y :: insertByStars x l' else x :: l
  end.

Definition sortByStars (l : list score) : list score :=
  fold_right insertByStars [] l.

(** [sorted] of [Leaderboard]: the first ten. *)
Definition sorted (filter : jsstring) (leaderboard : list score)
    : list score :=
  take 10 (sortByStars (filtered filter leaderboard)).

(** [totalStars] of [LearningGalaxy]. *)
Definition totalStars (leaderboard : list score) : Z :=
  fold_left (fun sum e => (sum + stars e)%Z) leaderboard 0%Z.

(** [g.streak || 0] *)
Definition orZero (n : Z) : Z := if (n =? 0)%Z then 0%Z else n.

(** [bestStreak] and [totalGames] of [MainLandingPage]. *)
Definition bestStreak (leaderboard : list score) : Z :=
  fold_left (fun max g => Z.max max (orZero (streak g))) leaderboard 0%Z.

Definition totalGames (leaderboard : list score) : nat := length leaderboard.

(** [updated] of [handleGameEnd], the value the leaderboard is set to;
    [now] is [new Date().toISOString()]. *)
Definition handleGameEnd (leaderboard : list score)
    (game name : jsstring) (stars streak : Z) (now : jsstring)
    : list score :=
  leaderboard ++ [{| game := game; name := name; stars := stars;
                     streak := streak; date := now |}].

(** Decreasing stars. *)
Definition decreasing (l : list score) : Prop :=
  forall i j a b, (i < j)%nat -> l !! i = Some a -> l !! j = Some b ->
    (stars b <= stars a)%Z.

End Scores.

(** ** The game: [SheetBasedGame] *)

Module Game.

Import Parser.

(** [feedback]: [{ correct: true }] or [{ correct: false, answer }]. *)
Inductive feedbackValue : Type :=
  | Correct
  | Wrong (answer : jsstring).

(** What the callback of a [setTimeout] of [handleAnswer] holds on to: the
    [questions] and the [usedIndices] of the render that made it. *)
Abbreviation closure := (list record * gset nat)%type.

Record gameState : Type :=
  { stars : Z;
    timer : Z;
    gameActive : bool;
    gameOver : bool;
    currentQ : option record;
    streak : Z;
    maxStreak : Z;
    feedback : option feedbackValue;
    playerName : jsstring;
    scoreSaved : bool;
    usedIndices : gset nat;
    timeouts : list closure }.

Definition setStars (v : Z) (s : gameState) : gameState :=
  {| stars := v;
     timer := timer s;
     gameActive := gameActive s;
     gameOver := gameOver s;
     currentQ := currentQ s;
     streak := streak s;
     maxStreak := maxStreak s;
     feedback := feedback s;
     playerName := playerName s;
     scoreSaved := scoreSaved s;
     usedIndices := usedIndices s;
     timeouts := timeouts s |}.

Definition setTimer (v : Z) (s : gameState) : gameState :=
  {| stars := stars s;
     timer := v;
     gameActive := gameActive s;
     gameOver := gameOver s;
     currentQ := currentQ s;
     streak := streak s;
     maxStreak := maxStreak s;
     feedback := feedback s;
     playerName := playerName s;
     scoreSaved := scoreSaved s;
     usedIndices := usedIndices s;
     timeouts := timeouts s |}.

Definition setGameActive (v : bool) (s : gameState) : gameState :=
  {| stars := stars s;
     timer := timer s;
     gameActive := v;
     gameOver := gameOver s;
     currentQ := currentQ s;
     streak := streak s;
     maxStreak := maxStreak s;
     feedback := feedback s;
     playerName := playerName s;
     scoreSaved := scoreSaved s;
     usedIndices := usedIndices s;
     timeouts := timeouts s |}.

Definition setGameOver (v : bool) (s : gameState) : gameState :=
  {| stars := stars s;
     timer := timer s;
     gameActive := gameActive s;
     gameOver := v;
     currentQ := currentQ s;
     streak := streak s;
     maxStreak := maxStreak s;
     feedback := feedback s;
     playerName := playerName s;
     scoreSaved := scoreSaved s;
     usedIndices := usedIndices s;
     timeouts := timeouts s |}.

Definition setCurrentQ (v : option record) (s : gameState) : gameState :=
  {| stars := stars s;
     timer := timer s;
     gameActive := gameActive s;
     gameOver := gameOver s;
     currentQ := v;
     streak := streak s;
     maxStreak := maxStreak s;
     feedback := feedback s;
     playerName := playerName s;
     scoreSaved := scoreSaved s;
     usedIndices := usedIndices s;
     timeouts := timeouts s |}.

Definition setStreak (v : Z) (s : gameState) : gameState :=
  {| stars := stars s;
     timer := timer s;
     gameActive := gameActive s;
     gameOver := gameOver s;
     currentQ := currentQ s;
     streak := v;
     maxStreak := maxStreak s;
     feedback := feedback s;
     playerName := playerName s;
     scoreSaved := scoreSaved s;
     usedIndices := usedIndices s;
     timeouts := timeouts s |}.

Definition setMaxStreak (v : Z) (s : gameState) : gameState :=
  {| stars := stars s;
     timer := timer s;
     gameActive := gameActive s;
     gameOver := gameOver s;
     currentQ := currentQ s;
     streak := streak s;
     maxStreak := v;
     feedback := feedback s;
     playerName := playerName s;
     scoreSaved := scoreSaved s;
     usedIndices := usedIndices s;
     timeouts := timeouts s |}.

Definition setFeedback (v : option feedbackValue) (s : gameState) : gameState :=
  {| stars := stars s;
     timer := timer s;
     gameActive := gameActive s;
     gameOver := gameOver s;
     currentQ := currentQ s;
     streak := streak s;
     maxStreak := maxStreak s;
     feedback := v;
     playerName := playerName s;
     scoreSaved := scoreSaved s;
     usedIndices := usedIndices s;
     timeouts := timeouts s |}.

Definition setPlayerName (v : jsstring) (s : gameState) : gameState :=
  {| stars := stars s;
     timer := timer s;
     gameActive := gameActive s;
     gameOver := gameOver s;
     currentQ := currentQ s;
     streak := streak s;
     maxStreak := maxStreak s;
     feedback := feedback s;
     playerName := v;
     scoreSaved := scoreSaved s;
     usedIndices := usedIndices s;
     timeouts := timeouts s |}.

Definition setScoreSaved (v : bool) (s : gameState) : gameState :=
  {| stars := stars s;
     timer := timer s;
     gameActive := gameActive s;
     gameOver := gameOver s;
     currentQ := currentQ s;
     streak := streak s;
     maxStreak := maxStreak s;
     feedback := feedback s;
     playerName := playerName s;
     scoreSaved := v;
     usedIndices := usedIndices s;
     timeouts := timeouts s |}.

Definition setUsedIndices (v : gset nat) (s : gameState) : gameState :=
  {| stars := stars s;
     timer := timer s;
     gameActive := gameActive s;
     gameOver := gameOver s;
     currentQ := currentQ s;
     streak := streak s;
     maxStreak := maxStreak s;
     feedback := feedback s;
     playerName := playerName s;
     scoreSaved := scoreSaved s;
     usedIndices := v;
     timeouts := timeouts s |}.

Definition setTimeouts (v : list closure) (s : gameState) : gameState :=
  {| stars := stars s;
     timer := timer s;
     gameActive := gameActive s;
     gameOver := gameOver s;
     currentQ := currentQ s;
     streak := streak s;
     maxStreak := maxStreak s;
     feedback := feedback s;
     playerName := playerName s;
     scoreSaved := scoreSaved s;
     usedIndices := usedIndices s;
     timeouts := v |}.

(** A value that is not [null]. *)
Definition given {A} (o : option A) : bool :=
  match o with Some _ => true | None => false end.

(** The seconds a game lasts. *)
Definition startTime (difficulty : jsstring) : Z :=
  if bool_decide (difficulty = str "Hard") then 30%Z
  else if bool_decide (difficulty = str "Medium") then 40%Z else 50%Z.

(** The state of a component that has just been mounted. *)
Definition initial (difficulty : jsstring) : gameState :=
  {| stars := 0; timer := startTime difficulty; gameActive := false;
     gameOver := false; currentQ := None; streak := 0; maxStreak := 0;
     feedback := None; playerName := []; scoreSaved := false;
     usedIndices := ∅; timeouts := [] |}.

(** [questions]: the records of the sheet that have no difficulty or the
    chosen one. *)
Definition DIFFICULTY : jsstring := str "difficulty".

Definition questions (difficulty : jsstring) (allQuestions : list record)
    : list record :=
  List.filter
    (fun q => negb (match q !! DIFFICULTY with
                    | Some d => truthy d
                    | None => false
                    end)
              || bool_decide (q !! DIFFICULTY = Some difficulty)
              || bool_decide (difficulty = str "All"))
    allQuestions.

(** The indices of the questions that [usedIndices] does not hold:
    [questions.filter((_, i) => !usedIndices.has(i))], by index. *)
Definition available (questions : list record) (usedIndices : gset nat)
    : list nat :=
  List.filter (fun i => negb (bool_decide (i ∈ usedIndices)))
    (seq 0 (length questions)).

(** [Math.floor(Math.random() * n)] is an index below [n]; [random] is
    the number drawn. *)
Definition randomIndex (random n : nat) : nat := random mod n.

(** [getNextQuestion]: the index of its result in [questions] (the
    questions are distinct objects, which [indexOf] finds again) and what
    it makes of the state [usedIndices]; [snapshot] is the [usedIndices]
    of the render the function belongs to. *)
Definition getNextQuestion (questions : list record) (snapshot : gset nat)
    (random : nat) (usedIndices : gset nat) : option nat * gset nat :=
  if (length questions =? 0)%nat then (None, usedIndices)
  else
    let available0 := available questions snapshot in
    let '(usedIndices1, available1) :=
      if (length available0 =? 0)%nat
      then (∅, seq 0 (length questions))
      else (usedIndices, available0) in
    let idx := randomIndex random (length available1) in
    let realIdx := nth idx available1 0%nat in
    (Some realIdx, usedIndices1 ∪ {[realIdx]}).

(** [generateQuestion] *)
Definition generateQuestion (c : closure) (random : nat) (s : gameState)
    : gameState :=
  let '(q, used) := getNextQuestion c.1 c.2 random (usedIndices s) in
  let s := setUsedIndices used s in
  match q with
  | Some realIdx =>
      match c.1 !! realIdx with
      | Some question => setCurrentQ (Some question) s
      | None => s
      end
  | None => s
  end.

(** The stars of a correct answer:
    [Math.floor((15 + streak * 3) * mult)], [mult] being 2, 1.5 or 1. *)
Definition points (difficulty : jsstring) (streak : Z) : Z :=
  if bool_decide (difficulty = str "Hard") then ((15 + streak * 3) * 2)%Z
  else if bool_decide (difficulty = str "Medium")
       then ((15 + streak * 3) * 3 / 2)%Z
       else (15 + streak * 3)%Z.

(** [startGame], called in a render with these [questions]. *)
Definition startGame (difficulty : jsstring) (questions : list record)
    (random : nat) (s : gameState) : gameState :=
  let snapshot := usedIndices s in
  let s := setStars 0 s in
  let s := setTimer (startTime difficulty) s in
  let s := setStreak 0 s in
  let s := setMaxStreak 0 s in
  let s := setUsedIndices ∅ s in
  let s := setGameActive true s in
  let s := setGameOver false s in
  let s := setScoreSaved false s in
  let s := setPlayerName [] s in
  generateQuestion (questions, snapshot) random s.

(** [handleAnswer]; its timeout is added to those that wait. *)
Definition handleAnswer (difficulty : jsstring) (questions : list record)
    (selected correct : jsstring) (s : gameState) : gameState :=
  if negb (gameActive s) || given (feedback s) then s
  else
    let s' :=
      if bool_decide (selected = correct) then
        let n := (streak s + 1)%Z in
        setFeedback (Some Correct)
          (setMaxStreak (Z.max (maxStreak s) n)
             (setStreak n
                (setStars (stars s + points difficulty (streak s))%Z s)))
      else
        setFeedback (Some (Wrong correct)) (setStreak 0 s) in
    setTimeouts (timeouts s ++ [(questions, usedIndices s)]) s'.

(** The callback of the oldest timeout. *)
Definition feedbackTimeout (random : nat) (s : gameState) : gameState :=
  match timeouts s with
  | [] => s
  | c :: rest =>
      generateQuestion c random (setFeedback None (setTimeouts rest s))
  end.

(** The interval of the timer effect exists while the game is active, time
    is left and a question is shown; its callback takes a second off. *)
Definition ticking (s : gameState) : bool :=
  gameActive s && (0 <? timer s)%Z && given (currentQ s).

Definition tick (s : gameState) : gameState :=
  if ticking s then setTimer (timer s - 1)%Z s else s.

(** The other branch of the timer effect, which runs after a render. *)
Definition timerEffect (s : gameState) : gameState :=
  if ticking s then s
  else if (timer s =? 0)%Z && gameActive s
       then setGameOver true (setGameActive false s)
       else s.

(** The application: the leaderboard of [LearningGalaxy] and the game it
    shows. *)
Record app : Type := { leaderboard : list Scores.score; play : gameState }.

Definition mounted (leaderboard : list Scores.score) (difficulty : jsstring)
    : app :=
  {| leaderboard := leaderboard; play := initial difficulty |}.

(** [handleSaveScore], with [handleGameEnd] for [onGameEnd]. *)
Definition handleSaveScore (gameId now : jsstring) (a : app) : app :=
  let s := play a in
  if negb (truthy (trim (playerName s))) then a
  else {| leaderboard :=
            Scores.handleGameEnd (leaderboard a) gameId (playerName s)
              (stars s) (maxStreak s) now;
          play := setScoreSaved true s |}.

(** What happens to a mounted game: calls of its handlers and callbacks.
    [StartGame] and [Answer] carry the [questions] of the render whose
    button was pressed. *)
Inductive event : Type :=
  | StartGame (questions : list record) (random : nat)
  | Answer (questions : list record) (selected correct : jsstring)
  | FeedbackTimeout (random : nat)
  | Tick
  | TypeName (name : jsstring)
  | SaveScore (now : jsstring).

Definition onPlay (f : gameState -> gameState) (a : app) : app :=
  {| leaderboard := leaderboard a; play := f (play a) |}.

(** An event, the render that follows it and the effect of that render. *)
Definition step (difficulty gameId : jsstring) (a : app) (e : event) : app :=
  let a' :=
    match e with
    | StartGame qs random => onPlay (startGame difficulty qs random) a
    | Answer qs selected correct =>
        onPlay (handleAnswer difficulty qs selected correct) a
    | FeedbackTimeout random => onPlay (feedbackTimeout random) a
    | Tick => onPlay tick a
    | TypeName name => onPlay (setPlayerName name) a
    | SaveScore now => handleSaveScore gameId now a
    end in
  onPlay timerEffect a'.

Definition run (difficulty gameId : jsstring) (a : app) (es : list event)
    : app :=
  fold_left (step difficulty gameId) es a.

(** The indices [getNextQuestion] returns when it is called again and
    again, each call in a render that has the [usedIndices] the one before
    left. *)
Fixpoint asked (questions : list record) (randoms : list nat)
    (usedIndices : gset nat) : list nat :=
  match randoms with
  | [] => []
  | random :: randoms' =>
      match getNextQuestion questions usedIndices random usedIndices with
      | (Some realIdx, usedIndices') =>
          realIdx :: asked questions randoms' usedIndices'
      | (None, _) => []
      end
  end.

(** What holds of the game whatever happens to it. *)
Definition consistent (difficulty : jsstring) (s : gameState) : Prop :=
  (0 <= streak s <= maxStreak s)%Z
  /\ (0 <= stars s)%Z
  /\ (0 <= timer s <= startTime difficulty)%Z
  /\ (gameActive s = true -> (0 < timer s)%Z /\ gameOver s = false)
  /\ (gameOver s = true -> timer s = 0%Z).

(** The fields [generateQuestion] leaves alone. *)
Definition sameScore (s s' : gameState) : Prop :=
  stars s' = stars s /\ timer s' = timer s /\ gameActive s' = gameActive s
  /\ gameOver s' = gameOver s /\ streak s' = streak s
  /\ maxStreak s' = maxStreak s /\ feedback s' = feedback s
  /\ playerName s' = playerName s /\ scoreSaved s' = scoreSaved s
  /\ timeouts s' = timeouts s.

(** What holds between a handler and the effect of the render that
    follows. *)
Definition settling (difficulty : jsstring) (s : gameState) : Prop :=
  (0 <= streak s <= maxStreak s)%Z
  /\ (0 <= stars s)%Z
  /\ (0 <= timer s <= startTime difficulty)%Z
  /\ (gameActive s = true -> gameOver s = false)
  /\ (gameOver s = true -> timer s = 0%Z).

Definition isStart (e : event) : bool :=
  match e with StartGame _ _ => true | _ => false end.

End Game.

(** ** More sample inputs *)

Module Examples.

Import Parser Csv Reference Samples.

(** The rows of the sample with empty and blank lines among them. *)
Definition linesWithBlanks : list (newline * list field) :=
  [(NL_LF, [Plain (str "n1"); Plain (str "x")]);
   (NL_LF, []);
   (NL_CRLF, [Plain (str "  ")]);
   (NL_CR, [Plain []; Quoted sampleValue; Plain (str "z");
            Plain (str "extra")]);
   (NL_LF, [])].

(** The sample written in another way: other quotes, other separators. *)
Definition otherHeader : list field :=
  [Quoted (str "Name"); Plain (str "Game_Type"); Quoted (str " q ")].

Definition otherRows : list (newline * list field) :=
  [(NL_CR, [Quoted (str "n1"); Quoted (str "x")]);
   (NL_LF, [Quoted []; Quoted sampleValue; Quoted (str "z");
            Plain (str "extra")])].

(** A network on which the first two calls of [fetch] are answered with
    status 503 and every later one with the sample text. *)
Definition flaky : Fetcher.network :=
  fun n url =>
    if (n <? 2)%nat then unavailable n url
    else Normal {| Fetcher.ok := true; Fetcher.status := 200;
                   Fetcher.statusText := str "OK";
                   Fetcher.text := Normal sampleText |}.

(** The errors of [unavailable]. *)
Definition unavailableError (n : nat) : jserror :=
  Error (str "HTTP 503: " ++ Fetcher.decimal (Z.of_nat n)).

Definition notFound : Fetcher.response :=
  {| Fetcher.ok := false; Fetcher.status := 404;
     Fetcher.statusText := str "Not Found"; Fetcher.text := Normal [] |}.

(** A time, and a storage with something that is not the cache's. *)
Definition T0 : Z := 1700000000000.

Definition SETTINGS_KEY : jsstring := str "learning-galaxy-settings".

Definition otherStorage : gmap jsstring jsstring :=
  {[ SETTINGS_KEY := str "{}" ]}.

(** A storage whose entry for the sample URL is not JSON. *)
Definition brokenStorage : gmap jsstring jsstring :=
  {[ sampleKey := str "junk" ]}.

(** A hook that has rendered for a URL and waits for its fetch. *)
Definition waiting (url gameType : jsstring) : Controller.system :=
  Controller.step asciiLower stringify parse noQuota (Controller.mounting ∅)
    (Controller.Render url gameType T0).

(** A leaderboard. *)
Definition sampleScores : list Scores.score :=
  [{| Scores.game := str "space-math"; Scores.name := str "Ann";
      Scores.stars := 30; Scores.streak := 2; Scores.date := str "d1" |};
   {| Scores.game := str "synonym-stars"; Scores.name := str "Bo";
      Scores.stars := 45; Scores.streak := 3; Scores.date := str "d2" |}].

(** Three questions, and a game on them that is played to its end with
    one right answer. *)
Definition sampleQuestions : list record :=
  [{[ str "answer" := str "4" ]}; {[ str "answer" := str "5" ]};
   {[ str "answer" := str "6" ]}].

Definition sampleGame : list Game.event :=
  [Game.StartGame sampleQuestions 0; Game.Answer sampleQuestions (str "4") (str "4");
   Game.FeedbackTimeout 1]
  ++ repeat Game.Tick 50.

Definition afterGame : list Game.event :=
  [Game.Answer sampleQuestions (str "5") (str "5"); Game.Tick;
   Game.TypeName (str "Ann"); Game.SaveScore (str "d3")].

End Examples.
(** * Properties *)

(** ** Strings *)

Section StringFacts.

Implicit Types s t : jsstring.

Lemma truthy_nil_iff s : truthy s = false <-> s = [].
Proof. destruct s; simpl; split; congruence. Qed.

Lemma truthy_rev s : truthy (rev s) = truthy s.
Proof.
  destruct s as [|c s]; [reflexivity|]. simpl.
  destruct (rev s ++ [c]) eqn:E; [|reflexivity].
  apply app_eq_nil in E as [_ E]. discriminate.
Qed.

Lemma truthy_app s t : truthy (s ++ t) = truthy s || truthy t.
Proof. destruct s; reflexivity. Qed.

Lemma trimStart_app s t :
  trimStart (s ++ t) =
  if existsb nonWhite s then trimStart s ++ t else trimStart t.
Proof.
  induction s as [|c s IH]; simpl; [reflexivity|].
  unfold nonWhite at 1. destruct (isWhiteSpace c); simpl; [exact IH|reflexivity].
Qed.

Lemma truthy_trimStart s : truthy (trimStart s) = existsb nonWhite s.
Proof.
  induction s as [|c s IH]; simpl; [reflexivity|].
  unfold nonWhite at 1. destruct (isWhiteSpace c); simpl; [exact IH|reflexivity].
Qed.

Lemma existsb_rev (f : N -> bool) s : existsb f (rev s) = existsb f s.
Proof.
  induction s as [|c s IH]; simpl; [reflexivity|].
  rewrite existsb_app, IH. simpl. rewrite orb_false_r. apply orb_comm.
Qed.

Lemma existsb_trimStart s : existsb nonWhite (trimStart s) = existsb nonWhite s.
Proof.
  induction s as [|c s IH]; simpl; [reflexivity|].
  destruct (isWhiteSpace c) eqn:E; simpl; [|reflexivity].
  unfold nonWhite at 2. rewrite E. exact IH.
Qed.

(** A text is blank for [trim] exactly when all of it is white space. *)
Lemma truthy_trim s : truthy (trim s) = existsb nonWhite s.
Proof.
  unfold trim, trimEnd.
  rewrite truthy_rev, truthy_trimStart, existsb_rev. apply existsb_trimStart.
Qed.

Lemma trimEnd_cons c s :
  trimEnd (c :: s) =
  if existsb nonWhite s || nonWhite c then c :: trimEnd s else [].
Proof.
  unfold trimEnd. simpl. rewrite trimStart_app, existsb_rev.
  destruct (existsb nonWhite s) eqn:E; simpl.
  - rewrite rev_app_distr. reflexivity.
  - assert (H : trimStart (rev s) = []).
    { apply truthy_nil_iff. rewrite truthy_trimStart, existsb_rev. exact E. }
    rewrite H. unfold nonWhite. destruct (isWhiteSpace c); reflexivity.
Qed.

Lemma existsb_trimEnd s : existsb nonWhite (trimEnd s) = existsb nonWhite s.
Proof.
  unfold trimEnd. rewrite existsb_rev, existsb_trimStart. apply existsb_rev.
Qed.

Lemma trimEnd_idem s : trimEnd (trimEnd s) = trimEnd s.
Proof.
  induction s as [|c s IH]; [reflexivity|].
  rewrite trimEnd_cons.
  destruct (existsb nonWhite s || nonWhite c) eqn:E; [|reflexivity].
  rewrite trimEnd_cons, existsb_trimEnd, E, IH. reflexivity.
Qed.

Lemma trimStart_fixed s :
  trimStart s = s <-> (s = [] \/ exists c s', s = c :: s' /\ isWhiteSpace c = false).
Proof.
  split.
  - destruct s as [|c s]; [now left|]. simpl.
    destruct (isWhiteSpace c) eqn:E; [|right; eauto].
    intros H. exfalso.
    assert (L : (length (trimStart s) <= length s)%nat).
    { clear. induction s as [|d s IH]; simpl; [lia|].
      destruct (isWhiteSpace d); simpl; lia. }
    rewrite H in L. simpl in L. lia.
  - intros [-> | (c & s' & -> & E)]; [reflexivity|]. simpl. now rewrite E.
Qed.

Lemma trimStart_idem s : trimStart (trimStart s) = trimStart s.
Proof.
  induction s as [|c s IH]; simpl; [reflexivity|].
  destruct (isWhiteSpace c) eqn:E; [exact IH|]. simpl. now rewrite E.
Qed.

(** Trimming removes no white space inside: after it, neither end has
    any left. *)
Lemma trimStart_trim s : trimStart (trim s) = trim s.
Proof.
  unfold trim.
  destruct (trimStart s) as [|c t] eqn:E; [reflexivity|].
  assert (Hc : isWhiteSpace c = false).
  { pose proof (trimStart_idem s) as H. rewrite E in H.
    apply trimStart_fixed in H as [H | (c' & s' & H & Hc)]; [discriminate|].
    now inversion H; subst. }
  rewrite trimEnd_cons.
  replace (existsb nonWhite t || nonWhite c) with true
    by (unfold nonWhite at 2; rewrite Hc; symmetry; apply orb_true_r).
  apply trimStart_fixed. right. eauto.
Qed.

Lemma trim_idem s : trim (trim s) = trim s.
Proof.
  unfold trim at 1. rewrite trimStart_trim. unfold trim. apply trimEnd_idem.
Qed.

Lemma trimEnd_trim s : trimEnd (trim s) = trim s.
Proof. unfold trim. apply trimEnd_idem. Qed.

End StringFacts.

(** ** The field and row scanners *)

Section ScannerFacts.

Import Parser Csv.

Implicit Types (s row rest cur : jsstring) (f : field) (fs : list field).

(** Induction for loops that consume one or two characters a turn. *)
Lemma skip_ind (P : jsstring -> Prop) :
  P [] ->
  (forall c rest,
      P rest -> (forall d rest', rest = d :: rest' -> P rest') -> P (c :: rest)) ->
  forall s, P s.
Proof.
  intros Hnil Hcons s.
  enough (H : P s /\ (forall d s', s = d :: s' -> P s')) by apply H.
  induction s as [|c s [IH1 IH2]].
  - split; [exact Hnil | discriminate].
  - split; [now apply Hcons|]. intros d s' [= -> ->]. exact IH1.
Qed.

(** [parseRow] cleans the text of each field and does nothing else to
    it. *)
Lemma parseRow_loop_texts row : forall texts cur q,
  parseRow_loop row (map cleanValue texts) cur q =
  map cleanValue (fieldTexts_loop row texts cur q).
Proof.
  induction row as [|c rest IH IH'] using skip_ind; intros texts cur q.
  - simpl. now rewrite map_app.
  - simpl. destruct (c =? QUOTE).
    + destruct rest as [|d rest']; [apply IH|].
      destruct (q && (d =? QUOTE)); [now apply (IH' d rest') | apply IH].
    + destruct ((c =? COMMA) && negb q); [|apply IH].
      rewrite <- IH. now rewrite map_app.
Qed.

Lemma parseRow_texts row : parseRow row = map cleanValue (fieldTexts row).
Proof. apply (parseRow_loop_texts row [] [] false). Qed.

(** The cleaning, in the words of the specification. *)
Lemma startsWith_quote s :
  startsWith s [QUOTE] = match s with c :: _ => c =? QUOTE | [] => false end.
Proof.
  destruct s as [|c s]; [reflexivity|]. cbn [startsWith].
  destruct s; rewrite andb_true_r; apply N.eqb_sym.
Qed.

Lemma last_rev_head s : last s = head (rev s).
Proof.
  induction s as [|c s IH] using rev_ind; [reflexivity|].
  rewrite rev_app_distr. simpl. apply last_snoc.
Qed.

Lemma isWrapped_code s :
  startsWith s [QUOTE] && endsWith s [QUOTE] = isWrapped s.
Proof.
  unfold endsWith, isWrapped. change (rev [QUOTE]) with [QUOTE].
  rewrite !startsWith_quote.
  destruct s as [|c s]; [reflexivity|]. rewrite last_rev_head.
  destruct (rev (c :: s)) as [|d r] eqn:E; simpl; [|reflexivity].
  apply (f_equal (@length N)) in E. rewrite length_rev in E. discriminate.
Qed.

Lemma slice_unwrap s : slice s 1 (-1) = unwrap s.
Proof.
  destruct s as [|c s]; [reflexivity|].
  unfold slice, slicePos, unwrap.
  change (length (c :: s)) with (S (length s)).
  replace (1 <? 0)%Z with false by reflexivity.
  replace (-1 <? 0)%Z with true by reflexivity.
  replace (Z.to_nat (Z.min 1 (Z.of_nat (S (length s))))) with 1%nat by lia.
  replace (Z.to_nat (Z.max (Z.of_nat (S (length s)) + -1) 0
                     - Z.min 1 (Z.of_nat (S (length s)))))
    with (pred (length s)) by lia.
  simpl drop. rewrite removelast_firstn_len. reflexivity.
Qed.

Lemma cleanValue_spec s : cleanValue s = cleanSpec s.
Proof.
  unfold cleanValue, cleanSpec. rewrite isWrapped_code, slice_unwrap.
  reflexivity.
Qed.

(** A text with no white space at its ends and no quotes around it is
    left as it is. *)
Lemma cleanValue_id s :
  trim s = s -> isWrapped s = false -> cleanValue s = s.
Proof.
  intros Ht Hw. rewrite cleanValue_spec. unfold cleanSpec.
  now rewrite Ht, Hw.
Qed.

(** *** Scanning the rendering of a field *)

Lemma isPlainChar_inv c :
  isPlainChar c = true ->
  (c =? QUOTE) = false /\ (c =? COMMA) = false
  /\ (c =? LF) = false /\ (c =? CR) = false.
Proof.
  unfold isPlainChar. rewrite negb_true_iff, !orb_false_iff. tauto.
Qed.

Lemma noQuoteAhead_eqb d rest :
  noQuoteAhead (d :: rest) -> (d =? QUOTE) = false.
Proof.
  unfold noQuoteAhead. simpl. intros H. apply N.eqb_neq. congruence.
Qed.

Lemma parse_plain s : forall rest values cur q,
  forallb isPlainChar s = true ->
  parseRow_loop (s ++ rest) values cur q = parseRow_loop rest values (cur ++ s) q.
Proof.
  induction s as [|c s IH]; intros rest values cur q H.
  - now rewrite app_nil_r.
  - simpl in H. apply andb_true_iff in H as [Hc Hs].
    apply isPlainChar_inv in Hc as (Hq & Hcm & _ & _).
    simpl. rewrite Hq, Hcm. simpl. rewrite IH by exact Hs.
    now rewrite <- app_assoc.
Qed.

Lemma parse_open rest values cur :
  parseRow_loop (QUOTE :: rest) values cur false =
  parseRow_loop rest values cur true.
Proof. destruct rest; reflexivity. Qed.

Lemma parse_close rest values cur :
  noQuoteAhead rest ->
  parseRow_loop (QUOTE :: rest) values cur true =
  parseRow_loop rest values cur false.
Proof.
  intros H. destruct rest as [|d rest]; [reflexivity|].
  simpl. now rewrite (noQuoteAhead_eqb d rest H).
Qed.

Lemma parse_escape s : forall rest values cur,
  noQuoteAhead rest ->
  parseRow_loop (escape s ++ QUOTE :: rest) values cur true =
  parseRow_loop rest values (cur ++ s) false.
Proof.
  induction s as [|c s IH]; intros rest values cur H.
  - rewrite app_nil_r. now apply parse_close.
  - simpl. destruct (c =? QUOTE) eqn:E.
    + apply N.eqb_eq in E. subst c. simpl.
      rewrite IH by exact H. now rewrite <- app_assoc.
    + simpl. rewrite E. rewrite andb_false_r.
      rewrite IH by exact H. now rewrite <- app_assoc.
Qed.

Lemma parse_field f rest values cur :
  wfField f = true -> noQuoteAhead rest ->
  parseRow_loop (renderField f ++ rest) values cur false =
  parseRow_loop rest values (cur ++ content f) false.
Proof.
  intros Hwf H. destruct f as [s|s]; cbn [renderField content wfField] in *.
  - now apply parse_plain.
  - unfold quoteField.
    change ((QUOTE :: escape s ++ [QUOTE]) ++ rest)
      with (QUOTE :: (escape s ++ [QUOTE]) ++ rest).
    rewrite parse_open, <- app_assoc. now apply parse_escape.
Qed.

(** [parseRow] gives the cleaned texts of the fields of a rendered row. *)
Lemma parse_row fs : forall values,
  fs <> [] -> wfRow fs = true ->
  parseRow_loop (renderRow fs) values [] false = values ++ cleaned fs.
Proof.
  induction fs as [|f fs IH]; intros values Hne Hwf; [congruence|].
  simpl in Hwf. apply andb_true_iff in Hwf as [Hf Hfs].
  destruct fs as [|g fs].
  - simpl renderRow. rewrite <- (app_nil_r (renderField f)).
    rewrite parse_field by (try exact Hf; unfold noQuoteAhead; simpl; congruence).
    reflexivity.
  - change (renderRow (f :: g :: fs))
      with (renderField f ++ COMMA :: renderRow (g :: fs)).
    rewrite parse_field by (try exact Hf; unfold noQuoteAhead; simpl; discriminate).
    change (parseRow_loop (COMMA :: renderRow (g :: fs)) values ([] ++ content f) false)
      with (parseRow_loop (renderRow (g :: fs))
              (values ++ [cleanValue (content f)]) [] false).
    rewrite IH by (try exact Hfs; discriminate).
    rewrite <- app_assoc. reflexivity.
Qed.

Lemma parseRow_render fs :
  fs <> [] -> wfRow fs = true -> parseRow (renderRow fs) = cleaned fs.
Proof. intros Hne Hwf. apply (parse_row fs [] Hne Hwf). Qed.

End ScannerFacts.

(** ** Splitting a rendered document into rows *)

Section SplitFacts.

Import Parser Csv.

Implicit Types (s rest cur : jsstring) (f : field) (fs : list field).

Lemma split_plain s : forall rest rows cur q,
  forallb isPlainChar s = true ->
  splitRows_loop (s ++ rest) rows cur q = splitRows_loop rest rows (cur ++ s) q.
Proof.
  induction s as [|c s IH]; intros rest rows cur q H.
  - now rewrite app_nil_r.
  - simpl in H. apply andb_true_iff in H as [Hc Hs].
    apply isPlainChar_inv in Hc as (Hq & _ & Hlf & Hcr).
    simpl. rewrite Hq, Hlf, Hcr. simpl. rewrite IH by exact Hs.
    now rewrite <- app_assoc.
Qed.

Lemma split_comma rest rows cur q :
  splitRows_loop (COMMA :: rest) rows cur q =
  splitRows_loop rest rows (cur ++ [COMMA]) q.
Proof. reflexivity. Qed.

Lemma split_open rest rows cur :
  splitRows_loop (QUOTE :: rest) rows cur false =
  splitRows_loop rest rows (cur ++ [QUOTE]) true.
Proof. destruct rest; reflexivity. Qed.

Lemma split_close rest rows cur :
  noQuoteAhead rest ->
  splitRows_loop (QUOTE :: rest) rows cur true =
  splitRows_loop rest rows (cur ++ [QUOTE]) false.
Proof.
  intros H. destruct rest as [|d rest]; [reflexivity|].
  simpl. now rewrite (noQuoteAhead_eqb d rest H).
Qed.

(** Inside quotes nothing ends a row. *)
Lemma split_escape s : forall rest rows cur,
  noQuoteAhead rest ->
  splitRows_loop (escape s ++ QUOTE :: rest) rows cur true =
  splitRows_loop rest rows (cur ++ escape s ++ [QUOTE]) false.
Proof.
  induction s as [|c s IH]; intros rest rows cur H.
  - now apply split_close.
  - simpl. destruct (c =? QUOTE) eqn:E.
    + apply N.eqb_eq in E. subst c. simpl.
      rewrite IH by exact H. now rewrite <- app_assoc.
    + simpl. rewrite E, andb_false_r.
      rewrite IH by exact H. now rewrite <- app_assoc.
Qed.

Lemma split_field f rest rows cur :
  wfField f = true -> noQuoteAhead rest ->
  splitRows_loop (renderField f ++ rest) rows cur false =
  splitRows_loop rest rows (cur ++ renderField f) false.
Proof.
  intros Hwf H. destruct f as [s|s]; cbn [renderField wfField] in *.
  - now apply split_plain.
  - unfold quoteField.
    change ((QUOTE :: escape s ++ [QUOTE]) ++ rest)
      with (QUOTE :: (escape s ++ [QUOTE]) ++ rest).
    rewrite split_open, <- app_assoc.
    change ([QUOTE] ++ rest) with (QUOTE :: rest).
    rewrite split_escape by exact H.
    now rewrite <- app_assoc.
Qed.

Lemma split_row fs : forall rest rows cur,
  wfRow fs = true -> noQuoteAhead rest ->
  splitRows_loop (renderRow fs ++ rest) rows cur false =
  splitRows_loop rest rows (cur ++ renderRow fs) false.
Proof.
  induction fs as [|f fs IH]; intros rest rows cur Hwf H.
  - simpl. now rewrite app_nil_r.
  - simpl in Hwf. apply andb_true_iff in Hwf as [Hf Hfs].
    destruct fs as [|g fs].
    + simpl renderRow. now apply split_field.
    + change (renderRow (f :: g :: fs))
        with (renderField f ++ COMMA :: renderRow (g :: fs)).
      rewrite <- app_assoc.
      rewrite split_field by (try exact Hf; unfold noQuoteAhead; simpl; discriminate).
      rewrite <- app_comm_cons, split_comma, IH by assumption.
      now rewrite <- !app_assoc.
Qed.

(** The first character of a row is no line break. *)
Lemma head_renderRow fs c :
  wfRow fs = true -> head (renderRow fs) = Some c ->
  (c =? LF) = false /\ (c =? CR) = false.
Proof.
  destruct fs as [|f fs]; [discriminate|].
  intros Hwf. simpl in Hwf. apply andb_true_iff in Hwf as [Hf _].
  assert (Hfield : forall r, head (renderField f ++ r) = Some c ->
            renderField f <> [] -> (c =? LF) = false /\ (c =? CR) = false).
  { intros r Hh Hne. destruct f as [[|d s]|s]; simpl in *; try congruence.
    - injection Hh as ->. apply andb_true_iff in Hf as [Hd _].
      apply isPlainChar_inv in Hd. tauto.
    - injection Hh as <-. split; reflexivity. }
  destruct fs as [|g fs]; simpl renderRow.
  - intros Hh. apply (Hfield []); [now rewrite app_nil_r|].
    intros E. rewrite E in Hh. discriminate.
  - destruct (renderField f) as [|d r] eqn:E.
    + simpl. intros [= <-]. split; reflexivity.
    + rewrite <- E in *. intros Hh. apply (Hfield _ Hh). rewrite E. discriminate.
Qed.

Lemma split_newline nl rest rows cur :
  (forall c, head rest = Some c -> (c =? LF) = false) ->
  splitRows_loop (renderNewline nl ++ rest) rows cur false =
  splitRows_loop rest (pushRow rows cur) [] false.
Proof.
  intros H. destruct nl; simpl renderNewline.
  - destruct rest; reflexivity.
  - destruct rest as [|d rest]; [reflexivity|].
    cbn. now rewrite (H d eq_refl).
  - reflexivity.
Qed.

Lemma pushRow_nonblank rows cur :
  truthy (trim cur) = true -> pushRow rows cur = rows ++ [cur].
Proof. unfold pushRow. now intros ->. Qed.

Lemma split_rows rows : forall acc cur,
  Forall goodRow rows ->
  splitRows_loop (renderRows rows) acc cur false =
  pushRow acc cur ++ map lineOf rows.
Proof.
  induction rows as [|[nl fs] rows IH]; intros acc cur Hall.
  - simpl. now rewrite app_nil_r.
  - inversion Hall as [|? ? [Hwf Hnb] Hrest]; subst. simpl in Hwf, Hnb.
    simpl renderRows.
    assert (Hne : renderRow fs <> []).
    { intros E. rewrite E in Hnb. discriminate. }
    rewrite split_newline.
    + rewrite split_row.
      * rewrite IH by exact Hrest. simpl.
        rewrite pushRow_nonblank by exact Hnb.
        now rewrite <- app_assoc.
      * exact Hwf.
      * destruct rows as [|[nl' fs'] rows']; unfold noQuoteAhead; simpl;
          [congruence|]. destruct nl'; simpl; discriminate.
    + intros c Hc. destruct (renderRow fs) as [|d r] eqn:E; [congruence|].
      simpl in Hc. injection Hc as ->.
      apply (head_renderRow fs c Hwf). now rewrite E.
Qed.

(** The rows of a rendered document are its lines. *)
Lemma splitRows_render header rows :
  goodRow (NL_LF, header) -> Forall goodRow rows ->
  splitRows (render header rows) = renderRow header :: map lineOf rows.
Proof.
  intros [Hwf Hnb] Hrows. unfold splitRows, render. simpl in Hwf, Hnb.
  rewrite split_row.
  - rewrite split_rows by exact Hrows. simpl.
    now rewrite pushRow_nonblank by exact Hnb.
  - exact Hwf.
  - destruct rows as [|[nl' fs'] rows']; unfold noQuoteAhead; simpl;
      [congruence|]. destruct nl'; simpl; discriminate.
Qed.

(** A text without a line break has one row at most. *)
Lemma splitRows_loop_one_line s : forall rows cur q,
  forallb (fun c => negb ((c =? LF) || (c =? CR))) s = true ->
  (length (splitRows_loop s rows cur q) <= S (length rows))%nat.
Proof.
  induction s as [|c rest IH IH'] using skip_ind; intros rows cur q H.
  - simpl. unfold pushRow. destruct (truthy (trim cur)); [|lia].
    rewrite length_app. simpl. lia.
  - cbn [forallb] in H. apply andb_true_iff in H as [Hc Hrest].
    apply negb_true_iff in Hc. cbn [splitRows_loop]. rewrite Hc.
    cbn [andb]. destruct (c =? QUOTE).
    + destruct rest as [|d rest']; [now apply IH|].
      destruct (q && (d =? QUOTE)); [|now apply IH].
      apply (IH' d rest' eq_refl).
      cbn [forallb] in Hrest. now apply andb_true_iff in Hrest as [_ Hrest].
    + now apply IH.
Qed.

Lemma splitRows_one_line s :
  forallb (fun c => negb ((c =? LF) || (c =? CR))) s = true ->
  (length (splitRows s) < 2)%nat.
Proof.
  intros H. pose proof (splitRows_loop_one_line s [] [] false H) as L.
  unfold splitRows. simpl in L. lia.
Qed.

End SplitFacts.

(** ** Building the records *)

Section RecordFacts.

Import Parser Csv.

Implicit Types (obj : record) (hdrs values : list jsstring) (k h v : jsstring).

Lemma assign_lookup_same obj h v :
  h <> PROTO -> assign obj h v !! h = Some v.
Proof. intros H. unfold assign. rewrite decide_False by exact H. apply lookup_insert_eq. Qed.

Lemma assign_lookup_ne obj h v k :
  h <> k -> assign obj h v !! k = obj !! k.
Proof.
  intros H. unfold assign. destruct (decide (h = PROTO)); [reflexivity|].
  now apply lookup_insert_ne.
Qed.

Lemma fillRecord_other hdrs : forall i values obj k,
  k ∉ hdrs -> fillRecord hdrs i values obj !! k = obj !! k.
Proof.
  induction hdrs as [|h hdrs IH]; intros i values obj k Hk; [reflexivity|].
  apply not_elem_of_cons in Hk as [Hne Hk]. simpl.
  rewrite IH by exact Hk. apply assign_lookup_ne. congruence.
Qed.

(** With distinct keys, each key holds the value at its own position,
    or the empty string when the row has none there. *)
Lemma fillRecord_lookup hdrs : forall i values obj j k,
  NoDup hdrs -> PROTO ∉ hdrs -> hdrs !! j = Some k ->
  fillRecord hdrs i values obj !! k = Some (default [] (values !! (i + j)%nat)).
Proof.
  induction hdrs as [|h hdrs IH]; intros i values obj j k Hnd Hp Hj;
    [discriminate|].
  apply NoDup_cons in Hnd as [Hh Hnd].
  apply not_elem_of_cons in Hp as [Hph Hp].
  destruct j as [|j]; simpl in Hj.
  - injection Hj as ->. simpl. rewrite fillRecord_other by exact Hh.
    rewrite Nat.add_0_r. apply assign_lookup_same. congruence.
  - simpl. rewrite (IH (S i) values _ j k Hnd Hp Hj).
    now replace (S i + j)%nat with (i + S j)%nat by lia.
Qed.

Lemma fillRecord_dom hdrs : forall i values obj,
  PROTO ∉ hdrs ->
  dom (fillRecord hdrs i values obj) = list_to_set hdrs ∪ dom obj.
Proof.
  induction hdrs as [|h hdrs IH]; intros i values obj Hp.
  - cbn [fillRecord]. now rewrite list_to_set_nil, (left_id_L ∅ (∪)).
  - apply not_elem_of_cons in Hp as [Hph Hp].
    cbn [fillRecord]. rewrite IH by exact Hp.
    unfold assign. rewrite decide_False by congruence.
    rewrite dom_insert_L, list_to_set_cons.
    rewrite (assoc_L (∪)). f_equal. apply (comm_L (∪)).
Qed.

Lemma someValueNonBlank_intro obj k v :
  obj !! k = Some v -> truthy (trim v) = true -> someValueNonBlank obj = true.
Proof.
  intros Hk Hv. unfold someValueNonBlank. apply existsb_exists.
  exists (k, v). split; [|exact Hv].
  apply list_elem_of_In, elem_of_map_to_list. exact Hk.
Qed.

Lemma forallb_false_In {A} (p : A -> bool) (l : list A) :
  forallb p l = false -> exists x, In x l /\ p x = false.
Proof.
  induction l as [|a l IH]; simpl; [discriminate|].
  destruct (p a) eqn:E; simpl.
  - intros H. destruct (IH H) as (x & Hx & Hp). eauto.
  - intros _. eauto.
Qed.

(** *** What is not blank shows in the line *)

Lemma existsb_unwrap s :
  existsb nonWhite (unwrap s) = true -> existsb nonWhite s = true.
Proof.
  intros H. apply existsb_exists in H as (c & Hin & Hc).
  apply existsb_exists. exists c. split; [|exact Hc].
  destruct s as [|d s]; [contradiction|]. simpl in Hin. right.
  rewrite removelast_firstn_len in Hin.
  apply list_elem_of_In. apply list_elem_of_In in Hin.
  apply elem_of_take in Hin as (i & Hi & _). eapply list_elem_of_lookup_2, Hi.
Qed.

Lemma nonblank_cleanValue s :
  isBlank (cleanValue s) = false -> existsb nonWhite s = true.
Proof.
  unfold isBlank. rewrite negb_false_iff, truthy_trim, cleanValue_spec.
  unfold cleanSpec. intros H.
  rewrite <- truthy_trim. rewrite truthy_trim in *.
  destruct (isWrapped (trim s)).
  - apply existsb_unwrap in H. now rewrite <- truthy_trim, trim_idem, truthy_trim in H.
  - now rewrite <- truthy_trim, trim_idem, truthy_trim in H.
Qed.

Lemma In_escape c s : In c s -> In c (escape s).
Proof.
  induction s as [|d s IH]; simpl; [tauto|].
  intros [-> | H].
  - destruct (c =? QUOTE) eqn:E; [|now left].
    apply N.eqb_eq in E. subst c. now left.
  - destruct (d =? QUOTE); simpl; auto.
Qed.

Lemma In_renderField c f : In c (content f) -> In c (renderField f).
Proof.
  destruct f as [s|s]; simpl; [tauto|]. intros H. right.
  apply in_or_app. left. now apply In_escape.
Qed.

Lemma In_renderRow c f fs :
  In f fs -> In c (renderField f) -> In c (renderRow fs).
Proof.
  induction fs as [|g fs IH]; [contradiction|].
  intros Hf Hc. destruct fs as [|g' fs].
  - destruct Hf as [-> | []]. exact Hc.
  - change (renderRow (g :: g' :: fs))
      with (renderField g ++ COMMA :: renderRow (g' :: fs)).
    apply in_or_app. destruct Hf as [-> | Hf]; [now left|].
    right. right. now apply IH.
Qed.

Lemma blankUnder_line n fs :
  blankUnder n fs = false -> truthy (trim (renderRow fs)) = true.
Proof.
  intros Hb. unfold blankUnder in Hb.
  apply forallb_false_In in Hb as (v & Hin & Hv).
  apply list_elem_of_In, elem_of_take in Hin as (j & Hj & _).
  unfold cleaned in Hj. rewrite list_lookup_fmap in Hj.
  destruct (fs !! j) as [f|] eqn:Hf; [|discriminate].
  simpl in Hj. injection Hj as <-.
  apply nonblank_cleanValue, existsb_exists in Hv as (c & Hc & Hnw).
  rewrite truthy_trim. apply existsb_exists. exists c. split; [|exact Hnw].
  apply (In_renderRow c f).
  - apply list_elem_of_In. eapply list_elem_of_lookup_2, Hf.
  - now apply In_renderField.
Qed.

(** *** The parse of a rendered document *)

Lemma goodRow_nonempty r : goodRow r -> r.2 <> [].
Proof. intros [_ H] E. rewrite E in H. discriminate. Qed.

Lemma buildRecord_render hdrs r :
  goodRow r ->
  buildRecord hdrs (lineOf r) = fillRecord hdrs 0 (cleaned r.2) ∅.
Proof.
  intros Hr. unfold buildRecord, lineOf.
  rewrite parseRow_render; [reflexivity | now apply goodRow_nonempty | apply Hr].
Qed.

End RecordFacts.

Section RenderedDocuments.

Import Parser Csv.

Variable toLowerCase : jsstring -> jsstring.

(** A row that is not blank under the header gives a record that the
    filter keeps. *)
Lemma recordOf_kept header r :
  NoDup (keysOf toLowerCase header) -> PROTO ∉ keysOf toLowerCase header ->
  blankUnder (length header) r.2 = false ->
  someValueNonBlank (recordOf toLowerCase header r) = true.
Proof.
  intros Hnd Hp Hb. unfold blankUnder in Hb.
  apply forallb_false_In in Hb as (v & Hin & Hv).
  apply list_elem_of_In, elem_of_take in Hin as (j & Hj & Hlt).
  assert (Hk : exists k, keysOf toLowerCase header !! j = Some k).
  { apply lookup_lt_is_Some. unfold keysOf, cleaned. now rewrite !length_map. }
  destruct Hk as [k Hk].
  apply (someValueNonBlank_intro _ k v).
  - unfold recordOf. rewrite (fillRecord_lookup _ 0 _ _ j k Hnd Hp Hk).
    simpl. now rewrite Hj.
  - unfold isBlank in Hv. now apply negb_false_iff in Hv.
Qed.

Theorem parseCSV_render header rows :
  goodRow (NL_LF, header) -> Forall goodRow rows ->
  parseCSV toLowerCase (VString (render header rows)) =
  filter (fun obj => someValueNonBlank obj = true)
    (map (recordOf toLowerCase header) rows).
Proof.
  intros Hh Hrows. unfold parseCSV.
  assert (Ht : truthy (render header rows) = true).
  { unfold render. rewrite truthy_app.
    destruct Hh as [_ Hnb]. simpl in Hnb.
    destruct (renderRow header); [discriminate | reflexivity]. }
  rewrite Ht. simpl negb. cbv iota. unfold parseCSV_body.
  rewrite splitRows_render by assumption.
  destruct (decide (rows = [])) as [-> | Hne]; [reflexivity|].
  assert (Hlen : (length (renderRow header :: map lineOf rows) <? 2)%nat = false).
  { destruct rows; [congruence | reflexivity]. }
  rewrite Hlen. cbn [tryCatch head tail from_option]. unfold id.
  rewrite parseRow_render;
    [| now apply (goodRow_nonempty (NL_LF, header)) | apply Hh].
  f_equal. rewrite map_map. apply map_ext_Forall.
  eapply Forall_impl; [exact Hrows|]. intros r' Hr'.
  now apply buildRecord_render.
Qed.

End RenderedDocuments.

(** ** The parser on well-formed documents *)

Section ParserClaims.

Import Parser Csv Reference.

Variable toLowerCase : jsstring -> jsstring.

Lemma filter_all {A} (P : A -> Prop) `{!forall x, Decision (P x)} (l : list A) :
  Forall P l -> filter P l = l.
Proof.
  induction 1 as [|x l Hx _ IH]; [reflexivity|].
  rewrite filter_cons_True by exact Hx. now rewrite IH.
Qed.

(** When the header and the rows are well-formed, the header line is not
    blank, the keys are distinct and none is [__proto__], and every row
    has a value that is not blank in a column that has a header, every
    data row gives its record. *)
Lemma parseCSV_wellformed header rows :
  wfRow header = true -> truthy (trim (renderRow header)) = true ->
  Forall (fun r => wfRow r.2 = true) rows ->
  NoDup (keysOf toLowerCase header) -> PROTO ∉ keysOf toLowerCase header ->
  Forall (fun r => blankUnder (length header) r.2 = false) rows ->
  parseCSV toLowerCase (VString (render header rows)) =
  map (recordOf toLowerCase header) rows.
Proof.
  intros Hwf Hnb Hrows Hnd Hp Hb.
  rewrite parseCSV_render.
  - apply filter_all, Forall_forall.
    intros rec Hrec. apply list_elem_of_fmap in Hrec as (r & -> & Hr).
    apply recordOf_kept; [assumption..|].
    rewrite Forall_forall in Hb. now apply Hb.
  - split; assumption.
  - rewrite Forall_forall in *. intros r Hr. split; [now apply Hrows|].
    apply (blankUnder_line (length header)). now apply Hb.
Qed.

Lemma recordOf_lookup header r j k :
  NoDup (keysOf toLowerCase header) -> PROTO ∉ keysOf toLowerCase header ->
  keysOf toLowerCase header !! j = Some k ->
  recordOf toLowerCase header r !! k = Some (default [] (cleaned r.2 !! j)).
Proof.
  intros Hnd Hp Hk. unfold recordOf.
  now rewrite (fillRecord_lookup _ 0 _ _ j k Hnd Hp Hk).
Qed.

(** C6, as amended.  For every well-formed document whose header names,
    cleaned and lower-cased, are distinct and are not [__proto__], and
    whose N data rows each have a value that is not blank among the
    values under the headers, [parseCSV] returns exactly N records, in
    the order of the rows; each record has exactly the header keys, a
    key holding the cleaned value at its position in the row, or the
    empty string where the row is shorter; the values beyond the header
    count are dropped. *)
Theorem C6_records_of_wellformed header rows :
  wfRow header = true -> truthy (trim (renderRow header)) = true ->
  Forall (fun r => wfRow r.2 = true) rows ->
  NoDup (keysOf toLowerCase header) -> PROTO ∉ keysOf toLowerCase header ->
  Forall (fun r => blankUnder (length header) r.2 = false) rows ->
  let out := parseCSV toLowerCase (VString (render header rows)) in
  length out = length rows /\
  forall i r, rows !! i = Some r ->
    exists rec, out !! i = Some rec /\
      dom rec = list_to_set (keysOf toLowerCase header) /\
      forall j k, keysOf toLowerCase header !! j = Some k ->
        rec !! k = Some (default [] (cleaned r.2 !! j)).
Proof.
  intros Hwf Hnb Hrows Hnd Hp Hb out. subst out.
  rewrite parseCSV_wellformed by assumption. split.
  - apply length_map.
  - intros i r Hi. exists (recordOf toLowerCase header r). split; [|split].
    + change (map ?f ?l) with (f <$> l). now rewrite list_lookup_fmap, Hi.
    + unfold recordOf. rewrite fillRecord_dom by exact Hp.
      now rewrite dom_empty_L, (right_id_L ∅ (∪)).
    + intros j k Hk. now apply recordOf_lookup.
Qed.

(** C2, as amended.  A value embedded as a properly quoted field of a
    well-formed document (distinct header names, no row blank under the
    headers) is stored under the header of its column as [cleanValue]
    leaves it: trimmed, and without one pair of surrounding quotes.  It
    is exactly the literal text, commas, line breaks and quotes
    included, when the text has no white space at its ends and is not
    wrapped in double quotes. *)
Theorem C2_quoted_field_value header rows i nl fs j v k :
  wfRow header = true -> truthy (trim (renderRow header)) = true ->
  Forall (fun r => wfRow r.2 = true) rows ->
  NoDup (keysOf toLowerCase header) -> PROTO ∉ keysOf toLowerCase header ->
  Forall (fun r => blankUnder (length header) r.2 = false) rows ->
  rows !! i = Some (nl, fs) -> fs !! j = Some (Quoted v) ->
  keysOf toLowerCase header !! j = Some k ->
  exists rec,
    parseCSV toLowerCase (VString (render header rows)) !! i = Some rec /\
    rec !! k = Some (cleanValue v) /\
    (trim v = v -> isWrapped v = false -> rec !! k = Some v).
Proof.
  intros Hwf Hnb Hrows Hnd Hp Hb Hi Hj Hk.
  rewrite parseCSV_wellformed by assumption.
  exists (recordOf toLowerCase header (nl, fs)).
  assert (Hv : recordOf toLowerCase header (nl, fs) !! k = Some (cleanValue v)).
  { rewrite (recordOf_lookup header (nl, fs) j k Hnd Hp Hk).
    unfold cleaned. simpl. now rewrite list_lookup_fmap, Hj. }
  split; [|split].
  - change (map ?f ?l) with (f <$> l). now rewrite list_lookup_fmap, Hi.
  - exact Hv.
  - intros Ht Hw. now rewrite Hv, cleanValue_id.
Qed.

(** C7.  [parseCSV] returns the empty list, and so returns, on a value
    that is not a string, on the empty string, on a text with fewer than
    two retained rows, and whenever its [try] block throws. *)
Theorem C7_degrades_to_empty (csv : value) :
  (forall s, csv <> VString s) \/
  csv = VString [] \/
  (exists s, csv = VString s /\ (length (splitRows s) < 2)%nat) \/
  (exists s e, csv = VString s /\ parseCSV_body toLowerCase s = Throw e) ->
  parseCSV toLowerCase csv = [].
Proof.
  intros [H | [-> | [(s & -> & H) | (s & e & -> & H)]]].
  - destruct csv; try reflexivity. now destruct (H s).
  - reflexivity.
  - simpl. destruct (truthy s); [|reflexivity]. simpl.
    unfold parseCSV_body. apply Nat.ltb_lt in H. now rewrite H.
  - simpl. destruct (truthy s); [|reflexivity]. simpl. now rewrite H.
Qed.

(** The [try] block of [parseCSV] does not throw. *)
Lemma parseCSV_body_normal s :
  exists records, parseCSV_body toLowerCase s = Normal records.
Proof. unfold parseCSV_body. destruct (_ <? 2)%nat; eauto. Qed.

(** C9, as amended.  Every value [parseRow] gives is the decoded text of
    its field after [cleanValue]: the text trimmed, and its first and
    last character removed when the trimmed text starts and ends with a
    double quote.  A value whose trimmed text is not so wrapped has no
    white space left at its ends; of a wrapped text, what is between the
    two quotes is kept as it is. *)
Theorem C9_values_are_cleaned row :
  parseRow row = map cleanValue (fieldTexts row) /\
  forall text,
    cleanValue text = cleanSpec text /\
    (isWrapped (trim text) = false ->
     cleanValue text = trim text /\ trim (cleanValue text) = cleanValue text) /\
    (isWrapped (trim text) = true -> cleanValue text = unwrap (trim text)).
Proof.
  split; [apply parseRow_texts|]. intros text.
  split; [apply cleanValue_spec|]. rewrite cleanValue_spec. unfold cleanSpec.
  split; intros ->; [|reflexivity]. split; [reflexivity | apply trim_idem].
Qed.

End ParserClaims.

Section ParserExamples.

Import Parser Csv Reference Samples.

(** The document of the second claim: a header [k] and one quoted value. *)
Example parse_quoted_value :
  parseCSV asciiLower
    (VString (str "k,n" ++ [LF] ++ quoteField sampleValue ++ str ",2"))
  = [ {[ str "k" := sampleValue; str "n" := str "2" ]} ].
Proof. vm_compute. reflexivity. Qed.

(** The claim C2 fails: a value that ends with its line break comes back
    without it. *)
Lemma C2_counterexample :
  let v := lit "He said 'hi'," ++ [LF] in
  let csv := str "k" ++ [LF] ++ quoteField v in
  In COMMA v /\ In LF v /\ In QUOTE v /\
  exists rec,
    parseCSV asciiLower (VString csv) = [rec] /\
    rec !! str "k" = Some (lit "He said 'hi',") /\
    rec !! str "k" <> Some v.
Proof.
  cbv zeta. split; [|split; [|split]].
  - vm_compute. tauto.
  - vm_compute. tauto.
  - vm_compute. tauto.
  - exists {[ str "k" := lit "He said 'hi'," ]}. split; [|split].
    + vm_compute. reflexivity.
    + vm_compute. reflexivity.
    + vm_compute. discriminate.
Qed.

(** The claim C6 fails: a row that is not blank gives no record when
    its values that are not blank are all beyond the header count, and
    when a header name comes twice and the later column is empty. *)
Lemma C6_counterexample :
  let header := [Plain (str "a")] in
  let rows := [(NL_LF, [Plain []; Plain (str "x")])] in
  let header' := [Plain (str "a"); Plain (str "a")] in
  let rows' := [(NL_LF, [Plain (str "x"); Plain []])] in
  (wfRow header = true /\
   Forall (fun r => wfRow r.2 = true /\ fullyBlank r.2 = false) rows /\
   render header rows = str "a" ++ [LF] ++ str ",x" /\
   length (parseCSV asciiLower (VString (render header rows))) <> length rows)
  /\
  (wfRow header' = true /\
   Forall (fun r => wfRow r.2 = true /\ fullyBlank r.2 = false) rows' /\
   render header' rows' = str "a,a" ++ [LF] ++ str "x," /\
   length (parseCSV asciiLower (VString (render header' rows'))) <> length rows').
Proof.
  cbv zeta. split.
  - split; [reflexivity|]. split; [|split].
    + repeat constructor.
    + reflexivity.
    + vm_compute. discriminate.
  - split; [reflexivity|]. split; [|split].
    + repeat constructor.
    + reflexivity.
    + vm_compute. discriminate.
Qed.

(** The claim C9 fails: white space, and a pair of quotes, inside a
    pair of quotes stay in the value. *)
Lemma C9_counterexample :
  parseCSV asciiLower (VString (str "k" ++ [LF] ++ quoteField (lit "' a '")))
    = [ {[ str "k" := str " a " ]} ] /\
  trim (str " a ") <> str " a " /\
  parseCSV asciiLower (VString (str "k" ++ [LF] ++ quoteField (lit "''a''")))
    = [ {[ str "k" := lit "'a'" ]} ] /\
  isWrapped (lit "'a'") = true.
Proof.
  split; [|split; [|split]].
  - vm_compute. reflexivity.
  - vm_compute. discriminate.
  - vm_compute. reflexivity.
  - reflexivity.
Qed.

End ParserExamples.

(** ** The cache *)

Section CacheClaims.

Import Cache.

Variable JSON_stringify : jsstring -> Z -> jsstring.
Variable JSON_parse : jsstring -> completion jserror parsedEntry.
Variable quotaExceeded : gmap jsstring jsstring -> jsstring -> jsstring -> bool.

Lemma isLatin1_false url c : c ∈ url -> 255 < c -> isLatin1 url = false.
Proof.
  intros Hin Hc. unfold isLatin1.
  destruct (forallb _ url) eqn:E; [|reflexivity].
  rewrite forallb_forall in E. apply list_elem_of_In, E in Hin.
  apply N.leb_le in Hin. lia.
Qed.

Lemma getCacheKey_throws url c :
  c ∈ url -> 255 < c -> exists e, getCacheKey url = Throw e.
Proof.
  intros Hin Hc. unfold getCacheKey, btoa.
  rewrite (isLatin1_false url c Hin Hc). eexists. reflexivity.
Qed.

(** The read of a key that holds an entry. *)
Lemma getCachedData_entry url now ls key cached d ts :
  getCacheKey url = Normal key -> ls !! key = Some cached ->
  truthy cached = true ->
  JSON_parse cached = Normal {| data := d; timestamp := ts |} ->
  getCachedData JSON_parse url now ls =
  if isFresh now ts then (d, ls) else (VNull, delete key ls).
Proof.
  intros Hk Hc Ht Hp. unfold getCachedData. rewrite Hk. simpl.
  rewrite Hc, Ht. simpl. rewrite Hp. simpl.
  destruct (isFresh now ts); reflexivity.
Qed.

Lemma getCachedData_absent url now ls key :
  getCacheKey url = Normal key -> ls !! key = None ->
  getCachedData JSON_parse url now ls = (VNull, ls).
Proof.
  intros Hk Hc. unfold getCachedData. rewrite Hk. simpl. now rewrite Hc.
Qed.

Lemma setCachedData_stored url d now ls key :
  getCacheKey url = Normal key ->
  quotaExceeded ls key (JSON_stringify d now) = false ->
  setCachedData JSON_stringify quotaExceeded url d now ls =
  <[key := JSON_stringify d now]> ls.
Proof.
  intros Hk Hq. unfold setCachedData, setItem. rewrite Hk. simpl.
  now rewrite Hq.
Qed.

(** C4.  An entry written at time [T] is returned by every read at a
    time [t] with [t - T < 3600000]; a read with [t - T >= 3600000]
    returns null and leaves the storage without the entry.  The entry is
    read at [T + 3599999] and is absent at [T + 3600000]. *)
Theorem C4_cache_ttl url d T ls key :
  getCacheKey url = Normal key ->
  quotaExceeded ls key (JSON_stringify d T) = false ->
  truthy (JSON_stringify d T) = true ->
  JSON_parse (JSON_stringify d T)
    = Normal {| data := VString d; timestamp := Some T |} ->
  let ls' := setCachedData JSON_stringify quotaExceeded url d T ls in
  (forall t, (t - T < 3600000)%Z ->
     getCachedData JSON_parse url t ls' = (VString d, ls')) /\
  (forall t, (t - T >= 3600000)%Z ->
     getCachedData JSON_parse url t ls' = (VNull, delete key ls')
     /\ delete key ls' !! key = None
     /\ forall t', getCachedData JSON_parse url t' (delete key ls')
                   = (VNull, delete key ls')) /\
  getCachedData JSON_parse url (T + 3599999) ls' = (VString d, ls') /\
  getCachedData JSON_parse url (T + 3600000) ls' = (VNull, delete key ls').
Proof.
  intros Hk Hq Ht Hp ls'.
  assert (Hls : ls' = <[key := JSON_stringify d T]> ls)
    by now apply setCachedData_stored.
  assert (Hread : forall t, getCachedData JSON_parse url t ls' =
            if (t - T <? CACHE_DURATION)%Z then (VString d, ls')
            else (VNull, delete key ls')).
  { intros t.
    rewrite (getCachedData_entry url t ls' key (JSON_stringify d T)
               (VString d) (Some T)); try assumption; [reflexivity|].
    rewrite Hls. apply lookup_insert_eq. }
  change CACHE_DURATION with 3600000%Z in Hread.
  split; [|split; [|split]].
  - intros t H. rewrite Hread. apply Z.ltb_lt in H. now rewrite H.
  - intros t H. rewrite Hread.
    assert (E : (t - T <? 3600000)%Z = false) by (apply Z.ltb_ge; lia).
    rewrite E. split; [reflexivity|]. split; [apply lookup_delete_eq|].
    intros t'. apply (getCachedData_absent url t' _ key Hk).
    apply lookup_delete_eq.
  - rewrite Hread.
    replace (T + 3599999 - T <? 3600000)%Z with true; [reflexivity|].
    symmetry. apply Z.ltb_lt. lia.
  - rewrite Hread.
    replace (T + 3600000 - T <? 3600000)%Z with false; [reflexivity|].
    symmetry. apply Z.ltb_ge. lia.
Qed.

(** C10.  For a URL with a code unit above 255, which [btoa] refuses,
    the read returns null and the write does nothing: both return, and
    the storage is as it was. *)
Theorem C10_cache_disabled_outside_latin1 url c :
  c ∈ url -> 255 < c ->
  (forall now ls, getCachedData JSON_parse url now ls = (VNull, ls)) /\
  (forall d now ls,
      setCachedData JSON_stringify quotaExceeded url d now ls = ls).
Proof.
  intros Hin Hc. destruct (getCacheKey_throws url c Hin Hc) as [e He].
  split.
  - intros now0 ls. unfold getCachedData. now rewrite He.
  - intros d now0 ls. unfold setCachedData. now rewrite He.
Qed.

End CacheClaims.

(** ** The retries *)

Section FetcherClaims.

Import Fetcher.

Variable net : network.

Lemma attemptOnce_fails url w e :
  failureOf (net (calls w) url) = Some e ->
  attemptOnce net url w =
  (Throw e, {| calls := S (calls w); trace := trace w ++ [Fetch url] |}).
Proof.
  unfold failureOf, attemptOnce, bind, fetch. intros H.
  destruct (net (calls w) url) as [r|e'].
  - destruct (negb (ok r)).
    + injection H as <-. reflexivity.
    + unfold lift. destruct (text r); [discriminate|]. now injection H as <-.
  - now injection H as <-.
Qed.

(** When every attempt fails, the loop makes a fetch for each iteration
    it has left, sleeps before each attempt but the first and not after
    the last, and throws the failure of the last attempt. *)
Lemma retryLoop_all_fail url maxRetries (errs : nat -> jserror) fuel :
  forall attempt lastError w,
    (Z.of_nat fuel = maxRetries - attempt)%Z -> (0 <= attempt)%Z ->
    (forall k, (k < fuel)%nat ->
       failureOf (net (calls w + k)%nat url) = Some (errs (calls w + k)%nat)) ->
    retryLoop net fuel url maxRetries attempt lastError w =
    (Throw (match fuel with
            | O => lastError
            | S n => Some (errs (calls w + n)%nat)
            end),
     {| calls := (calls w + fuel)%nat;
        trace := trace w ++ failingTrace fuel url maxRetries attempt |}).
Proof.
  induction fuel as [|fuel IH]; intros attempt lastError w Hfuel Hat Hfail.
  - simpl. unfold throw. rewrite Nat.add_0_r, app_nil_r. now destruct w.
  - cbn [retryLoop failingTrace]. unfold bind at 1, try.
    rewrite (attemptOnce_fails url w (errs (calls w))).
    2:{ specialize (Hfail 0%nat). rewrite Nat.add_0_r in Hfail.
        apply Hfail. lia. }
    replace (attempt <? maxRetries - 1)%Z with (attempt + 1 <? maxRetries)%Z
      by (destruct (Z.ltb_spec (attempt + 1) maxRetries),
                   (Z.ltb_spec attempt (maxRetries - 1)); lia || reflexivity).
    unfold delayBefore. replace (attempt + 1 - 1)%Z with attempt by lia.
    destruct (attempt + 1 <? maxRetries)%Z; unfold bind, sleep, ret;
      cbn [calls trace].
    + rewrite IH; cbn [calls trace]; [| lia | lia |].
      * f_equal; [|f_equal; [lia | now rewrite <- !app_assoc]].
        destruct fuel; [now rewrite Nat.add_0_r|].
        do 2 f_equal. f_equal. lia.
      * intros k Hk. replace (S (calls w) + k)%nat with (calls w + S k)%nat by lia.
        apply Hfail. lia.
    + rewrite IH; cbn [calls trace]; [| lia | lia |].
      * f_equal; [|f_equal; [lia | now rewrite <- !app_assoc]].
        destruct fuel; [now rewrite Nat.add_0_r|].
        do 2 f_equal. f_equal. lia.
      * intros k Hk. replace (S (calls w) + k)%nat with (calls w + S k)%nat by lia.
        apply Hfail. lia.
Qed.

(** C3.  With three attempts allowed and all three failing,
    [fetchWithRetry] fetches three times, waits 1000 ms before the
    second attempt and 2000 ms before the third, that is
    [2^(k-1) * 1000] before attempt [k], waits neither before the first
    attempt nor after the last, and throws the failure of the last
    attempt. *)
Theorem C3_three_attempts_backoff url w e0 e1 e2 :
  failureOf (net (calls w) url) = Some e0 ->
  failureOf (net (calls w + 1)%nat url) = Some e1 ->
  failureOf (net (calls w + 2)%nat url) = Some e2 ->
  fetchWithRetry net url 3 w =
  (Throw (Some e2),
   {| calls := (calls w + 3)%nat;
      trace := trace w ++ [Fetch url; Sleep 1000; Fetch url; Sleep 2000;
                           Fetch url] |})
  /\ delayBefore 1 = 1000%Z /\ delayBefore 2 = 2000%Z.
Proof.
  intros H0 H1 H2. split; [|split; reflexivity].
  unfold fetchWithRetry.
  pose (errs := fun n : nat =>
          if (n =? calls w)%nat then e0
          else if (n =? calls w + 1)%nat then e1 else e2).
  rewrite (retryLoop_all_fail url 3 errs (Z.to_nat 3) 0 None w); try lia.
  - change (Z.to_nat 3) with 3%nat. cbn [failingTrace].
    f_equal. f_equal. unfold errs.
    replace (calls w + 2 =? calls w)%nat with false by (symmetry; apply Nat.eqb_neq; lia).
    replace (calls w + 2 =? calls w + 1)%nat with false by (symmetry; apply Nat.eqb_neq; lia).
    reflexivity.
  - change (Z.to_nat 3) with 3%nat. intros k Hk. unfold errs.
    destruct k as [|[|[|k]]]; [| | |lia].
    + rewrite Nat.add_0_r, Nat.eqb_refl. exact H0.
    + replace (calls w + 1 =? calls w)%nat with false by (symmetry; apply Nat.eqb_neq; lia).
      rewrite Nat.eqb_refl. exact H1.
    + replace (calls w + 2 =? calls w)%nat with false by (symmetry; apply Nat.eqb_neq; lia).
      replace (calls w + 2 =? calls w + 1)%nat with false by (symmetry; apply Nat.eqb_neq; lia).
      exact H2.
Qed.

End FetcherClaims.

(** ** The hook *)

Section FilterClaims.

Import Parser Controller.




End FilterClaims.

Section ControllerClaims.

Import Parser Controller.

Variable toLowerCase : jsstring -> jsstring.
Variable JSON_stringify : jsstring -> Z -> jsstring.
Variable JSON_parse : jsstring -> completion jserror Cache.parsedEntry.
Variable quotaExceeded : gmap jsstring jsstring -> jsstring -> jsstring -> bool.

Local Abbreviation parse := (parse toLowerCase).
Local Abbreviation step := (step toLowerCase JSON_stringify JSON_parse quotaExceeded).
Local Abbreviation run := (run toLowerCase JSON_stringify JSON_parse quotaExceeded).
Local Abbreviation runEffect := (runEffect toLowerCase JSON_parse).
Local Abbreviation onFulfilled := (onFulfilled toLowerCase JSON_stringify quotaExceeded).

(** *** The effect and the callbacks *)

Lemma runEffect_spawns url g now s :
  truthy url = true ->
  exists br h ls,
    runEffect url g now s =
    spawn {| req_url := url; req_gameType := g; req_branch := br |} s h ls
    /\ retryTrigger h = retryTrigger (hook s).
Proof.
  intros Hu. unfold Controller.runEffect. rewrite Hu. simpl negb. cbv iota.
  destruct (Cache.getCachedData JSON_parse url now (localStorage s)) as [cached ls].
  destruct (toBoolean cached); eexists _, _, _; split; reflexivity.
Qed.

Lemma render_spawns url g now s :
  truthy url = true ->
  lastDeps s <> Some (url, g, retryTrigger (hook s)) ->
  exists br,
    inflight (step s (Render url g now)) =
      <[nextRequest s :=
          {| req_url := url; req_gameType := g; req_branch := br |}]> (inflight s)
    /\ nextRequest (step s (Render url g now)) = S (nextRequest s)
    /\ lastDeps (step s (Render url g now)) = Some (url, g, retryTrigger (hook s))
    /\ retryTrigger (hook (step s (Render url g now))) = retryTrigger (hook s).
Proof.
  intros Hu Hd. cbn [Controller.step]. rewrite decide_False by exact Hd.
  destruct (runEffect_spawns url g now s Hu) as (br & h & ls & -> & Hrt).
  exists br. cbn. auto.
Qed.

(** A fulfilled promise stores the records of its own text, filtered by
    its own game type, whatever the hook is showing by then. *)
Lemma settle_fulfilled s id r csv now :
  inflight s !! id = Some r ->
  data (hook (step s (Settle id (Normal csv) now))) =
  filterByGameType (req_gameType r) (parse (VString csv)).
Proof.
  intros Hr. cbn [Controller.step]. rewrite Hr.
  unfold Controller.onFulfilled. destruct (req_branch r); reflexivity.
Qed.

Lemma settle_inflight s id out now id' :
  id <> id' ->
  inflight (step s (Settle id out now)) !! id' = inflight s !! id'.
Proof.
  intros Hne. cbn [Controller.step].
  destruct (inflight s !! id) as [r|] eqn:Hr; [|reflexivity].
  destruct out as [csv|err].
  - destruct (Controller.onFulfilled _ _ _ _ _ _ _ _). cbn.
    now apply lookup_delete_ne.
  - cbn. now apply lookup_delete_ne.
Qed.

(** C1, as amended.  When a load is started for a URL and game type A
    and then, before its fetch settles, for another pair B, the records
    of the final state are those of the fetch that settles last: B's
    when A's fetch settles before B's, and A's when A's fetch is
    fulfilled after B's has settled; a late result is stored, not
    dropped. *)
Theorem C1_last_settled_wins s A gA B gB t0 t1 :
  truthy A = true -> truthy B = true -> (A, gA) <> (B, gB) ->
  lastDeps s <> Some (A, gA, retryTrigger (hook s)) ->
  let s2 := run s [Render A gA t0; Render B gB t1] in
  let idA := nextRequest s in
  let idB := S (nextRequest s) in
  (forall outA csvB t2 t3,
      data (hook (run s2 [Settle idA outA t2; Settle idB (Normal csvB) t3]))
      = filterByGameType gB (parse (VString csvB))) /\
  (forall outB csvA t2 t3,
      data (hook (run s2 [Settle idB outB t2; Settle idA (Normal csvA) t3]))
      = filterByGameType gA (parse (VString csvA))).
Proof.
  intros HA HB Hne Hd s2 idA idB. subst s2. cbn [Controller.run fold_left].
  destruct (render_spawns A gA t0 s HA Hd) as (brA & HinA & HnA & HdA & HrA).
  set (s1 := step s (Render A gA t0)) in *.
  assert (Hd1 : lastDeps s1 <> Some (B, gB, retryTrigger (hook s1))).
  { rewrite HdA, HrA. intros [= -> ->]. now apply Hne. }
  destruct (render_spawns B gB t1 s1 HB Hd1) as (brB & HinB & HnB & _ & _).
  set (s2 := step s1 (Render B gB t1)) in *.
  assert (HA2 : inflight s2 !! idA =
            Some {| req_url := A; req_gameType := gA; req_branch := brA |}).
  { rewrite HinB, HnA, lookup_insert_ne by (subst idA; lia).
    rewrite HinA. apply lookup_insert_eq. }
  assert (HB2 : inflight s2 !! idB =
            Some {| req_url := B; req_gameType := gB; req_branch := brB |}).
  { rewrite HinB, HnA. apply lookup_insert_eq. }
  split.
  - intros outA csvB t2 t3.
    rewrite (settle_fulfilled _ idB
               {| req_url := B; req_gameType := gB; req_branch := brB |});
      [reflexivity|].
    rewrite settle_inflight by (subst idA idB; lia). exact HB2.
  - intros outB csvA t2 t3.
    rewrite (settle_fulfilled _ idA
               {| req_url := A; req_gameType := gA; req_branch := brA |});
      [reflexivity|].
    rewrite settle_inflight by (subst idA idB; lia). exact HA2.
Qed.

(** An entry with an empty text is no hit for the effect, which tests
    [if (cached)]: it goes on as if there were no entry. *)
Lemma empty_text_is_a_miss s url g now key cached T :
  truthy url = true ->
  lastDeps s <> Some (url, g, retryTrigger (hook s)) ->
  Cache.getCacheKey url = Normal key ->
  localStorage s !! key = Some cached -> truthy cached = true ->
  JSON_parse cached
    = Normal {| Cache.data := VString []; Cache.timestamp := Some T |} ->
  (now - T < Cache.CACHE_DURATION)%Z ->
  let s1 := step s (Render url g now) in
  loading (hook s1) = true /\ fromCache (hook s1) = false /\
  data (hook s1) = data (hook s) /\
  inflight s1 !! nextRequest s =
    Some {| req_url := url; req_gameType := g; req_branch := Foreground |}.
Proof.
  intros Hu Hd Hk Hc Htc Hp Hfresh s1. subst s1.
  cbn [Controller.step]. rewrite decide_False by exact Hd.
  unfold Controller.runEffect. rewrite Hu. simpl negb. cbv iota.
  rewrite (getCachedData_entry JSON_parse url now _ key cached
             (VString []) (Some T)) by assumption.
  unfold Cache.isFresh. apply Z.ltb_lt in Hfresh. rewrite Hfresh.
  cbn. repeat split. apply lookup_insert_eq.
Qed.

(** The cache-hit branch.  When the storage holds, under the key of the
    URL, an entry with a non-empty text that has not expired, the effect
    at once sets the records parsed from that text and filtered,
    [fromCache] to true and [loading] to false, with the background fetch
    still in flight; the error is not touched.  When that fetch is
    fulfilled, the new text is written to the cache, the records are
    those parsed from it and filtered, and [fromCache] is false; when it
    is rejected, the state and the storage stay as they are. *)
Lemma cache_hit_then_revalidate s url g now key cached text T :
  truthy url = true ->
  lastDeps s <> Some (url, g, retryTrigger (hook s)) ->
  Cache.getCacheKey url = Normal key ->
  localStorage s !! key = Some cached -> truthy cached = true ->
  JSON_parse cached
    = Normal {| Cache.data := VString text; Cache.timestamp := Some T |} ->
  truthy text = true -> (now - T < Cache.CACHE_DURATION)%Z ->
  let s1 := step s (Render url g now) in
  let id := nextRequest s in
  (hook s1 =
     setLoading false
       (setFromCache true
          (setData (filterByGameType g (parse (VString text))) (hook s)))
   /\ data (hook s1) = filterByGameType g (parse (VString text))
   /\ fromCache (hook s1) = true /\ loading (hook s1) = false
   /\ localStorage s1 = localStorage s
   /\ inflight s1 !! id =
        Some {| req_url := url; req_gameType := g; req_branch := Background |})
  /\ (forall csv now',
        let s2 := step s1 (Settle id (Normal csv) now') in
        localStorage s2 =
          Cache.setCachedData JSON_stringify quotaExceeded url csv now'
            (localStorage s1)
        /\ data (hook s2) = filterByGameType g (parse (VString csv))
        /\ fromCache (hook s2) = false /\ loading (hook s2) = false
        /\ error (hook s2) = error (hook s1))
  /\ (forall err now',
        let s2 := step s1 (Settle id (Throw err) now') in
        hook s2 = hook s1 /\ localStorage s2 = localStorage s1).
Proof.
  intros Hu Hd Hk Hc Htc Hp Ht Hfresh s1 id.
  assert (Hget : Cache.getCachedData JSON_parse url now (localStorage s)
                 = (VString text, localStorage s)).
  { rewrite (getCachedData_entry JSON_parse url now _ key cached
               (VString text) (Some T)) by assumption.
    unfold Cache.isFresh. apply Z.ltb_lt in Hfresh. now rewrite Hfresh. }
  assert (Hs1 : s1 =
    {| hook := setLoading false (setFromCache true
                 (setData (filterByGameType g (parse (VString text))) (hook s)));
       localStorage := localStorage s;
       inflight := <[id := {| req_url := url; req_gameType := g;
                              req_branch := Background |}]> (inflight s);
       nextRequest := S (nextRequest s);
       lastDeps := Some (url, g, retryTrigger (hook s)) |}).
  { subst s1. cbn [Controller.step]. rewrite decide_False by exact Hd.
    unfold Controller.runEffect. rewrite Hu. simpl negb. cbv iota.
    rewrite Hget. cbn [toBoolean]. rewrite Ht. reflexivity. }
  clearbody s1.
  assert (Hin : inflight s1 !! id =
            Some {| req_url := url; req_gameType := g; req_branch := Background |}).
  { rewrite Hs1. cbn [inflight]. apply lookup_insert_eq. }
  split; [|split].
  - rewrite Hin, Hs1. cbn. repeat split.
  - intros csv now' s2. subst s2. cbn [Controller.step]. rewrite Hin.
    unfold Controller.onFulfilled. cbn. rewrite Hs1. cbn. repeat split.
  - intros err now' s2. subst s2. cbn [Controller.step]. rewrite Hin.
    cbn. split; reflexivity.
Qed.

(** The branch without cache clears the error. *)
Lemma cache_miss_clears_error s url g now :
  truthy url = true ->
  lastDeps s <> Some (url, g, retryTrigger (hook s)) ->
  toBoolean (Cache.getCachedData JSON_parse url now (localStorage s)).1 = false ->
  error (hook (step s (Render url g now))) = None.
Proof.
  intros Hu Hd Hmiss. cbn [Controller.step]. rewrite decide_False by exact Hd.
  unfold Controller.runEffect. rewrite Hu. simpl negb. cbv iota.
  destruct (Cache.getCachedData JSON_parse url now (localStorage s))
    as [cached ls]. cbn [fst] in Hmiss. rewrite Hmiss. reflexivity.
Qed.

(** C5.  The cache-hit branch leaves the error where it is.  When the
    storage holds, under the key of the URL, an entry with a non-empty
    text that has not expired, and the hook holds an error from an
    earlier load, the effect sets the records of the cached text,
    [fromCache] to true and [loading] to false, as the claim says, but
    the error stays, and the component shows the error screen instead of
    these records: at once, after the background fetch is fulfilled, and
    after it is rejected.  The branch without cache does clear the
    error. *)
Theorem C5_error_survives_cache_hit s url g now key cached text T msg :
  truthy url = true ->
  lastDeps s <> Some (url, g, retryTrigger (hook s)) ->
  Cache.getCacheKey url = Normal key ->
  localStorage s !! key = Some cached -> truthy cached = true ->
  JSON_parse cached
    = Normal {| Cache.data := VString text; Cache.timestamp := Some T |} ->
  truthy text = true -> (now - T < Cache.CACHE_DURATION)%Z ->
  error (hook s) = Some msg -> truthy msg = true ->
  let s1 := step s (Render url g now) in
  let id := nextRequest s in
  let shown :=
    ErrorHelpers.ErrorScreen (ErrorHelpers.getErrorDetails (Error msg)) in
  (data (hook s1) = filterByGameType g (parse (VString text))
   /\ fromCache (hook s1) = true /\ loading (hook s1) = false
   /\ error (hook s1) = Some msg
   /\ ErrorHelpers.screenOf (hook s1) = shown)
  /\ (forall csv now',
        let s2 := step s1 (Settle id (Normal csv) now') in
        data (hook s2) = filterByGameType g (parse (VString csv))
        /\ fromCache (hook s2) = false /\ loading (hook s2) = false
        /\ ErrorHelpers.screenOf (hook s2) = shown)
  /\ (forall err now',
        let s2 := step s1 (Settle id (Throw err) now') in
        ErrorHelpers.screenOf (hook s2) = shown)
  /\ (forall s' url' now',
        truthy url' = true ->
        lastDeps s' <> Some (url', g, retryTrigger (hook s')) ->
        toBoolean
          (Cache.getCachedData JSON_parse url' now' (localStorage s')).1
        = false ->
        error (hook (step s' (Render url' g now'))) = None).
Proof.
  intros Hu Hd Hk Hc Htc Hp Ht Hfresh He Hm s1 id shown.
  destruct (cache_hit_then_revalidate s url g now key cached text T
              Hu Hd Hk Hc Htc Hp Ht Hfresh)
    as ((Hh & Hdata & Hfrom & Hload & _) & Hok & Hfail).
  fold s1 in Hh, Hdata, Hfrom, Hload, Hok, Hfail. fold id in Hok, Hfail.
  assert (Herr : error (hook s1) = Some msg) by (rewrite Hh; exact He).
  assert (Hshown : ErrorHelpers.screenOf (hook s1) = shown).
  { unfold ErrorHelpers.screenOf. now rewrite Hload, Herr, Hm. }
  split; [auto 6|]. split; [|split].
  - intros csv now' s2.
    destruct (Hok csv now') as (_ & Hd2 & Hf2 & Hl2 & He2).
    fold s2 in Hd2, Hf2, Hl2, He2. repeat split; try assumption.
    unfold ErrorHelpers.screenOf. now rewrite Hl2, He2, Herr, Hm.
  - intros err now' s2. destruct (Hfail err now') as [Hh2 _].
    fold s2 in Hh2. now rewrite Hh2.
  - intros s' url' now'. apply cache_miss_clears_error.
Qed.


End ControllerClaims.

(** ** The statements on concrete inputs *)

Section Instances.

Import Parser Csv Cache Fetcher Controller Reference Samples.

(** The claim C1 fails: the hook has moved on to B, B's fetch has been
    fulfilled, and the late text of A replaces B's records. *)
Lemma C1_counterexample :
  let A := str "https://sheets/a" in
  let B := str "https://sheets/b" in
  let x := str "x" in
  let csvA := str "game_type,q" ++ [LF] ++ str "x,from A" in
  let csvB := str "game_type,q" ++ [LF] ++ str "x,from B" in
  let s := run asciiLower stringify parse noQuota (mounting ∅)
             [Render A x 0; Render B x 1;
              Settle 1 (Normal csvB) 2; Settle 0 (Normal csvA) 3] in
  lastDeps s = Some (B, x, 0%Z) /\
  data (hook s) = filterByGameType x (parseCSV asciiLower (VString csvA)) /\
  data (hook s) <> filterByGameType x (parseCSV asciiLower (VString csvB)).
Proof.
  cbv zeta. split; [|split].
  - vm_compute. reflexivity.
  - vm_compute. reflexivity.
  - vm_compute. discriminate.
Qed.

Lemma C1_witness :
  let A := str "https://sheets/a" in
  let B := str "https://sheets/b" in
  let x := str "x" in
  let s := mounting ∅ in
  let s2 := run asciiLower stringify parse noQuota s
              [Render A x 0; Render B x 1] in
  truthy A = true /\ truthy B = true /\ (A, x) <> (B, x) /\
  lastDeps s <> Some (A, x, retryTrigger (hook s)) /\
  (forall outA csvB t2 t3,
      data (hook (run asciiLower stringify parse noQuota s2
                    [Settle 0 outA t2; Settle 1 (Normal csvB) t3]))
      = filterByGameType x (Controller.parse asciiLower (VString csvB))) /\
  (forall outB csvA t2 t3,
      data (hook (run asciiLower stringify parse noQuota s2
                    [Settle 1 outB t2; Settle 0 (Normal csvA) t3]))
      = filterByGameType x (Controller.parse asciiLower (VString csvA))).
Proof.
  cbv zeta.
  assert (H1 : truthy (str "https://sheets/a") = true) by reflexivity.
  assert (H2 : truthy (str "https://sheets/b") = true) by reflexivity.
  assert (H3 : (str "https://sheets/a", str "x") <> (str "https://sheets/b", str "x"))
    by (vm_compute; discriminate).
  assert (H4 : lastDeps (mounting ∅)
               <> Some (str "https://sheets/a", str "x",
                        retryTrigger (hook (mounting ∅))))
    by discriminate.
  repeat (split; [assumption|]).
  exact (C1_last_settled_wins asciiLower stringify parse noQuota (mounting ∅)
           (str "https://sheets/a") (str "x") (str "https://sheets/b") (str "x")
           0 1 H1 H2 H3 H4).
Defined.

Lemma sample_keys :
  keysOf asciiLower sampleHeader = [str "name"; str "game_type"; str "q"].
Proof. reflexivity. Qed.

Lemma sample_NoDup : NoDup (keysOf asciiLower sampleHeader).
Proof. refine (bool_decide_unpack (NoDup _) _). vm_compute. exact I. Qed.

Lemma sample_no_proto : PROTO ∉ keysOf asciiLower sampleHeader.
Proof. refine (bool_decide_unpack (_ ∉ _) _). vm_compute. exact I. Qed.

Lemma C2_witness :
  wfRow sampleHeader = true /\
  truthy (trim (renderRow sampleHeader)) = true /\
  Forall (fun r => wfRow r.2 = true) sampleRows /\
  Forall (fun r => blankUnder (length sampleHeader) r.2 = false) sampleRows /\
  exists rec,
    parseCSV asciiLower (VString (render sampleHeader sampleRows)) !! 1%nat
      = Some rec /\
    rec !! str "game_type" = Some (cleanValue sampleValue) /\
    (trim sampleValue = sampleValue ->
     isWrapped sampleValue = false ->
     rec !! str "game_type" = Some sampleValue).
Proof.
  assert (H1 : wfRow sampleHeader = true) by reflexivity.
  assert (H2 : truthy (trim (renderRow sampleHeader)) = true) by reflexivity.
  assert (H3 : Forall (fun r => wfRow r.2 = true) sampleRows)
    by (repeat constructor).
  assert (H4 : Forall (fun r => blankUnder (length sampleHeader) r.2 = false)
                 sampleRows) by (repeat constructor).
  repeat (split; [assumption|]).
  exact (C2_quoted_field_value asciiLower sampleHeader sampleRows 1 NL_CRLF
           [Plain []; Quoted sampleValue; Plain (str "z"); Plain (str "extra")]
           1 sampleValue (str "game_type")
           H1 H2 H3 sample_NoDup sample_no_proto H4
           eq_refl eq_refl eq_refl).
Defined.

Lemma C3_witness :
  failureOf (unavailable 0%nat (str "u")) = Some (Error (str "HTTP 503: 0")) /\
  failureOf (unavailable 1%nat (str "u")) = Some (Error (str "HTTP 503: 1")) /\
  failureOf (unavailable 2%nat (str "u")) = Some (Error (str "HTTP 503: 2")) /\
  fetchWithRetry unavailable (str "u") 3 start =
    (Throw (Some (Error (str "HTTP 503: 2"))),
     {| calls := 3;
        trace := [Fetch (str "u"); Sleep 1000; Fetch (str "u"); Sleep 2000;
                  Fetch (str "u")] |}).
Proof.
  assert (H0 : failureOf (unavailable (calls start) (str "u"))
               = Some (Error (str "HTTP 503: 0"))) by reflexivity.
  assert (H1 : failureOf (unavailable (calls start + 1)%nat (str "u"))
               = Some (Error (str "HTTP 503: 1"))) by reflexivity.
  assert (H2 : failureOf (unavailable (calls start + 2)%nat (str "u"))
               = Some (Error (str "HTTP 503: 2"))) by reflexivity.
  split; [exact H0|]. split; [exact H1|]. split; [exact H2|].
  exact (proj1 (C3_three_attempts_backoff unavailable (str "u") start _ _ _
                  H0 H1 H2)).
Defined.

Lemma C4_witness :
  let T := 1700000000000%Z in
  let ls' := setCachedData stringify noQuota sampleUrl sampleText T ∅ in
  getCacheKey sampleUrl = Normal sampleKey /\
  noQuota ∅ sampleKey (stringify sampleText T) = false /\
  truthy (stringify sampleText T) = true /\
  parse (stringify sampleText T)
    = Normal {| Cache.data := VString sampleText; timestamp := Some T |} /\
  getCachedData parse sampleUrl (T + 3599999) ls' = (VString sampleText, ls') /\
  getCachedData parse sampleUrl (T + 3600000) ls' = (VNull, delete sampleKey ls').
Proof.
  cbv zeta.
  assert (H1 : getCacheKey sampleUrl = Normal sampleKey) by reflexivity.
  assert (H2 : noQuota ∅ sampleKey (stringify sampleText 1700000000000) = false)
    by reflexivity.
  assert (H3 : truthy (stringify sampleText 1700000000000) = true)
    by reflexivity.
  assert (H4 : parse (stringify sampleText 1700000000000)
               = Normal {| Cache.data := VString sampleText;
                           timestamp := Some 1700000000000%Z |})
    by (vm_compute; reflexivity).
  repeat (split; [assumption|]).
  exact (proj2 (proj2 (C4_cache_ttl stringify parse noQuota sampleUrl sampleText
                         1700000000000 ∅ sampleKey H1 H2 H3 H4))).
Defined.

Lemma C5_witness :
  let A := sampleUrl in
  let B := str "https://sheets/b" in
  let x := str "x" in
  let T := 1700000000000%Z in
  let msg := str "HTTP 404: Not Found" in
  let s := run asciiLower stringify parse noQuota (mounting ∅)
             [Render A x T; Render B x (T + 1);
              Settle 1 (Throw (Error msg)) (T + 2);
              Settle 0 (Normal sampleText) (T + 3)] in
  let s1 := step asciiLower stringify parse noQuota s (Render A x (T + 4)) in
  let s2 := step asciiLower stringify parse noQuota s1
              (Settle 2 (Normal sampleText) (T + 5)) in
  let shown :=
    ErrorHelpers.ErrorScreen (ErrorHelpers.getErrorDetails (Error msg)) in
  truthy A = true /\
  lastDeps s <> Some (A, x, retryTrigger (hook s)) /\
  getCacheKey A = Normal sampleKey /\
  localStorage s !! sampleKey = Some (stringify sampleText (T + 3)) /\
  (T + 4 - (T + 3) < CACHE_DURATION)%Z /\
  error (hook s) = Some msg /\ truthy msg = true /\
  length (Controller.data (hook s1)) = 2%nat /\
  fromCache (hook s1) = true /\ loading (hook s1) = false /\
  ErrorHelpers.screenOf (hook s1) = shown /\
  ErrorHelpers.screenOf (hook s2) = shown.
Proof.
  cbv zeta.
  set (msg := str "HTTP 404: Not Found").
  set (s := run asciiLower stringify parse noQuota (mounting ∅)
              [Render sampleUrl (str "x") 1700000000000;
               Render (str "https://sheets/b") (str "x") (1700000000000 + 1);
               Settle 1 (Throw (Error msg)) (1700000000000 + 2);
               Settle 0 (Normal sampleText) (1700000000000 + 3)]).
  assert (H1 : truthy sampleUrl = true) by reflexivity.
  assert (H2 : lastDeps s <> Some (sampleUrl, str "x", retryTrigger (hook s)))
    by (vm_compute; discriminate).
  assert (H3 : getCacheKey sampleUrl = Normal sampleKey) by reflexivity.
  assert (H4 : localStorage s !! sampleKey
               = Some (stringify sampleText (1700000000000 + 3)))
    by (vm_compute; reflexivity).
  assert (H5 : truthy (stringify sampleText (1700000000000 + 3)) = true)
    by reflexivity.
  assert (H6 : parse (stringify sampleText (1700000000000 + 3))
               = Normal {| Cache.data := VString sampleText;
                           timestamp := Some (1700000000000 + 3)%Z |})
    by (vm_compute; reflexivity).
  assert (H7 : truthy sampleText = true) by reflexivity.
  assert (H8 : (1700000000000 + 4 - (1700000000000 + 3) < CACHE_DURATION)%Z)
    by (vm_compute; reflexivity).
  assert (H9 : error (hook s) = Some msg) by (vm_compute; reflexivity).
  assert (H10 : truthy msg = true) by reflexivity.
  assert (H11 : nextRequest s = 2%nat) by (vm_compute; reflexivity).
  split; [exact H1|]. split; [exact H2|]. split; [exact H3|].
  split; [exact H4|]. split; [exact H8|]. split; [exact H9|].
  split; [exact H10|].
  destruct (C5_error_survives_cache_hit asciiLower stringify parse noQuota s
              sampleUrl (str "x") (1700000000000 + 4) sampleKey
              (stringify sampleText (1700000000000 + 3)) sampleText
              (1700000000000 + 3) msg H1 H2 H3 H4 H5 H6 H7 H8 H9 H10)
    as ((Hdata & Hfrom & Hload & _ & Hshown) & Hok & _).
  split; [rewrite Hdata; vm_compute; reflexivity|].
  split; [exact Hfrom|]. split; [exact Hload|]. split; [exact Hshown|].
  destruct (Hok sampleText (1700000000000 + 5)%Z) as (_ & _ & _ & Hshown2).
  rewrite H11 in Hshown2. exact Hshown2.
Defined.

Lemma C6_witness :
  wfRow sampleHeader = true /\
  truthy (trim (renderRow sampleHeader)) = true /\
  Forall (fun r => wfRow r.2 = true) sampleRows /\
  Forall (fun r => blankUnder (length sampleHeader) r.2 = false) sampleRows /\
  length (parseCSV asciiLower (VString (render sampleHeader sampleRows)))
    = 2%nat.
Proof.
  assert (H1 : wfRow sampleHeader = true) by reflexivity.
  assert (H2 : truthy (trim (renderRow sampleHeader)) = true) by reflexivity.
  assert (H3 : Forall (fun r => wfRow r.2 = true) sampleRows)
    by (repeat constructor).
  assert (H4 : Forall (fun r => blankUnder (length sampleHeader) r.2 = false)
                 sampleRows) by (repeat constructor).
  repeat (split; [assumption|]).
  exact (proj1 (C6_records_of_wellformed asciiLower sampleHeader sampleRows
                  H1 H2 H3 sample_NoDup sample_no_proto H4)).
Defined.

Lemma C7_witness :
  (length (splitRows (str "name,game_type,q")) < 2)%nat /\
  parseCSV asciiLower (VString (str "name,game_type,q")) = [].
Proof.
  assert (H : (length (splitRows (str "name,game_type,q")) < 2)%nat)
    by (vm_compute; lia).
  split; [exact H|].
  apply C7_degrades_to_empty. right. right. left.
  exists (str "name,game_type,q"). split; [reflexivity | exact H].
Defined.


Lemma C9_witness :
  let text := lit "  'a, b'  " in
  let plain := str "  a b  " in
  isWrapped (trim plain) = false /\ isWrapped (trim text) = true /\
  cleanValue plain = str "a b" /\ trim (cleanValue plain) = cleanValue plain /\
  cleanValue text = str "a, b".
Proof.
  cbv zeta.
  assert (H1 : isWrapped (trim (str "  a b  ")) = false) by reflexivity.
  assert (H2 : isWrapped (trim (lit "  'a, b'  ")) = true) by reflexivity.
  split; [exact H1|]. split; [exact H2|].
  destruct (C9_values_are_cleaned []) as [_ Hc].
  destruct (Hc (str "  a b  ")) as (_ & Hp & _).
  destruct (Hc (lit "  'a, b'  ")) as (_ & _ & Hw).
  destruct (Hp H1) as [Ha Hb].
  split; [rewrite Ha; reflexivity|]. split; [exact Hb|].
  rewrite (Hw H2). reflexivity.
Defined.

Lemma C10_witness :
  let url := str "https://sheets/" ++ [8364] in
  8364 ∈ url /\ 255 < 8364 /\
  (forall now ls, getCachedData parse url now ls = (VNull, ls)) /\
  (forall d now ls, setCachedData stringify noQuota url d now ls = ls).
Proof.
  cbv zeta.
  assert (H1 : 8364 ∈ str "https://sheets/" ++ [8364])
    by (apply list_elem_of_In, in_or_app; right; left; reflexivity).
  assert (H2 : 255 < 8364) by reflexivity.
  split; [exact H1|]. split; [exact H2|].
  exact (C10_cache_disabled_outside_latin1 stringify parse noQuota
           (str "https://sheets/" ++ [8364]) 8364 H1 H2).
Defined.

End Instances.

(** * Further properties *)

(** ** The parser on any text and on well-formed text *)

Section ParserMore.

Import Parser Csv Lines.

Variable toLowerCase : jsstring -> jsstring.

(** [parseCSV] on a string is the outcome of its [try] block, also on the
    empty string. *)
Lemma parseCSV_string s :
  parseCSV toLowerCase (VString s) =
  tryCatch (parseCSV_body toLowerCase s) (fun _ => []).
Proof.
  simpl. destruct s as [|c s]; [reflexivity|]. reflexivity.
Qed.

Lemma parseCSV_same_rows s1 s2 :
  splitRows s1 = splitRows s2 ->
  parseCSV toLowerCase (VString s1) = parseCSV toLowerCase (VString s2).
Proof.
  intros H. rewrite !parseCSV_string. unfold parseCSV_body. now rewrite H.
Qed.

Lemma pushRow_nil rows : pushRow rows [] = rows.
Proof. reflexivity. Qed.

(** A row separator ends the row, whatever comes next. *)
Lemma split_newline_any nl rest rows cur :
  splitRows_loop (renderNewline nl ++ rest) rows cur false =
  splitRows_loop rest (pushRow rows cur) [] false.
Proof.
  destruct nl; simpl renderNewline.
  - destruct rest; reflexivity.
  - destruct rest as [|d rest]; [reflexivity|].
    cbn. destruct (d =? LF) eqn:E; [|reflexivity].
    apply N.eqb_eq in E. subst d. cbn. destruct rest; reflexivity.
  - reflexivity.
Qed.

Lemma pushRow_keep rows cur :
  pushRow rows cur = rows ++ filter keptLine [cur].
Proof.
  unfold pushRow, keptLine.
  destruct (truthy (trim cur)) eqn:E.
  - now rewrite filter_cons_True by (exact E).
  - rewrite filter_cons_False by (rewrite E; discriminate).
    now rewrite filter_nil, app_nil_r.
Qed.

Lemma split_rows_any rows : forall acc cur,
  Forall (fun r => wfRow r.2 = true) rows ->
  splitRows_loop (renderRows rows) acc cur false =
  acc ++ filter keptLine (cur :: map lineOf rows).
Proof.
  induction rows as [|[nl fs] rows IH]; intros acc cur Hall.
  - simpl. apply pushRow_keep.
  - inversion Hall as [|? ? Hwf Hrest]; subst. simpl in Hwf.
    simpl renderRows. rewrite split_newline_any.
    rewrite split_row.
    + rewrite IH by exact Hrest. rewrite pushRow_keep.
      rewrite <- app_assoc. f_equal.
      change (cur :: map lineOf ((nl, fs) :: rows))
        with ([cur] ++ (renderRow fs :: map lineOf rows)).
      now rewrite filter_app.
    + exact Hwf.
    + destruct rows as [|[nl' fs'] rows']; unfold noQuoteAhead; simpl;
        [congruence|]. destruct nl'; simpl; discriminate.
Qed.

(** The rows of a well-formed text are its lines that are not blank. *)
Lemma splitRows_render_any header rows :
  wfRow header = true -> Forall (fun r => wfRow r.2 = true) rows ->
  splitRows (render header rows) =
  filter keptLine (renderRow header :: map lineOf rows).
Proof.
  intros Hwf Hrows. unfold splitRows, render.
  rewrite split_row.
  - now rewrite split_rows_any by exact Hrows.
  - exact Hwf.
  - destruct rows as [|[nl' fs'] rows']; unfold noQuoteAhead; simpl;
      [congruence|]. destruct nl'; simpl; discriminate.
Qed.

Lemma filter_map_lineOf rows :
  filter keptLine (map lineOf rows) = map lineOf (keptRows rows).
Proof.
  unfold keptRows. induction rows as [|r rows IH]; [reflexivity|].
  simpl map. destruct (decide (keptLine (lineOf r))) as [H | H].
  - rewrite !filter_cons_True by exact H. simpl. now rewrite IH.
  - now rewrite !filter_cons_False by exact H.
Qed.

Lemma keptRows_idem rows : keptRows (keptRows rows) = keptRows rows.
Proof.
  unfold keptRows. apply filter_all, Forall_forall.
  intros r Hr. now apply list_elem_of_filter in Hr as [Hr _].
Qed.

Lemma keptRows_wf rows :
  Forall (fun r => wfRow r.2 = true) rows ->
  Forall (fun r => wfRow r.2 = true) (keptRows rows).
Proof.
  rewrite !Forall_forall. intros H r Hr. apply H.
  now apply list_elem_of_filter in Hr as [_ Hr].
Qed.

Lemma parseCSV_kept_rows header rows :
  wfRow header = true -> Forall (fun r => wfRow r.2 = true) rows ->
  parseCSV toLowerCase (VString (render header rows)) =
  parseCSV toLowerCase (VString (render header (keptRows rows))).
Proof.
  intros Hwf Hrows. apply parseCSV_same_rows.
  rewrite !splitRows_render_any by (try apply keptRows_wf; assumption).
  change (renderRow header :: map lineOf ?l)
    with ([renderRow header] ++ map lineOf l).
  rewrite !filter_app, !filter_map_lineOf. now rewrite keptRows_idem.
Qed.

(** X1.  On a well-formed text, the lines that are empty or hold only
    white space, between the rows or at the end, and so a line break at
    the end of the text, do not change what [parseCSV] returns. *)
Theorem X1_blank_lines_ignored header rows :
  wfRow header = true -> Forall (fun r => wfRow r.2 = true) rows ->
  parseCSV toLowerCase (VString (render header rows)) =
  parseCSV toLowerCase (VString (render header (keptRows rows))).
Proof. apply parseCSV_kept_rows. Qed.

End ParserMore.

Section ParserContents.

Import Parser Csv Lines.

Variable toLowerCase : jsstring -> jsstring.

Lemma someValueNonBlank_elim (obj : record) :
  someValueNonBlank obj = true ->
  exists k v, obj !! k = Some v /\ truthy (trim v) = true.
Proof.
  unfold someValueNonBlank. intros H.
  apply existsb_exists in H as ([k v] & Hin & Hv).
  exists k, v. split; [|exact Hv].
  now apply list_elem_of_In, elem_of_map_to_list in Hin.
Qed.

(** What a record holds comes from the object it was built on, or is a
    value of the row, or is the empty string. *)
Lemma fillRecord_lookup_inv hdrs : forall i values (obj : record) k v,
  fillRecord hdrs i values obj !! k = Some v ->
  obj !! k = Some v \/ v = [] \/ v ∈ values.
Proof.
  induction hdrs as [|h hdrs IH]; intros i values obj k v H; [now left|].
  cbn [fillRecord] in H. apply IH in H as [Ha | Hv]; [|now right].
  unfold assign in Ha. destruct (decide (h = PROTO)); [now left|].
  destruct (decide (h = k)) as [-> | Hne].
  - rewrite lookup_insert_eq in Ha. injection Ha as <-. right.
    destruct (values !! i) as [x|] eqn:E; simpl; [right | now left].
    eapply list_elem_of_lookup_2, E.
  - rewrite lookup_insert_ne in Ha by exact Hne. now left.
Qed.

(** The record of a blank line has nothing for the filter to keep. *)
Lemma recordOf_blank_line header r :
  ~ keptLine (lineOf r) ->
  someValueNonBlank (recordOf toLowerCase header r) = false.
Proof.
  intros Hblank. destruct (someValueNonBlank _) eqn:E; [|reflexivity].
  exfalso. apply Hblank.
  apply someValueNonBlank_elim in E as (k & v & Hk & Hv).
  unfold recordOf in Hk.
  apply fillRecord_lookup_inv in Hk as [Hk | [-> | Hin]].
  - rewrite lookup_empty in Hk. discriminate.
  - discriminate.
  - unfold keptLine, lineOf. apply (blankUnder_line (length r.2)).
    unfold blankUnder. rewrite take_ge by (unfold cleaned; now rewrite length_map).
    destruct (forallb isBlank (cleaned r.2)) eqn:F; [|reflexivity].
    rewrite forallb_forall in F. apply list_elem_of_In, F in Hin.
    unfold isBlank in Hin. rewrite Hv in Hin. discriminate.
Qed.

Lemma filter_map_filter {A B} (P : B -> Prop) `{!forall x, Decision (P x)}
    (Q : A -> Prop) `{!forall x, Decision (Q x)} (f : A -> B) (l : list A) :
  (forall x, x ∈ l -> ~ Q x -> ~ P (f x)) ->
  filter P (map f (filter Q l)) = filter P (map f l).
Proof.
  induction l as [|x l IH]; intros Hall; [reflexivity|].
  assert (IH' : filter P (map f (filter Q l)) = filter P (map f l)).
  { apply IH. intros y Hy. apply Hall. now right. }
  destruct (decide (Q x)) as [Hq | Hq].
  - rewrite (filter_cons_True Q) by exact Hq. simpl map.
    destruct (decide (P (f x))) as [Hp | Hp].
    + rewrite !(filter_cons_True P) by exact Hp. now rewrite IH'.
    + now rewrite !(filter_cons_False P) by exact Hp.
  - rewrite (filter_cons_False Q) by exact Hq. simpl map.
    rewrite (filter_cons_False P); [exact IH'|].
    apply Hall; [left | exact Hq].
Qed.

(** The parse of a well-formed text with a header line that is not blank:
    the records of its rows that have a value that is not blank. *)
Lemma parseCSV_render_all header rows :
  wfRow header = true -> keptLine (renderRow header) ->
  Forall (fun r => wfRow r.2 = true) rows ->
  parseCSV toLowerCase (VString (render header rows)) =
  filter (fun obj => someValueNonBlank obj = true)
    (map (recordOf toLowerCase header) rows).
Proof.
  intros Hwf Hnb Hrows.
  rewrite (parseCSV_kept_rows toLowerCase header rows Hwf Hrows).
  rewrite parseCSV_render.
  - unfold keptRows. apply filter_map_filter.
    intros r _ Hr. rewrite (recordOf_blank_line header r Hr). discriminate.
  - split; assumption.
  - apply Forall_forall. intros r Hr.
    apply list_elem_of_filter in Hr as [Hk Hr]. split; [|exact Hk].
    rewrite Forall_forall in Hrows. now apply Hrows.
Qed.

(** X2.  On well-formed text with a header line that is not blank, the
    result depends on the texts of the fields only: whether a field is
    written with or without quotes, and which of the three separators
    ends a row, makes no difference. *)
Theorem X2_only_contents_matter header1 rows1 header2 rows2 :
  wfRow header1 = true -> keptLine (renderRow header1) ->
  Forall (fun r => wfRow r.2 = true) rows1 ->
  wfRow header2 = true -> keptLine (renderRow header2) ->
  Forall (fun r => wfRow r.2 = true) rows2 ->
  contents header1 = contents header2 ->
  rowContents rows1 = rowContents rows2 ->
  parseCSV toLowerCase (VString (render header1 rows1)) =
  parseCSV toLowerCase (VString (render header2 rows2)).
Proof.
  intros Hwf1 Hnb1 Hrows1 Hwf2 Hnb2 Hrows2 Hh Hr.
  rewrite !parseCSV_render_all by assumption. f_equal.
  set (build := fun cs : list jsstring =>
         fillRecord (map toLowerCase (map cleanValue (contents header1))) 0
           (map cleanValue cs) (∅ : record)).
  assert (E1 : map (recordOf toLowerCase header1) rows1
               = map build (rowContents rows1)).
  { unfold rowContents. rewrite map_map. apply map_ext. intros r.
    unfold recordOf, keysOf, cleaned, build, contents. now rewrite !map_map. }
  assert (E2 : map (recordOf toLowerCase header2) rows2
               = map build (rowContents rows2)).
  { unfold rowContents. rewrite map_map. apply map_ext. intros r.
    unfold recordOf, keysOf, cleaned, build. rewrite Hh.
    unfold contents. now rewrite !map_map. }
  now rewrite E1, E2, Hr.
Qed.

Lemma fillRecord_dom_subseteq hdrs : forall i values (obj : record),
  dom (fillRecord hdrs i values obj) ⊆ list_to_set hdrs ∪ dom obj.
Proof.
  induction hdrs as [|h hdrs IH]; intros i values obj; cbn [fillRecord].
  - apply union_subseteq_r.
  - etrans; [apply IH|]. rewrite list_to_set_cons.
    apply union_least.
    + etrans; [|apply union_subseteq_l]. apply union_subseteq_r.
    + unfold assign. destruct (decide (h = PROTO)).
      * apply union_subseteq_r.
      * rewrite dom_insert_L. apply union_least.
        -- etrans; [|apply union_subseteq_l]. apply union_subseteq_l.
        -- apply union_subseteq_r.
Qed.

(** X3.  On any string, [parseCSV] returns at most one record for each
    retained row after the first, every record it returns has a value that
    is not blank, and the keys of a record are among the lower-cased
    values of the first row. *)
Theorem X3_records_of_any_text s :
  let rows := splitRows s in
  let out := parseCSV toLowerCase (VString s) in
  (length out <= length rows - 1)%nat /\
  Forall (fun rec : record =>
            someValueNonBlank rec = true /\
            dom rec ⊆ list_to_set
                        (map toLowerCase (parseRow (default [] (head rows)))))
         out.
Proof.
  intros rows out. subst out. rewrite parseCSV_string.
  unfold parseCSV_body. fold rows.
  destruct (length rows <? 2)%nat eqn:E; simpl tryCatch.
  - split; [simpl; lia | constructor].
  - split.
    + etrans; [apply length_filter|]. rewrite length_map.
      destruct rows; simpl; lia.
    + apply Forall_forall. intros rec Hrec.
      apply list_elem_of_filter in Hrec as [Hnb Hrec]. split; [exact Hnb|].
      apply list_elem_of_fmap in Hrec as (row & -> & _).
      unfold buildRecord. etrans; [apply fillRecord_dom_subseteq|].
      rewrite dom_empty_L. now rewrite (right_id_L ∅ (∪)).
Qed.

End ParserContents.

Section RowValues.

Import Parser Csv Lines.

Lemma commas_cons c row :
  commas (c :: row) = ((if (c =? COMMA)%N then 1 else 0) + commas row)%nat.
Proof.
  unfold commas. destruct (N.eqb_spec c COMMA) as [-> | Hne].
  - now rewrite filter_cons_True.
  - now rewrite filter_cons_False.
Qed.

Lemma parseRow_loop_length row : forall values cur q,
  (length values + 1 <= length (parseRow_loop row values cur q)
   <= length values + 1 + commas row)%nat.
Proof.
  induction row as [|c rest IH IH'] using skip_ind; intros values cur q.
  - simpl. rewrite length_app. simpl. unfold commas. simpl. lia.
  - rewrite commas_cons. cbn [parseRow_loop].
    destruct (c =? QUOTE) eqn:Eq.
    + assert (Ec : (c =? COMMA) = false).
      { apply N.eqb_eq in Eq. now subst c. }
      rewrite Ec. destruct rest as [|d rest'].
      * specialize (IH values cur (negb q)). simpl in *. lia.
      * destruct (q && (d =? QUOTE)) eqn:Ed.
        -- apply andb_true_iff in Ed as [_ Ed]. apply N.eqb_eq in Ed. subst d.
           specialize (IH' QUOTE rest' eq_refl values (cur ++ [QUOTE]) q).
           rewrite commas_cons. simpl. lia.
        -- specialize (IH values cur (negb q)). lia.
    + destruct (c =? COMMA) eqn:Ec; simpl.
      * destruct q; simpl.
        -- specialize (IH values (cur ++ [c]) true). lia.
        -- specialize (IH (values ++ [cleanValue cur]) [] false).
           rewrite length_app in IH. simpl in IH. lia.
      * specialize (IH values (cur ++ [c]) q). lia.
Qed.

(** X4.  [parseRow] gives at least one value for any row, and at most one
    more than the row has commas: a row without a comma is one value. *)
Theorem X4_parseRow_value_count row :
  (1 <= length (parseRow row) <= 1 + commas row)%nat.
Proof.
  pose proof (parseRow_loop_length row [] [] false) as H. simpl in H.
  unfold parseRow. lia.
Qed.

End RowValues.

(** ** More on the cache *)

Section CacheKeys.

Import Cache.

(** The 50 characters that [getCacheKey] keeps are those of the first 38
    code units of the URL: 36 of them give 48 characters, the next two
    give two more. *)
Lemma take50_base64 p s :
  length p = 38%nat -> take 50 (base64 (p ++ s)) = take 50 (base64 p).
Proof.
  intros H.
  do 38 (destruct p as [|? p]; [discriminate H|]).
  destruct p; [|discriminate H].
  destruct s as [|c s]; reflexivity.
Qed.

Lemma isLatin1_btoa url : isLatin1 url = true -> btoa url = Normal (base64 url).
Proof. unfold btoa. now intros ->. Qed.

Lemma getCacheKey_latin1 url :
  isLatin1 url = true ->
  getCacheKey url = Normal (str "sheet-cache-" ++ take 50 (base64 url)).
Proof. intros H. unfold getCacheKey. now rewrite isLatin1_btoa. Qed.

Lemma getCacheKey_prefix url :
  isLatin1 url = true -> (38 <= length url)%nat ->
  getCacheKey url =
  Normal (str "sheet-cache-" ++ take 50 (base64 (take 38 url))).
Proof.
  intros Hl Hlen. rewrite getCacheKey_latin1 by exact Hl.
  rewrite <- (take_drop 38 url) at 1.
  rewrite take50_base64; [reflexivity|].
  rewrite length_take. lia.
Qed.

Lemma shared_cache_key url1 url2 :
  isLatin1 url1 = true -> isLatin1 url2 = true ->
  (38 <= length url1)%nat -> (38 <= length url2)%nat ->
  take 38 url1 = take 38 url2 ->
  getCacheKey url1 = getCacheKey url2.
Proof.
  intros H1 H2 L1 L2 E.
  rewrite (getCacheKey_prefix url1 H1 L1), (getCacheKey_prefix url2 H2 L2).
  now rewrite E.
Qed.

End CacheKeys.

Section CacheMore.

Import Cache.

Variable JSON_stringify : jsstring -> Z -> jsstring.
Variable JSON_parse : jsstring -> completion jserror parsedEntry.
Variable quotaExceeded : gmap jsstring jsstring -> jsstring -> jsstring -> bool.

(** X5.  What was written for one URL is read back for another URL that
    has the same first 38 code units, while it has not expired. *)
Theorem X5_read_of_colliding_url url1 url2 d T t ls key :
  isLatin1 url1 = true -> isLatin1 url2 = true ->
  (38 <= length url1)%nat -> (38 <= length url2)%nat ->
  take 38 url1 = take 38 url2 ->
  getCacheKey url1 = Normal key ->
  quotaExceeded ls key (JSON_stringify d T) = false ->
  truthy (JSON_stringify d T) = true ->
  JSON_parse (JSON_stringify d T)
    = Normal {| data := VString d; timestamp := Some T |} ->
  (t - T < CACHE_DURATION)%Z ->
  let ls' := setCachedData JSON_stringify quotaExceeded url1 d T ls in
  getCachedData JSON_parse url2 t ls' = (VString d, ls').
Proof.
  intros H1 H2 L1 L2 E Hk Hq Ht Hp Hfresh ls'. subst ls'.
  assert (Hk2 : getCacheKey url2 = Normal key).
  { now rewrite <- (shared_cache_key url1 url2 H1 H2 L1 L2 E). }
  rewrite (setCachedData_stored JSON_stringify quotaExceeded url1 d T ls key Hk Hq).
  rewrite (getCachedData_entry JSON_parse url2 t _ key (JSON_stringify d T)
             (VString d) (Some T) Hk2); try assumption.
  - unfold isFresh. apply Z.ltb_lt in Hfresh. now rewrite Hfresh.
  - apply lookup_insert_eq.
Qed.

Lemma getCacheKey_shape url key :
  getCacheKey url = Normal key ->
  exists tail, key = str "sheet-cache-" ++ tail.
Proof.
  unfold getCacheKey, btoa. destruct (isLatin1 url); simpl; [|discriminate].
  intros [= <-]. eexists. reflexivity.
Qed.

Lemma startsWith_app (p s : jsstring) : startsWith (p ++ s) p = true.
Proof.
  induction p as [|c p IH]; simpl; [now destruct s|].
  now rewrite N.eqb_refl.
Qed.

(** X6.  The cache reads and writes the storage only under keys that
    start with [sheet-cache-]: whatever is stored under any other key is
    left as it is by [setCachedData] and by [getCachedData]. *)
Theorem X6_cache_keeps_to_its_keys url d now ls k :
  startsWith k (str "sheet-cache-") = false ->
  setCachedData JSON_stringify quotaExceeded url d now ls !! k = ls !! k /\
  (getCachedData JSON_parse url now ls).2 !! k = ls !! k.
Proof.
  intros Hk.
  assert (Hne : forall key, getCacheKey url = Normal key -> key <> k).
  { intros key Hkey Heq. subst key.
    destruct (getCacheKey_shape url k Hkey) as [tail Ht].
    rewrite Ht, startsWith_app in Hk. discriminate. }
  split.
  - unfold setCachedData, setItem.
    destruct (getCacheKey url) as [key|e]; [|reflexivity]. simpl.
    destruct (quotaExceeded ls key _); [reflexivity|]. simpl.
    apply lookup_insert_ne. now apply Hne.
  - unfold getCachedData.
    destruct (getCacheKey url) as [key|e]; [|reflexivity]. simpl.
    destruct (ls !! key) as [cached|]; [|reflexivity].
    destruct (truthy cached); [|reflexivity]. simpl.
    destruct (JSON_parse cached) as [entry|e]; [|reflexivity]. simpl.
    destruct (isFresh now (timestamp entry)); [reflexivity|]. simpl.
    apply lookup_delete_ne. now apply Hne.
Qed.

(** X7.  An entry that cannot be read is a miss.  When the stored text is
    empty or [JSON.parse] throws on it, the read returns null and leaves
    the entry where it is; when it parses to something whose timestamp is
    no number, the read returns null and removes the entry. *)
Theorem X7_unreadable_entry url now ls key cached :
  getCacheKey url = Normal key -> ls !! key = Some cached ->
  (truthy cached = false ->
   getCachedData JSON_parse url now ls = (VNull, ls)) /\
  (forall e, truthy cached = true -> JSON_parse cached = Throw e ->
   getCachedData JSON_parse url now ls = (VNull, ls)) /\
  (forall d, truthy cached = true ->
   JSON_parse cached = Normal {| data := d; timestamp := None |} ->
   getCachedData JSON_parse url now ls = (VNull, delete key ls)).
Proof.
  intros Hk Hc. unfold getCachedData. rewrite Hk. simpl. rewrite Hc.
  split; [|split].
  - now intros ->.
  - intros e -> ->. reflexivity.
  - intros d -> ->. reflexivity.
Qed.

End CacheMore.

(** ** More on the retries *)

Section FetcherMore.

Import Fetcher Backoff.

Variable net : network.

Lemma attemptOnce_succeeds url w t :
  succeeds (net (calls w) url) t ->
  attemptOnce net url w =
  (Normal t, {| calls := S (calls w); trace := trace w ++ [Fetch url] |}).
Proof.
  intros (resp & Hr & Hok & Ht).
  unfold attemptOnce, bind, fetch. rewrite Hr, Hok. simpl.
  unfold lift. now rewrite Ht.
Qed.

(** An attempt fails with its failure, or succeeds with a text. *)
Lemma attempt_cases (r : completion jserror response) :
  (exists e, failureOf r = Some e) \/ (exists t, succeeds r t).
Proof.
  destruct r as [resp|e]; [|left; eexists; reflexivity].
  unfold failureOf. destruct (ok resp) eqn:Hok; simpl.
  - destruct (text resp) as [t|e] eqn:Ht.
    + right. exists t, resp. auto.
    + left. eexists. reflexivity.
  - left. eexists. reflexivity.
Qed.

Lemma rounds_S url k :
  rounds url (S k) = rounds url k ++ [Fetch url; Sleep (2 ^ Z.of_nat k * 1000)].
Proof.
  unfold rounds. rewrite seq_S, flat_map_app. reflexivity.
Qed.

Lemma timed_app tr1 tr2 : timed tr1 -> timed tr2 -> timed (tr1 ++ tr2).
Proof. intros H1 H2. apply Forall_app. now split. Qed.

(** While fewer than [TIMED_RETRIES] attempts have failed, every delay is
    within the range of [setTimeout]. *)
Lemma rounds_timed url k :
  (Z.of_nat k < TIMED_RETRIES)%Z -> timed (rounds url k).
Proof.
  induction k as [|k IH]; intros Hk; [constructor|].
  rewrite rounds_S. apply timed_app; [apply IH; lia|].
  constructor; [exact I|]. constructor; [|constructor].
  assert (0 < 2 ^ Z.of_nat k <= 2 ^ 21)%Z as Hpow.
  { split; [apply Z.pow_pos_nonneg; lia|].
    apply Z.pow_le_mono_r; unfold TIMED_RETRIES in Hk; lia. }
  unfold TIMEOUT_MAX.
  change (2 ^ 21)%Z with 2097152%Z in Hpow.
  change (2 ^ 31 - 1)%Z with 2147483647%Z. lia.
Qed.

Lemma run_timed url k :
  (Z.of_nat k < TIMED_RETRIES)%Z -> timed (rounds url k ++ [Fetch url]).
Proof.
  intros Hk. apply timed_app; [now apply rounds_timed|].
  constructor; [exact I|constructor].
Qed.

(** One attempt more, and the last delay is out of the range. *)
Lemma rounds_not_timed url : ~ timed (rounds url (Z.to_nat TIMED_RETRIES)).
Proof.
  intros H. unfold timed in H. rewrite Forall_forall in H.
  specialize (H (Sleep (2 ^ 22 * 1000))).
  assert (Sleep (2 ^ 22 * 1000) ∈ rounds url (Z.to_nat TIMED_RETRIES)) as Hin.
  { change (Z.to_nat TIMED_RETRIES) with 23%nat.
    rewrite rounds_S. apply elem_of_app. right.
    apply list_elem_of_further, list_elem_of_here. }
  specialize (H Hin). cbv beta iota in H. vm_compute in H.
  destruct H as [_ H]. now apply H.
Qed.

Lemma flat_map_seq_shift {A} (f : nat -> list A) k : forall a,
  flat_map f (seq (S a) k) = flat_map (fun i => f (S i)) (seq a k).
Proof.
  induction k as [|k IH]; intros a; [reflexivity|].
  simpl. now rewrite IH.
Qed.

(** The failing attempts that are not the last are rounds. *)
Lemma failingTrace_rounds url maxRetries k : forall attempt,
  (0 <= attempt)%Z -> (attempt + Z.of_nat k < maxRetries)%Z ->
  failingTrace k url maxRetries attempt =
  flat_map (fun i => [Fetch url; Sleep (2 ^ (attempt + Z.of_nat i) * 1000)])
    (seq 0 k).
Proof.
  induction k as [|k IH]; intros attempt Ha Hlt; [reflexivity|].
  cbn [failingTrace]. replace (attempt + 1 <? maxRetries)%Z with true
    by (symmetry; apply Z.ltb_lt; lia).
  unfold delayBefore. replace (attempt + 1 - 1)%Z with attempt by lia.
  rewrite IH by lia. cbn [seq flat_map]. rewrite Z.add_0_r. simpl app.
  do 2 f_equal. rewrite flat_map_seq_shift. apply flat_map_ext. intros i.
  now replace (attempt + 1 + Z.of_nat i)%Z with (attempt + Z.of_nat (S i))%Z by lia.
Qed.

Lemma failingTrace_rounds_0 url maxRetries k :
  (Z.of_nat k < maxRetries)%Z ->
  failingTrace k url maxRetries 0 = rounds url k.
Proof.
  intros H. rewrite failingTrace_rounds by lia. reflexivity.
Qed.

Lemma failingTrace_last url maxRetries k : forall attempt,
  (0 <= attempt)%Z -> (attempt + Z.of_nat (S k) = maxRetries)%Z ->
  failingTrace (S k) url maxRetries attempt =
  failingTrace k url maxRetries attempt ++ [Fetch url].
Proof.
  induction k as [|k IH]; intros attempt Ha Heq.
  - cbn [failingTrace]. replace (attempt + 1 <? maxRetries)%Z with false
      by (symmetry; apply Z.ltb_ge; lia). reflexivity.
  - cbn [failingTrace] in *.
    replace (attempt + 1 <? maxRetries)%Z with true
      by (symmetry; apply Z.ltb_lt; lia).
    specialize (IH (attempt + 1)%Z). cbn [failingTrace] in IH.
    rewrite IH by lia. reflexivity.
Qed.

(** [k] failing attempts and then a success. *)
Lemma retryLoop_success_after url maxRetries (errs : nat -> jserror) t k :
  forall fuel attempt lastError w,
    (k < fuel)%nat ->
    (Z.of_nat fuel = maxRetries - attempt)%Z -> (0 <= attempt)%Z ->
    (forall i, (i < k)%nat ->
       failureOf (net (calls w + i)%nat url) = Some (errs (calls w + i)%nat)) ->
    succeeds (net (calls w + k)%nat url) t ->
    retryLoop net fuel url maxRetries attempt lastError w =
    (Normal t,
     {| calls := (calls w + k + 1)%nat;
        trace := trace w ++ failingTrace k url maxRetries attempt ++ [Fetch url] |}).
Proof.
  induction k as [|k IH]; intros fuel attempt lastError w Hk Hfuel Hat Hfail Hok.
  - destruct fuel as [|fuel]; [lia|]. cbn [retryLoop failingTrace].
    unfold bind at 1, try. rewrite Nat.add_0_r in Hok.
    rewrite (attemptOnce_succeeds url w t Hok). unfold ret.
    f_equal. f_equal. lia.
  - destruct fuel as [|fuel]; [lia|]. cbn [retryLoop failingTrace].
    unfold bind at 1, try.
    rewrite (attemptOnce_fails net url w (errs (calls w))).
    2:{ specialize (Hfail 0%nat). rewrite Nat.add_0_r in Hfail.
        apply Hfail. lia. }
    replace (attempt <? maxRetries - 1)%Z with true
      by (symmetry; apply Z.ltb_lt; lia).
    replace (attempt + 1 <? maxRetries)%Z with true
      by (symmetry; apply Z.ltb_lt; lia).
    unfold delayBefore. replace (attempt + 1 - 1)%Z with attempt by lia.
    unfold bind, sleep. cbn [calls trace].
    rewrite (IH fuel (attempt + 1)%Z); cbn [calls trace]; try lia.
    + f_equal. f_equal; [lia|]. rewrite <- !app_assoc. reflexivity.
    + intros i Hi. replace (S (calls w) + i)%nat with (calls w + S i)%nat by lia.
      apply Hfail. lia.
    + now replace (S (calls w) + k)%nat with (calls w + S k)%nat by lia.
Qed.

(** X8.  When the first [k] attempts fail and the next one succeeds,
    with [k] less than the number of attempts allowed and that number at
    most 23, [fetchWithRetry] returns the text of that response after
    [k + 1] fetches; it has slept 1000, 2000, ... ms after the failures,
    every delay being within the range of [setTimeout], and does not
    sleep after the success. *)
Theorem X8_success_after_failures url n w k t (errs : nat -> jserror) :
  (k < n)%nat -> (Z.of_nat n <= TIMED_RETRIES)%Z ->
  (forall i, (i < k)%nat ->
     failureOf (net (calls w + i)%nat url) = Some (errs i)) ->
  succeeds (net (calls w + k)%nat url) t ->
  fetchWithRetry net url (Z.of_nat n) w =
  (Normal t,
   {| calls := (calls w + k + 1)%nat;
      trace := trace w ++ rounds url k ++ [Fetch url] |})
  /\ timed (rounds url k ++ [Fetch url]).
Proof.
  intros Hk Hn Hfail Hok. split; [|apply run_timed; lia].
  unfold fetchWithRetry. rewrite Nat2Z.id.
  rewrite (retryLoop_success_after url (Z.of_nat n)
             (fun c => errs (c - calls w)%nat) t k); try lia; try assumption.
  - now rewrite failingTrace_rounds_0 by lia.
  - intros i Hi. rewrite (Hfail i Hi). do 2 f_equal. lia.
Qed.

(** The run of the loop on any network: some failing attempts, and then a
    success or the last failure. *)
Lemma retryLoop_outcome url maxRetries fuel :
  forall attempt lastError w,
    (Z.of_nat (S fuel) = maxRetries - attempt)%Z -> (0 <= attempt)%Z ->
    exists j,
      (j <= fuel)%nat /\
      (forall i, (i < j)%nat ->
         exists e, failureOf (net (calls w + i)%nat url) = Some e) /\
      let w' := {| calls := (calls w + j + 1)%nat;
                   trace := trace w ++ failingTrace j url maxRetries attempt
                              ++ [Fetch url] |} in
      ((exists t, succeeds (net (calls w + j)%nat url) t /\
          retryLoop net (S fuel) url maxRetries attempt lastError w
          = (Normal t, w'))
       \/ (j = fuel /\ exists e,
             failureOf (net (calls w + j)%nat url) = Some e /\
             retryLoop net (S fuel) url maxRetries attempt lastError w
             = (Throw (Some e), w'))).
Proof.
  induction fuel as [|fuel IH]; intros attempt lastError w Hfuel Hat.
  - exists 0%nat. split; [lia|]. split; [intros i Hi; lia|].
    cbn zeta. rewrite !Nat.add_0_r.
    destruct (attempt_cases (net (calls w) url)) as [[e He] | [t Ht]].
    + right. split; [reflexivity|]. exists e. split; [exact He|].
      cbn [retryLoop failingTrace]. unfold bind at 1, try.
      rewrite (attemptOnce_fails net url w e He).
      replace (attempt <? maxRetries - 1)%Z with false
        by (symmetry; apply Z.ltb_ge; lia).
      unfold bind, ret, throw. cbn. do 2 f_equal. lia.
    + left. exists t. split; [exact Ht|].
      cbn [retryLoop failingTrace]. unfold bind at 1, try.
      rewrite (attemptOnce_succeeds url w t Ht). unfold ret.
      do 2 f_equal. lia.
  - destruct (attempt_cases (net (calls w) url)) as [[e He] | [t Ht]].
    + set (w1 := {| calls := S (calls w);
                    trace := (trace w ++ [Fetch url])
                               ++ [Sleep (2 ^ attempt * 1000)] |}).
      destruct (IH (attempt + 1)%Z (Some e) w1) as (j & Hj & Hfails & Hout);
        [lia | lia |].
      assert (Hstep : retryLoop net (S (S fuel)) url maxRetries attempt lastError w
                      = retryLoop net (S fuel) url maxRetries (attempt + 1) (Some e) w1).
      { cbn [retryLoop]. unfold bind at 1, try.
        rewrite (attemptOnce_fails net url w e He).
        replace (attempt <? maxRetries - 1)%Z with true
          by (symmetry; apply Z.ltb_lt; lia).
        reflexivity. }
      assert (Htrace : trace w ++ failingTrace (S j) url maxRetries attempt ++ [Fetch url]
                = trace w1 ++ failingTrace j url maxRetries (attempt + 1) ++ [Fetch url]).
      { cbn [failingTrace]. replace (attempt + 1 <? maxRetries)%Z with true
          by (symmetry; apply Z.ltb_lt; lia).
        unfold delayBefore. replace (attempt + 1 - 1)%Z with attempt by lia.
        subst w1. cbn [trace]. rewrite <- !app_assoc. reflexivity. }
      exists (S j). split; [lia|]. split.
      * intros [|i] Hi.
        -- rewrite Nat.add_0_r. eauto.
        -- replace (calls w + S i)%nat with (calls w1 + i)%nat
             by (subst w1; cbn; lia).
           apply Hfails. lia.
      * cbn zeta in *. rewrite Hstep, Htrace.
        replace (calls w + S j)%nat with (calls w1 + j)%nat
          by (subst w1; cbn; lia).
        replace (calls w1 + j + 1)%nat with (calls w1 + j + 1)%nat by lia.
        destruct Hout as [(t & Ht & Hrun) | (-> & e' & He' & Hrun)].
        -- left. exists t. split; [exact Ht|]. exact Hrun.
        -- right. split; [reflexivity|]. exists e'. split; [exact He'|]. exact Hrun.
    + exists 0%nat. split; [lia|]. split; [intros i Hi; lia|].
      cbn zeta. rewrite !Nat.add_0_r. left. exists t. split; [exact Ht|].
      cbn [retryLoop failingTrace]. unfold bind at 1, try.
      rewrite (attemptOnce_succeeds url w t Ht). unfold ret.
      do 2 f_equal. lia.
Qed.

End FetcherMore.

Section FetcherOutcomes.

Import Fetcher Backoff.

Variable net : network.

Lemma fetchWithRetry_outcome url (n : Z) w :
  (1 <= n)%Z ->
  exists j,
    (Z.of_nat j < n)%Z /\
    (forall i, (i < j)%nat ->
       exists e, failureOf (net (calls w + i)%nat url) = Some e) /\
    let w' := {| calls := (calls w + j + 1)%nat;
                 trace := trace w ++ rounds url j ++ [Fetch url] |} in
    ((exists t, succeeds (net (calls w + j)%nat url) t /\
        fetchWithRetry net url n w = (Normal t, w'))
     \/ (Z.of_nat j = n - 1 /\ exists e,
           failureOf (net (calls w + j)%nat url) = Some e /\
           fetchWithRetry net url n w = (Throw (Some e), w')))%Z.
Proof.
  intros Hn. unfold fetchWithRetry.
  destruct (Z.to_nat n) as [|fuel] eqn:Efuel; [lia|].
  destruct (retryLoop_outcome net url n fuel 0 None w) as (j & Hj & Hfails & Hout);
    [lia | lia |].
  exists j. split; [lia|]. split; [exact Hfails|].
  cbn zeta in *. rewrite failingTrace_rounds_0 in Hout by lia.
  destruct Hout as [Hok | (-> & Hfail)]; [now left | right].
  split; [lia | exact Hfail].
Qed.

(** When every attempt fails, the failure of the last is thrown. *)
Lemma fetchWithRetry_all_fail url m w (errs : nat -> jserror) :
  (forall i, (i <= m)%nat ->
     failureOf (net (calls w + i)%nat url) = Some (errs i)) ->
  fetchWithRetry net url (Z.of_nat (S m)) w =
  (Throw (Some (errs m)),
   {| calls := (calls w + S m)%nat;
      trace := trace w ++ rounds url m ++ [Fetch url] |}).
Proof.
  intros Hfail. unfold fetchWithRetry. rewrite Nat2Z.id.
  rewrite (retryLoop_all_fail net url (Z.of_nat (S m))
             (fun c => errs (c - calls w)%nat) (S m) 0 None w); try lia.
  - rewrite failingTrace_last by lia.
    rewrite failingTrace_rounds_0 by lia.
    do 3 f_equal. f_equal. lia.
  - intros k Hk. rewrite (Hfail k) by lia. do 2 f_equal. lia.
Qed.

(** X9.  On any network, a call that allows between 1 and 23 attempts
    makes [j + 1] fetches for some [j] less than the number allowed,
    sleeps 1000, 2000, ... ms after each of the first [j], which all
    failed, every delay being within the range of [setTimeout], and ends
    with a fetch: its result is the text of the last response when that
    succeeded; otherwise all the attempts allowed were made and the
    failure of the last one is thrown. *)
Theorem X9_run_on_any_network url (n : Z) w :
  (1 <= n <= TIMED_RETRIES)%Z ->
  exists j,
    (Z.of_nat j < n)%Z /\
    (forall i, (i < j)%nat ->
       exists e, failureOf (net (calls w + i)%nat url) = Some e) /\
    timed (rounds url j ++ [Fetch url]) /\
    let w' := {| calls := (calls w + j + 1)%nat;
                 trace := trace w ++ rounds url j ++ [Fetch url] |} in
    ((exists t, succeeds (net (calls w + j)%nat url) t /\
        fetchWithRetry net url n w = (Normal t, w'))
     \/ (Z.of_nat j = n - 1 /\ exists e,
           failureOf (net (calls w + j)%nat url) = Some e /\
           fetchWithRetry net url n w = (Throw (Some e), w')))%Z.
Proof.
  intros [Hn Hmax].
  destruct (fetchWithRetry_outcome url n w Hn) as (j & Hj & Hfails & Hout).
  exists j. split; [exact Hj|]. split; [exact Hfails|].
  split; [apply run_timed; lia|exact Hout].
Qed.

Lemma totalSleep_app tr1 tr2 :
  totalSleep (tr1 ++ tr2) = (totalSleep tr1 + totalSleep tr2)%Z.
Proof.
  induction tr1 as [|[u|ms] tr1 IH]; simpl; [reflexivity | exact IH |].
  unfold totalSleep in *. simpl. rewrite IH. lia.
Qed.

Lemma totalSleep_rounds url k :
  totalSleep (rounds url k) = ((2 ^ Z.of_nat k - 1) * 1000)%Z.
Proof.
  induction k as [|k IH]; [reflexivity|].
  rewrite rounds_S, totalSleep_app, IH.
  change (totalSleep [Fetch url; Sleep (2 ^ Z.of_nat k * 1000)])
    with (2 ^ Z.of_nat k * 1000 + 0)%Z.
  rewrite Nat2Z.inj_succ, Z.pow_succ_r by lia. lia.
Qed.

(** X10.  When all of [m + 1] attempts allowed fail, with [m + 1] at most
    23, [fetchWithRetry] makes [m + 1] fetches, throws the failure of the
    last, and has slept [(2^m - 1) * 1000] ms in all, every delay being
    within the range of [setTimeout]: 3000 ms for the three attempts of
    the default. *)
Theorem X10_all_attempts_fail url m w (errs : nat -> jserror) :
  (Z.of_nat (S m) <= TIMED_RETRIES)%Z ->
  (forall i, (i <= m)%nat ->
     failureOf (net (calls w + i)%nat url) = Some (errs i)) ->
  fetchWithRetry net url (Z.of_nat (S m)) w =
  (Throw (Some (errs m)),
   {| calls := (calls w + S m)%nat;
      trace := trace w ++ rounds url m ++ [Fetch url] |})
  /\ timed (rounds url m ++ [Fetch url])
  /\ totalSleep (rounds url m ++ [Fetch url]) = ((2 ^ Z.of_nat m - 1) * 1000)%Z.
Proof.
  intros Hm Hfail. split; [now apply fetchWithRetry_all_fail|].
  split; [apply run_timed; lia|].
  rewrite totalSleep_app, totalSleep_rounds. simpl. lia.
Qed.

(** X11.  With no attempt allowed, [fetchWithRetry] fetches nothing and
    throws [undefined].  With between 1 and 23 attempts allowed, what it
    throws is never [undefined]: it is the failure of the last attempt
    allowed, and all the attempts before it have failed. *)
Theorem X11_thrown_value url (n : Z) w :
  ((n <= 0)%Z -> fetchWithRetry net url n w = (Throw None, w)) /\
  ((1 <= n <= TIMED_RETRIES)%Z ->
   forall thrown, (fetchWithRetry net url n w).1 = Throw thrown ->
   exists e,
     thrown = Some e
     /\ failureOf (net (calls w + (Z.to_nat n - 1))%nat url) = Some e
     /\ (forall i, (i < Z.to_nat n - 1)%nat ->
          exists e', failureOf (net (calls w + i)%nat url) = Some e')
     /\ calls (fetchWithRetry net url n w).2 = (calls w + Z.to_nat n)%nat).
Proof.
  split.
  - intros Hn. unfold fetchWithRetry.
    replace (Z.to_nat n) with 0%nat by lia. reflexivity.
  - intros [Hn _] thrown Hthrown.
    destruct (fetchWithRetry_outcome url n w Hn) as (j & _ & Hfails & Hout).
    cbn zeta in Hout.
    destruct Hout as [(t & _ & Hrun) | (Hj & e & He & Hrun)];
      rewrite Hrun in Hthrown |- *; cbn [fst snd calls] in *;
      [discriminate|].
    injection Hthrown as <-.
    assert (j = (Z.to_nat n - 1)%nat) as -> by lia.
    exists e. repeat split; [exact He|exact Hfails|lia].
Qed.

End FetcherOutcomes.

(** ** More on the hook *)

Section ControllerMore.

Import Parser Controller.

Variable toLowerCase : jsstring -> jsstring.
Variable JSON_stringify : jsstring -> Z -> jsstring.
Variable JSON_parse : jsstring -> completion jserror Cache.parsedEntry.
Variable quotaExceeded : gmap jsstring jsstring -> jsstring -> jsstring -> bool.

Local Abbreviation parse := (parse toLowerCase).
Local Abbreviation step := (step toLowerCase JSON_stringify JSON_parse quotaExceeded).
Local Abbreviation run := (run toLowerCase JSON_stringify JSON_parse quotaExceeded).
Local Abbreviation runEffect := (runEffect toLowerCase JSON_parse).

(** X12.  With no URL the effect only ends the loading: the records that
    an earlier URL left stay, nothing is fetched and the storage is not
    read. *)
Theorem X12_no_url s g now :
  lastDeps s <> Some ([], g, retryTrigger (hook s)) ->
  let s1 := step s (Render [] g now) in
  hook s1 = setLoading false (hook s) /\
  data (hook s1) = data (hook s) /\
  localStorage s1 = localStorage s /\
  inflight s1 = inflight s /\ nextRequest s1 = nextRequest s.
Proof.
  intros Hd s1. subst s1. cbn [Controller.step].
  rewrite decide_False by exact Hd. cbn. auto.
Qed.

(** X13.  When the cache has nothing to show for the URL, the effect sets
    [loading], clears the error and leaves the records; the fetch it
    starts, when fulfilled, stores the filtered records of its text, ends
    the loading and writes the text to the cache, and when rejected,
    stores the message of the error, ends the loading and leaves the
    records. *)
Theorem X13_foreground_load s url g now :
  truthy url = true ->
  lastDeps s <> Some (url, g, retryTrigger (hook s)) ->
  toBoolean (Cache.getCachedData JSON_parse url now (localStorage s)).1 = false ->
  let s1 := step s (Render url g now) in
  let id := nextRequest s in
  (loading (hook s1) = true /\ error (hook s1) = None /\
   fromCache (hook s1) = false /\ data (hook s1) = data (hook s) /\
   inflight s1 !! id =
     Some {| req_url := url; req_gameType := g; req_branch := Foreground |})
  /\ (forall csv now',
        let s2 := step s1 (Settle id (Normal csv) now') in
        data (hook s2) = filterByGameType g (parse (VString csv)) /\
        loading (hook s2) = false /\ error (hook s2) = None /\
        localStorage s2 =
          Cache.setCachedData JSON_stringify quotaExceeded url csv now'
            (localStorage s1))
  /\ (forall err now',
        let s2 := step s1 (Settle id (Throw err) now') in
        error (hook s2) = Some (message err) /\ loading (hook s2) = false /\
        data (hook s2) = data (hook s) /\ localStorage s2 = localStorage s1).
Proof.
  intros Hu Hd Hmiss s1 id.
  destruct (Cache.getCachedData JSON_parse url now (localStorage s))
    as [cached ls] eqn:Hget.
  simpl in Hmiss.
  assert (Hs1 : s1 =
    {| hook := setFromCache false (setError None (setLoading true (hook s)));
       localStorage := ls;
       inflight := <[id := {| req_url := url; req_gameType := g;
                              req_branch := Foreground |}]> (inflight s);
       nextRequest := S (nextRequest s);
       lastDeps := Some (url, g, retryTrigger (hook s)) |}).
  { subst s1. cbn [Controller.step]. rewrite decide_False by exact Hd.
    unfold Controller.runEffect. rewrite Hu. simpl negb. cbv iota.
    rewrite Hget, Hmiss. reflexivity. }
  clearbody s1.
  assert (Hin : inflight s1 !! id =
            Some {| req_url := url; req_gameType := g; req_branch := Foreground |}).
  { rewrite Hs1. cbn [inflight]. apply lookup_insert_eq. }
  split; [|split].
  - rewrite Hin, Hs1. cbn. repeat split.
  - intros csv now' s2. subst s2. cbn [Controller.step]. rewrite Hin.
    unfold Controller.onFulfilled. cbn. rewrite Hs1. cbn. repeat split.
  - intros err now' s2. subst s2. cbn [Controller.step]. rewrite Hin.
    cbn. rewrite Hs1. cbn. repeat split.
Qed.

(** *** Running the effect again *)




(** *** From a fulfilled fetch to the next cache hit *)




End ControllerMore.

(** ** The error helpers *)

Section ErrorFacts.

Import Fetcher Backoff ErrorHelpers.

Lemma neutral_inv st :
  neutral st = true ->
  includes st (str "Failed to fetch") = false /\
  includes st (str "NetworkError") = false /\
  includes st (str "HTTP 404") = false /\
  includes st (str "HTTP 403") = false /\
  includes st (str "HTTP 500") = false /\
  includes st (str "HTTP 503") = false /\
  includes st (str "CORS") = false /\
  includes st (str "cross-origin") = false /\
  includes st (str "parse") = false /\
  includes st (str "JSON") = false.
Proof.
  unfold neutral, needles. cbn [forallb].
  rewrite !andb_true_iff, !negb_true_iff. tauto.
Qed.

Lemma startsWith_agree q st needle :
  startsWith (q ++ st) needle = true -> agree q needle = true.
Proof.
  revert needle. induction q as [|c q IH]; intros needle H; [now destruct needle|].
  destruct needle as [|d needle]; [reflexivity|].
  simpl in *. apply andb_true_iff in H as [H1 H2].
  rewrite H1. simpl. now apply IH.
Qed.

Lemma includes_cons c s needle :
  includes (c :: s) needle = startsWith (c :: s) needle || includes s needle.
Proof. reflexivity. Qed.

Lemma forallb_seq_shift (f : nat -> bool) n : forall a,
  forallb f (seq (S a) n) = forallb (fun i => f (S i)) (seq a n).
Proof.
  induction n as [|n IH]; intros a; [reflexivity|].
  simpl. now rewrite IH.
Qed.

(** An occurrence in [p ++ st] of a needle that cannot start in [p] is an
    occurrence in [st]. *)
Lemma includes_skip p st needle :
  noStart p needle = true -> includes (p ++ st) needle = includes st needle.
Proof.
  unfold noStart. intros H. apply andb_true_iff in H as [Hne H].
  induction p as [|c p IH]; [reflexivity|].
  cbn [length seq forallb] in H. apply andb_true_iff in H as [H0 H].
  change ((c :: p) ++ st) with (c :: (p ++ st)).
  rewrite includes_cons.
  replace (startsWith (c :: p ++ st) needle) with false.
  - simpl. apply IH. rewrite forallb_seq_shift in H. exact H.
  - symmetry. apply negb_true_iff in H0. simpl drop in H0.
    destruct (startsWith (c :: p ++ st) needle) eqn:E; [|reflexivity].
    apply (startsWith_agree (c :: p) st needle) in E. congruence.
Qed.

Lemma includes_prefix needle rest :
  includes (needle ++ rest) needle = true.
Proof.
  destruct needle as [|c needle]; [now destruct rest|].
  change ((c :: needle) ++ rest) with (c :: (needle ++ rest)).
  rewrite includes_cons.
  change (c :: needle ++ rest) with ((c :: needle) ++ rest).
  now rewrite startsWith_app.
Qed.

(** The chain of tests of [getErrorDetails] on a message that is not
    empty, by the title it ends with. *)
Lemma title_by_tests m :
  truthy m = true ->
  title (getErrorDetails (Error m)) =
  if includes m (str "Failed to fetch") || includes m (str "NetworkError")
  then str "Network Error"
  else if includes m (str "HTTP 404") then str "Sheet Not Found"
  else if includes m (str "HTTP 403") then str "Access Denied"
  else if includes m (str "HTTP 500") || includes m (str "HTTP 503")
  then str "Server Error"
  else if includes m (str "CORS") || includes m (str "cross-origin")
  then str "Security Error"
  else if includes m (str "parse") || includes m (str "JSON")
  then str "Data Format Error"
  else str "Connection Error".
Proof.
  intros Ht. unfold getErrorDetails. cbn [Js.message]. rewrite Ht.
  repeat (match goal with |- context [if ?b then _ else _] =>
            destruct b; try reflexivity end).
Qed.

Lemma httpError_message code (digits : jsstring) st :
  decimal code = digits ->
  httpError code st = Error ((str "HTTP " ++ digits ++ str ": ") ++ st).
Proof. intros <-. unfold httpError. now rewrite <- !app_assoc. Qed.

Ltac skip_prefix H :=
  rewrite includes_skip by (vm_compute; reflexivity); rewrite H.

Lemma succeeds_not_failure (r : completion jserror response) t :
  succeeds r t -> failureOf r = None.
Proof.
  intros (resp & -> & Hok & Ht). unfold failureOf. now rewrite Hok, Ht.
Qed.

(** The titles of the errors [fetchWithRetry] makes of a response outside
    the success range. *)
Lemma httpError_titles code st :
  neutral st = true ->
  (code = 404%Z -> title (getErrorDetails (httpError code st)) = str "Sheet Not Found") /\
  (code = 403%Z -> title (getErrorDetails (httpError code st)) = str "Access Denied") /\
  (code = 500%Z \/ code = 503%Z ->
   title (getErrorDetails (httpError code st)) = str "Server Error").
Proof.
  intros Hn.
  apply neutral_inv in Hn as (H1 & H2 & H3 & H4 & H5 & H6 & _).
  split; [|split].
  - intros ->. rewrite (httpError_message 404 (str "404")) by reflexivity.
    rewrite title_by_tests by reflexivity.
    skip_prefix H1. skip_prefix H2.
    change (str "HTTP " ++ str "404" ++ str ": ") with (str "HTTP 404" ++ str ": ").
    rewrite <- app_assoc, includes_prefix. reflexivity.
  - intros ->. rewrite (httpError_message 403 (str "403")) by reflexivity.
    rewrite title_by_tests by reflexivity.
    skip_prefix H1. skip_prefix H2. skip_prefix H3.
    change (str "HTTP " ++ str "403" ++ str ": ") with (str "HTTP 403" ++ str ": ").
    rewrite <- app_assoc, includes_prefix. reflexivity.
  - intros [-> | ->].
    + rewrite (httpError_message 500 (str "500")) by reflexivity.
      rewrite title_by_tests by reflexivity.
      skip_prefix H1. skip_prefix H2. skip_prefix H3. skip_prefix H4.
      change (str "HTTP " ++ str "500" ++ str ": ") with (str "HTTP 500" ++ str ": ").
      rewrite <- app_assoc, includes_prefix. reflexivity.
    + rewrite (httpError_message 503 (str "503")) by reflexivity.
      rewrite title_by_tests by reflexivity.
      skip_prefix H1. skip_prefix H2. skip_prefix H3. skip_prefix H4. skip_prefix H5.
      change (str "HTTP " ++ str "503" ++ str ": ") with (str "HTTP 503" ++ str ": ").
      rewrite <- app_assoc, includes_prefix. reflexivity.
Qed.

(** X16.  When the attempts before the last allowed fail and the last,
    of at most 23, is answered by a response outside the success range,
    [fetchWithRetry] throws the error [HTTP status: statusText] of that
    response after making every attempt; when the status text has none
    of the texts [getErrorDetails] looks for, [getErrorDetails] reports
    that error as Sheet Not Found for status 404, as Access Denied for
    403, and as Server Error for 500 and 503. *)
Theorem X16_http_failures_classified (net : network) url m w resp :
  (Z.of_nat (S m) <= TIMED_RETRIES)%Z ->
  (forall i, (i < m)%nat ->
     exists e, failureOf (net (calls w + i)%nat url) = Some e) ->
  net (calls w + m)%nat url = Normal resp ->
  ok resp = false -> neutral (statusText resp) = true ->
  exists e,
    fetchWithRetry net url (Z.of_nat (S m)) w
    = (Throw (Some e),
       {| calls := (calls w + S m)%nat;
          trace := trace w ++ rounds url m ++ [Fetch url] |}) /\
    Js.message e
    = str "HTTP " ++ decimal (status resp) ++ str ": " ++ statusText resp /\
    (status resp = 404%Z -> title (getErrorDetails e) = str "Sheet Not Found") /\
    (status resp = 403%Z -> title (getErrorDetails e) = str "Access Denied") /\
    (status resp = 500%Z \/ status resp = 503%Z ->
     title (getErrorDetails e) = str "Server Error").
Proof.
  intros _ Hfails Hresp Hok Hn.
  exists (httpError (status resp) (statusText resp)).
  split; [|split; [reflexivity|now apply httpError_titles]].
  destruct (fetchWithRetry_outcome net url (Z.of_nat (S m)) w ltac:(lia))
    as (j & Hj & _ & Hout).
  cbn zeta in Hout.
  assert (failureOf (net (calls w + m)%nat url)
          = Some (httpError (status resp) (statusText resp))) as Hlast.
  { rewrite Hresp. unfold failureOf, httpError. now rewrite Hok. }
  destruct Hout as [(t & Ht & _) | (Hjm & e & He & Hrun)].
  - exfalso. apply succeeds_not_failure in Ht.
    destruct (decide (j = m)) as [->|Hne]; [congruence|].
    destruct (Hfails j ltac:(lia)) as [e He]. congruence.
  - assert (j = m) as -> by lia.
    rewrite Hrun. rewrite Hlast in He. injection He as <-.
    replace (calls w + m + 1)%nat with (calls w + S m)%nat by lia.
    reflexivity.
Qed.

(** X17.  A message in which none of those texts occurs is reported as it
    is, under the title Connection Error. *)
Theorem X17_other_messages_pass_through msg :
  truthy msg = true -> neutral msg = true ->
  title (getErrorDetails (Error msg)) = str "Connection Error" /\
  ErrorHelpers.message (getErrorDetails (Error msg)) = msg.
Proof.
  intros Ht Hn.
  apply neutral_inv in Hn as (H1 & H2 & H3 & H4 & H5 & H6 & H7 & H8 & H9 & H10).
  unfold getErrorDetails. cbn [Js.message]. rewrite Ht.
  rewrite H1, H2, H3, H4, H5, H6, H7, H8, H9, H10. split; reflexivity.
Qed.

End ErrorFacts.

Section ScreenFacts.

Import Parser Controller ErrorHelpers.

Variable toLowerCase : jsstring -> jsstring.
Variable JSON_stringify : jsstring -> Z -> jsstring.
Variable JSON_parse : jsstring -> completion jserror Cache.parsedEntry.
Variable quotaExceeded : gmap jsstring jsstring -> jsstring -> jsstring -> bool.

Local Abbreviation step := (step toLowerCase JSON_stringify JSON_parse quotaExceeded).

(** X18.  When the fetch of a load without cache is rejected, the
    component shows the error screen with the details of the message of
    the error; when that message is empty it shows the game, with the
    records as they were, and no error. *)
Theorem X18_screen_after_failed_load s id r err now :
  inflight s !! id = Some r -> req_branch r = Foreground ->
  let s1 := step s (Settle id (Throw err) now) in
  (truthy (Js.message err) = true ->
   screenOf (hook s1) = ErrorScreen (getErrorDetails (Error (Js.message err)))) /\
  (truthy (Js.message err) = false ->
   screenOf (hook s1) = Game /\ data (hook s1) = data (hook s)).
Proof.
  intros Hr Hb s1. subst s1. cbn [Controller.step]. rewrite Hr.
  unfold onRejected. rewrite Hb. unfold screenOf. cbn.
  split; intros ->; auto.
Qed.

End ScreenFacts.

(** ** The settings *)

Section SettingsFacts.

Import Settings.

Lemma startsWith_split s p :
  startsWith s p = true -> s = p ++ drop (length p) s.
Proof.
  revert s. induction p as [|c p IH]; intros s H; [now destruct s|].
  destruct s as [|d s]; [discriminate|]. simpl in H.
  apply andb_true_iff in H as [H1 H2]. apply N.eqb_eq in H1. subst d.
  simpl. f_equal. now apply IH.
Qed.

Lemma star_stop cls s k : k s = true -> star cls s k = true.
Proof.
  intros H. destruct s as [|c s]; [exact H|]. simpl.
  destruct (cls c); [|exact H]. rewrite H. apply orb_true_r.
Qed.

Lemma star_run cls run : forall rest k,
  forallb cls run = true -> k rest = true -> star cls (run ++ rest) k = true.
Proof.
  induction run as [|c run IH]; intros rest k Hrun Hk.
  - now apply star_stop.
  - simpl in Hrun. apply andb_true_iff in Hrun as [Hc Hrun].
    simpl. rewrite Hc. rewrite IH by assumption. reflexivity.
Qed.

Lemma star_inv cls s : forall k,
  star cls s k = true ->
  exists run rest, forallb cls run = true /\ s = run ++ rest /\ k rest = true.
Proof.
  induction s as [|c s IH]; intros k H.
  - exists [], []. auto.
  - simpl in H. destruct (cls c) eqn:Hc.
    + apply orb_true_iff in H as [H | H].
      * destruct (IH k H) as (run & rest & Hrun & -> & Hk).
        exists (c :: run), rest. simpl. rewrite Hc, Hrun. auto.
      * exists [], (c :: s). auto.
    + exists [], (c :: s). auto.
Qed.

(** What the pattern accepts: the prefix of a sheet, [e/] or not, an
    identifier of letters, digits, underscores and dashes, the suffix of a
    CSV publication, and anything after it. *)
Lemma test_pattern_iff url :
  test googleSheetsPattern url = true <->
  exists e id rest,
    (e = [] \/ e = str "e/") /\ id <> [] /\ forallb isWordOrDash id = true /\
    url = SHEETS_PREFIX ++ e ++ id ++ PUB_CSV ++ rest.
Proof.
  unfold test, googleSheetsPattern. cbn [matchAt]. split.
  - intros H. apply andb_true_iff in H as [Hp H].
    apply startsWith_split in Hp.
    set (s1 := drop (length SHEETS_PREFIX) url) in *.
    assert (Hid : forall s,
      match s with
      | c :: s' =>
          isWordOrDash c
          && star isWordOrDash s'
               (fun s'0 => startsWith s'0 PUB_CSV && true)
      | [] => false
      end = true ->
      exists id rest, id <> [] /\ forallb isWordOrDash id = true /\
                      s = id ++ PUB_CSV ++ rest).
    { intros [|c s] Hs; [discriminate|].
      apply andb_true_iff in Hs as [Hc Hs].
      apply star_inv in Hs as (run & rest & Hrun & -> & Hk).
      rewrite andb_true_r in Hk. apply startsWith_split in Hk.
      exists (c :: run), (drop (length PUB_CSV) rest).
      split; [discriminate|]. split; [simpl; now rewrite Hc|].
      rewrite <- Hk. reflexivity. }
    apply orb_true_iff in H as [H | H].
    + apply andb_true_iff in H as [He H]. apply startsWith_split in He.
      destruct (Hid _ H) as (id & rest & Hne & Hcls & Hs).
      exists (str "e/"), id, rest. repeat split; auto.
      rewrite Hp. f_equal. rewrite He. f_equal. exact Hs.
    + destruct (Hid _ H) as (id & rest & Hne & Hcls & Hs).
      exists [], id, rest. repeat split; auto.
      rewrite Hp. f_equal. exact Hs.
  - intros (e & id & rest & He & Hne & Hcls & ->).
    rewrite startsWith_app, drop_app_length. cbn [andb].
    assert (Hid :
      match id ++ PUB_CSV ++ rest with
      | c :: s' =>
          isWordOrDash c
          && star isWordOrDash s'
               (fun s'0 => startsWith s'0 PUB_CSV && true)
      | [] => false
      end = true).
    { destruct id as [|c id]; [congruence|]. simpl in Hcls.
      apply andb_true_iff in Hcls as [Hc Hcls].
      change ((c :: id) ++ PUB_CSV ++ rest) with (c :: (id ++ PUB_CSV ++ rest)).
      cbv beta iota. rewrite Hc. cbn [andb]. apply star_run; [exact Hcls|].
      cbv beta. now rewrite startsWith_app. }
    destruct He as [-> | ->].
    + rewrite app_nil_l, Hid. apply orb_true_r.
    + apply orb_true_iff. left.
      rewrite startsWith_app, drop_app_length. cbn [andb]. exact Hid.
Qed.

(** X19.  [validateGoogleSheetUrl] accepts a URL exactly when it is
    [https://docs.google.com/spreadsheets/d/], then [e/] or nothing, then
    one or more letters, digits, underscores or dashes, then
    [/pub?output=csv], then anything at all. *)
Theorem X19_accepted_urls url :
  validateGoogleSheetUrl url = [] <->
  exists e id rest,
    (e = [] \/ e = str "e/") /\ id <> [] /\ forallb isWordOrDash id = true /\
    url = SHEETS_PREFIX ++ e ++ id ++ PUB_CSV ++ rest.
Proof.
  unfold validateGoogleSheetUrl. split.
  - intros H.
    destruct (negb (truthy url) || negb (truthy (trim url))); [discriminate|].
    destruct (test googleSheetsPattern url) eqn:E; [|discriminate].
    now apply test_pattern_iff.
  - intros H. pose proof H as (e & id & rest & _ & _ & _ & ->).
    apply test_pattern_iff in H. rewrite H.
    replace (truthy _) with true by reflexivity.
    replace (truthy (trim _)) with true; [reflexivity|].
    symmetry. rewrite truthy_trim. reflexivity.
Qed.

End SettingsFacts.

(** ** The settings and the cache *)

Section SettingsCache.

Import Settings Cache.

Lemma accepted_has_prefix url :
  validateGoogleSheetUrl url = [] -> exists rest, url = SHEETS_PREFIX ++ rest.
Proof.
  intros H. unfold validateGoogleSheetUrl in H.
  destruct (negb (truthy url) || negb (truthy (trim url))); [discriminate|].
  destruct (test googleSheetsPattern url) eqn:E; [|discriminate].
  apply test_pattern_iff in E as (e & id & rest & _ & _ & _ & ->).
  eexists. reflexivity.
Qed.

Lemma sheets_key rest :
  isLatin1 (SHEETS_PREFIX ++ rest) = true ->
  getCacheKey (SHEETS_PREFIX ++ rest) = Normal SHEETS_KEY.
Proof.
  intros Hl. rewrite getCacheKey_prefix.
  - rewrite take_app_le by (vm_compute; lia). vm_compute. reflexivity.
  - exact Hl.
  - rewrite length_app. assert (length SHEETS_PREFIX = 39%nat) by reflexivity. lia.
Qed.

(** X20.  Every URL that [validateGoogleSheetUrl] accepts and [btoa] can
    encode has one and the same cache key: the 50 characters kept of its
    encoding are those of the prefix all such URLs share.  The math sheet
    and the English sheet so have one cache entry between them. *)
Theorem X20_accepted_urls_share_one_key url :
  validateGoogleSheetUrl url = [] -> isLatin1 url = true ->
  getCacheKey url = Normal SHEETS_KEY.
Proof.
  intros Hv Hl. destruct (accepted_has_prefix url Hv) as [rest ->].
  now apply sheets_key.
Qed.

End SettingsCache.

Section SheetsShareTheCache.

Import Parser Controller Settings.

Variable toLowerCase : jsstring -> jsstring.
Variable JSON_stringify : jsstring -> Z -> jsstring.
Variable JSON_parse : jsstring -> completion jserror Cache.parsedEntry.
Variable quotaExceeded : gmap jsstring jsstring -> jsstring -> jsstring -> bool.

Local Abbreviation parse := (parse toLowerCase).
Local Abbreviation step := (step toLowerCase JSON_stringify JSON_parse quotaExceeded).


End SheetsShareTheCache.

(** ** The clock display *)

Section DisplayFacts.

Import Display.

Lemma two_digits_below_100 :
  forallb (fun k => bool_decide
             (padStart2 (Fetcher.decimal (Z.of_nat k))
              = [digit (Z.of_nat k / 10); digit (Z.of_nat k mod 10)]))
          (seq 0 100) = true.
Proof. vm_compute. reflexivity. Qed.

Lemma padStart2_decimal (n : Z) :
  (0 <= n < 100)%Z ->
  padStart2 (Fetcher.decimal n) = [digit (n / 10); digit (n mod 10)].
Proof.
  intros Hn.
  pose proof two_digits_below_100 as H.
  rewrite forallb_forall in H.
  specialize (H (Z.to_nat n)).
  rewrite Z2Nat.id in H by lia.
  assert (Hin : In (Z.to_nat n) (seq 0 100)) by (apply in_seq; lia).
  specialize (H Hin). now apply bool_decide_eq_true in H.
Qed.

(** X22.  For a time below a hundred minutes [formatTime] is five
    characters: the minutes in two digits, a colon, the seconds of the
    minute in two digits. *)
Theorem X22_formatTime_mm_ss (s : Z) :
  (0 <= s < 6000)%Z ->
  formatTime s
  = [digit (s / 60 / 10); digit ((s / 60) mod 10); 58;
     digit (s mod 60 / 10); digit ((s mod 60) mod 10)].
Proof.
  intros Hs. unfold formatTime.
  rewrite Z.rem_mod_nonneg by lia.
  assert (0 <= s / 60 < 100)%Z.
  { split; [apply Z.div_pos; lia | apply Z.div_lt_upper_bound; lia]. }
  assert (0 <= s mod 60 < 100)%Z by (pose proof (Z.mod_pos_bound s 60); lia).
  rewrite !padStart2_decimal by assumption. reflexivity.
Qed.

Lemma X22_witness :
  (0 <= 83 < 6000)%Z /\ formatTime 83 = str "01:23".
Proof.
  split; [lia|]. rewrite (X22_formatTime_mm_ss 83) by lia. reflexivity.
Defined.

End DisplayFacts.

(** ** The leaderboard *)

Section ScoreFacts.

Import Scores.

Lemma insertByStars_perm x l : insertByStars x l ≡ₚ x :: l.
Proof.
  induction l as [|y l IH]; simpl; [reflexivity|].
  destruct (stars x <? stars y)%Z; [|reflexivity].
  rewrite IH. apply Permutation_swap.
Qed.

Lemma sortByStars_perm l : sortByStars l ≡ₚ l.
Proof.
  induction l as [|x l IH]; simpl; [reflexivity|].
  rewrite insertByStars_perm. now rewrite IH.
Qed.

Lemma decreasing_nil : decreasing [].
Proof. intros i j a b _ H. now rewrite lookup_nil in H. Qed.

Lemma decreasing_cons x l :
  decreasing (x :: l)
  <-> Forall (fun y => (stars y <= stars x)%Z) l /\ decreasing l.
Proof.
  split.
  - intros H. split.
    + apply Forall_lookup_2. intros i y Hy.
      apply (H 0%nat (S i) x y); [lia|reflexivity|exact Hy].
    + intros i j a b Hij Ha Hb.
      apply (H (S i) (S j) a b); [lia|exact Ha|exact Hb].
  - intros [Hall Hl] i j a b Hij Ha Hb.
    destruct j as [|j]; [lia|]. simpl in Hb.
    destruct i as [|i].
    + injection Ha as <-.
      exact (Forall_lookup_1 _ _ _ _ Hall Hb).
    + simpl in Ha. apply (Hl i j a b); [lia|exact Ha|exact Hb].
Qed.

Lemma insertByStars_decreasing x l :
  decreasing l -> decreasing (insertByStars x l).
Proof.
  induction l as [|y l IH]; simpl; intros Hl.
  - apply decreasing_cons. split; [constructor|exact Hl].
  - destruct (stars x <? stars y)%Z eqn:E.
    + apply decreasing_cons in Hl as [Hall Hl].
      apply decreasing_cons. split; [|now apply IH].
      rewrite insertByStars_perm. constructor; [lia|exact Hall].
    + apply decreasing_cons. split; [|exact Hl].
      apply decreasing_cons in Hl as [Hall Hl].
      constructor; [lia|].
      eapply Forall_impl; [exact Hall|]. intros z Hz. simpl in Hz. lia.
Qed.

Lemma sortByStars_decreasing l : decreasing (sortByStars l).
Proof.
  induction l as [|x l IH]; simpl.
  - apply decreasing_nil.
  - now apply insertByStars_decreasing.
Qed.

(** Entries of equal stars keep their order. *)
Lemma insertByStars_stable v x l :
  List.filter (fun s => (stars s =? v)%Z) (insertByStars x l)
  = List.filter (fun s => (stars s =? v)%Z) (x :: l).
Proof.
  induction l as [|y l IH]; [reflexivity|].
  cbn [insertByStars].
  destruct (stars x <? stars y)%Z eqn:E; [|reflexivity].
  cbn [List.filter] in *. rewrite IH.
  destruct (stars x =? v)%Z eqn:Ex, (stars y =? v)%Z eqn:Ey;
    try reflexivity; lia.
Qed.

Lemma sortByStars_stable v l :
  List.filter (fun s => (stars s =? v)%Z) (sortByStars l)
  = List.filter (fun s => (stars s =? v)%Z) l.
Proof.
  induction l as [|x l IH]; [reflexivity|].
  cbn [sortByStars fold_right]. rewrite insertByStars_stable.
  cbn [List.filter]. fold (sortByStars l). now rewrite IH.
Qed.

(** X23.  The leaderboard shows ten scores of the chosen kind, or all of
    them if they are fewer, in decreasing stars, scores of equal stars in
    the order they were saved; no score left out has more stars than one
    that is shown. *)
Theorem X23_top_ten (filter : jsstring) (leaderboard : list score) :
  let all := filtered filter leaderboard in
  let shown := sorted filter leaderboard in
  length shown = Nat.min 10 (length all)
  /\ decreasing shown
  /\ (forall v, List.filter (fun s => (stars s =? v)%Z) shown
                `prefix_of` List.filter (fun s => (stars s =? v)%Z) all)
  /\ exists rest, shown ++ rest ≡ₚ all
       /\ forall x y, x ∈ shown -> y ∈ rest -> (stars y <= stars x)%Z.
Proof.
  intros all shown. subst shown. unfold sorted. fold all.
  pose proof (sortByStars_decreasing all) as Hd.
  pose proof (sortByStars_perm all) as Hp.
  split; [|split; [|split]].
  - rewrite length_take, (Permutation_length Hp). reflexivity.
  - intros i j a b Hij Ha Hb.
    apply lookup_take_Some in Ha as [Ha _].
    apply lookup_take_Some in Hb as [Hb _].
    exact (Hd i j a b Hij Ha Hb).
  - intros v. rewrite <- (sortByStars_stable v all).
    rewrite <- (take_drop 10 (sortByStars all)) at 2.
    rewrite List.filter_app. now eexists.
  - exists (drop 10 (sortByStars all)). split.
    + now rewrite take_drop.
    + intros x y Hx Hy.
      apply list_elem_of_lookup in Hx as [i Hi].
      apply list_elem_of_lookup in Hy as [j Hj].
      apply lookup_take_Some in Hi as [Hi Hlt].
      rewrite lookup_drop in Hj.
      apply (Hd i (10 + j)%nat x y); [lia|exact Hi|exact Hj].
Qed.

Lemma findMathGame_isMath id : findMathGame id = isMath id.
Proof. reflexivity. Qed.

Lemma filtered_all lb : filtered (str "all") lb = lb.
Proof. reflexivity. Qed.

Lemma elem_of_filtered_math s lb :
  s ∈ filtered (str "math") lb <-> s ∈ lb /\ isMath (game s) = true.
Proof.
  unfold filtered.
  replace (bool_decide (str "math" = str "all")) with false
    by (vm_compute; reflexivity).
  replace (bool_decide (str "math" = str "math")) with true
    by (vm_compute; reflexivity).
  rewrite !list_elem_of_In, filter_In. reflexivity.
Qed.

Lemma elem_of_filtered_english s lb :
  s ∈ filtered (str "english") lb <-> s ∈ lb /\ isMath (game s) = false.
Proof.
  unfold filtered.
  replace (bool_decide (str "english" = str "all")) with false
    by (vm_compute; reflexivity).
  replace (bool_decide (str "english" = str "math")) with false
    by (vm_compute; reflexivity).
  rewrite !list_elem_of_In, filter_In, negb_true_iff. reflexivity.
Qed.

(** X24.  The math and the english leaderboards split the scores by the
    sheet the game read: a score is on the math board when its game took
    its questions from the math sheet, on the english board when it took
    them from the english sheet, and on exactly one of the two. *)
Theorem X24_boards_follow_the_sheet
    (mathSheetUrl englishSheetUrl : jsstring) (leaderboard : list score)
    (s : score) :
  mathSheetUrl <> englishSheetUrl -> s ∈ leaderboard ->
  (s ∈ filtered (str "math") leaderboard
   <-> sheetUrl mathSheetUrl englishSheetUrl (game s) = mathSheetUrl)
  /\ (s ∈ filtered (str "english") leaderboard
      <-> sheetUrl mathSheetUrl englishSheetUrl (game s) = englishSheetUrl)
  /\ (s ∈ filtered (str "math") leaderboard
      <-> s ∉ filtered (str "english") leaderboard)
  /\ s ∈ filtered (str "all") leaderboard.
Proof.
  intros Hne Hs.
  rewrite elem_of_filtered_math, elem_of_filtered_english, filtered_all.
  unfold sheetUrl. destruct (isMath (game s)); intuition congruence.
Qed.

Lemma fold_totalStars lb acc :
  fold_left (fun sum e => (sum + stars e)%Z) lb acc
  = (acc + totalStars lb)%Z.
Proof.
  unfold totalStars. revert acc.
  induction lb as [|e lb IH]; intros acc; cbn [fold_left]; [lia|].
  rewrite (IH (acc + stars e)%Z), (IH (0 + stars e)%Z). lia.
Qed.

Lemma totalStars_app lb lb' :
  totalStars (lb ++ lb') = (totalStars lb + totalStars lb')%Z.
Proof.
  unfold totalStars at 1. rewrite fold_left_app, fold_totalStars.
  fold (totalStars lb). lia.
Qed.

Lemma bestStreak_snoc lb e :
  bestStreak (lb ++ [e]) = Z.max (bestStreak lb) (orZero (streak e)).
Proof. unfold bestStreak. now rewrite fold_left_app. Qed.

Lemma bestStreak_bounds lb :
  (0 <= bestStreak lb)%Z
  /\ Forall (fun e => (streak e <= bestStreak lb)%Z) lb.
Proof.
  induction lb as [|e lb [IH0 IH]] using rev_ind.
  - split; [reflexivity|constructor].
  - rewrite bestStreak_snoc. split; [lia|].
    apply Forall_app. split.
    + eapply Forall_impl; [exact IH|]. intros x Hx. simpl in Hx. lia.
    + constructor; [|constructor]. unfold orZero.
      destruct (streak e =? 0)%Z eqn:E; lia.
Qed.

End ScoreFacts.

(** ** The game *)

Section GameFacts.

Import Parser Scores Game.

Lemma startTime_bounds difficulty : (30 <= startTime difficulty <= 50)%Z.
Proof. unfold startTime. repeat case_bool_decide; lia. Qed.

Lemma points_bounds difficulty k :
  (0 <= k)%Z -> (15 <= points difficulty k)%Z.
Proof.
  intros Hk. unfold points. repeat case_bool_decide; try lia.
  apply Z.div_le_lower_bound; lia.
Qed.

Lemma generateQuestion_sameScore c random s :
  sameScore s (generateQuestion c random s).
Proof.
  unfold generateQuestion.
  destruct (getNextQuestion c.1 c.2 random (usedIndices s)) as [[i|] used];
    [destruct (c.1 !! i)|]; repeat split.
Qed.

Lemma consistent_settling difficulty s :
  consistent difficulty s -> settling difficulty s.
Proof. unfold consistent, settling. intuition. Qed.

Lemma timerEffect_consistent difficulty s :
  settling difficulty s -> consistent difficulty (timerEffect s).
Proof.
  intros (Hs & Hst & Ht & Ha & Ho). unfold timerEffect, ticking.
  destruct (gameActive s) eqn:Ea; cbn [andb].
  - destruct (0 <? timer s)%Z eqn:Et; cbn [andb].
    + assert (consistent difficulty s) as Hc.
      { repeat split; try tauto; try lia. }
      destruct (given (currentQ s)); [exact Hc|].
      now replace (timer s =? 0)%Z with false by lia.
    + replace (timer s =? 0)%Z with true by lia. cbn [andb].
      repeat split; cbn; try tauto; try lia; try discriminate.
  - rewrite andb_false_r. unfold consistent.
    repeat (split; [tauto|]). split; [congruence|tauto].
Qed.

Lemma timerEffect_fixed difficulty s :
  consistent difficulty s -> timerEffect s = s.
Proof.
  intros (_ & _ & _ & Ha & _). unfold timerEffect, ticking.
  destruct (gameActive s) eqn:Ea; cbn [andb].
  - destruct (Ha eq_refl) as [Ht _].
    destruct (0 <? timer s)%Z eqn:Et; [|lia]. cbn [andb].
    destruct (given (currentQ s)); [reflexivity|].
    now replace (timer s =? 0)%Z with false by lia.
  - now rewrite andb_false_r.
Qed.

Lemma sameScore_settling difficulty s s' :
  sameScore s s' -> settling difficulty s -> settling difficulty s'.
Proof.
  intros (E1 & E2 & E3 & E4 & E5 & E6 & _) H. unfold settling.
  rewrite E1, E2, E3, E4, E5, E6. exact H.
Qed.

Lemma startGame_settling difficulty qs random s :
  settling difficulty (startGame difficulty qs random s).
Proof.
  unfold startGame.
  eapply sameScore_settling; [apply generateQuestion_sameScore|].
  pose proof (startTime_bounds difficulty).
  repeat split; cbn; try lia; discriminate.
Qed.

Lemma handleAnswer_settling difficulty qs selected correct s :
  settling difficulty s ->
  settling difficulty (handleAnswer difficulty qs selected correct s).
Proof.
  intros H. unfold handleAnswer.
  destruct (negb (gameActive s) || given (feedback s)); [exact H|].
  destruct H as (Hs & Hst & Ht & Ha & Ho).
  pose proof (points_bounds difficulty (streak s)).
  case_bool_decide; repeat split; cbn; try tauto; try lia.
Qed.

Lemma feedbackTimeout_settling difficulty random s :
  settling difficulty s -> settling difficulty (feedbackTimeout random s).
Proof.
  intros H. unfold feedbackTimeout. destruct (timeouts s); [exact H|].
  eapply sameScore_settling; [apply generateQuestion_sameScore|exact H].
Qed.

Lemma tick_settling difficulty s :
  settling difficulty s -> settling difficulty (tick s).
Proof.
  intros H. unfold tick, ticking.
  destruct (gameActive s) eqn:Ea; cbn [andb]; [|exact H].
  destruct (0 <? timer s)%Z eqn:Et; cbn [andb]; [|exact H].
  destruct (given (currentQ s)); [|exact H].
  destruct H as (Hs & Hst & Ht & Ha & Ho).
  repeat split; cbn; try tauto; try lia.
  intros Hover. rewrite Ha in Hover by exact Ea. discriminate.
Qed.

Lemma step_consistent difficulty gameId a e :
  consistent difficulty (play a) ->
  consistent difficulty (play (step difficulty gameId a e)).
Proof.
  intros H. apply consistent_settling in H.
  unfold step. cbn [onPlay play]. apply timerEffect_consistent.
  destruct e; cbn [onPlay play].
  - apply startGame_settling.
  - now apply handleAnswer_settling.
  - now apply feedbackTimeout_settling.
  - now apply tick_settling.
  - exact H.
  - unfold handleSaveScore.
    destruct (negb (truthy (trim (playerName (play a))))); exact H.
Qed.

Lemma run_consistent difficulty gameId a es :
  consistent difficulty (play a) ->
  consistent difficulty (play (run difficulty gameId a es)).
Proof.
  unfold run. revert a.
  induction es as [|e es IH]; intros a H; [exact H|].
  cbn [fold_left]. apply IH. now apply step_consistent.
Qed.

Lemma initial_consistent difficulty : consistent difficulty (initial difficulty).
Proof.
  pose proof (startTime_bounds difficulty).
  repeat split; cbn; try lia; discriminate.
Qed.

(** X25.  Whatever happens to a game, in any order: the streak is between
    0 and the best streak, the stars are not negative, the clock is
    between 0 and the time of the difficulty; an active game has time
    left and is not over, and a game that is over has no time left. *)
Theorem X25_game_invariants (difficulty gameId : jsstring)
    (leaderboard : list score) (events : list event) :
  consistent difficulty
    (play (run difficulty gameId (mounted leaderboard difficulty) events)).
Proof. apply run_consistent, initial_consistent. Qed.

End GameFacts.

(** *** Saving a score *)

Section SavingFacts.

Import Parser Scores Game.

(** The entry [handleSaveScore] hands to [handleGameEnd]. *)
Lemma step_leaderboard difficulty gameId a e :
  leaderboard (step difficulty gameId a e) = leaderboard a
  \/ exists now,
       e = SaveScore now
       /\ truthy (trim (playerName (play a))) = true
       /\ leaderboard (step difficulty gameId a e)
          = leaderboard a
            ++ [{| game := gameId; name := playerName (play a);
                   Scores.stars := Game.stars (play a);
                   Scores.streak := maxStreak (play a); date := now |}].
Proof.
  destruct e; try (left; reflexivity).
  unfold step, handleSaveScore.
  destruct (truthy (trim (playerName (play a)))) eqn:E; cbn [negb];
    [right|left; reflexivity].
  exists now. repeat split.
Qed.

Lemma over_step difficulty gameId a e :
  gameOver (play a) = true -> gameActive (play a) = false ->
  isStart e = false ->
  let a' := step difficulty gameId a e in
  Game.stars (play a') = Game.stars (play a)
  /\ maxStreak (play a') = maxStreak (play a)
  /\ gameOver (play a') = true /\ gameActive (play a') = false.
Proof.
  intros Ho Ha He a'.
  assert (forall s, Game.stars s = Game.stars (play a)
                    /\ maxStreak s = maxStreak (play a)
                    /\ gameOver s = true /\ gameActive s = false ->
          Game.stars (timerEffect s) = Game.stars (play a)
          /\ maxStreak (timerEffect s) = maxStreak (play a)
          /\ gameOver (timerEffect s) = true
          /\ gameActive (timerEffect s) = false) as Heff.
  { intros s (E1 & E2 & E3 & E4). unfold timerEffect, ticking.
    rewrite E4. cbn [andb]. rewrite andb_false_r. tauto. }
  subst a'. unfold step. cbn [onPlay play]. apply Heff.
  destruct e; cbn [onPlay play]; try discriminate.
  - unfold handleAnswer. rewrite Ha. cbn [negb orb]. tauto.
  - unfold feedbackTimeout. destruct (timeouts (play a)); [tauto|].
    match goal with
    | |- context [generateQuestion ?c ?r ?s] =>
        destruct (generateQuestion_sameScore c r s)
          as (E1 & _ & E3 & E4 & _ & E6 & _)
    end.
    rewrite E1, E3, E4, E6. cbn. tauto.
  - unfold tick, ticking. rewrite Ha. cbn [andb]. tauto.
  - cbn. tauto.
  - unfold handleSaveScore.
    destruct (negb (truthy (trim (playerName (play a))))); cbn; tauto.
Qed.

Lemma over_run difficulty gameId a es :
  gameOver (play a) = true -> gameActive (play a) = false ->
  forallb (fun e => negb (isStart e)) es = true ->
  let a' := run difficulty gameId a es in
  Game.stars (play a') = Game.stars (play a)
  /\ maxStreak (play a') = maxStreak (play a)
  /\ gameOver (play a') = true
  /\ exists added,
       leaderboard a' = leaderboard a ++ added
       /\ Forall (fun e => game e = gameId
                           /\ Scores.stars e = Game.stars (play a)
                           /\ Scores.streak e = maxStreak (play a)) added.
Proof.
  revert a. induction es as [|e es IH]; intros a Ho Ha Hes a'.
  - repeat split; try assumption. exists []. split; [|constructor].
    subst a'. cbn. now rewrite app_nil_r.
  - cbn [forallb] in Hes. apply andb_true_iff in Hes as [He Hes].
    apply negb_true_iff in He.
    destruct (over_step difficulty gameId a e Ho Ha He)
      as (E1 & E2 & E3 & E4).
    destruct (IH _ E3 E4 Hes) as (F1 & F2 & F3 & added & F4 & F5).
    subst a'. unfold run in *. cbn [fold_left].
    rewrite F1, F2, E1, E2. repeat split; [exact F3|].
    rewrite E1, E2 in F5.
    destruct (step_leaderboard difficulty gameId a e)
      as [El | (now & _ & _ & El)].
    + exists added. rewrite F4, El. now split.
    + eexists (_ :: added). rewrite F4, El, <- app_assoc. split; [reflexivity|].
      constructor; [repeat split|exact F5].
Qed.

(** X26.  Once a game is over, nothing but a new start changes its stars
    or its best streak, and every score saved from then on carries the
    stars and the best streak the game ended with. *)
Theorem X26_saved_score_is_final (difficulty gameId : jsstring)
    (lb : list score) (events later : list event) :
  let a := run difficulty gameId (mounted lb difficulty) events in
  let a' := run difficulty gameId a later in
  gameOver (play a) = true ->
  forallb (fun e => negb (isStart e)) later = true ->
  Game.stars (play a') = Game.stars (play a)
  /\ maxStreak (play a') = maxStreak (play a)
  /\ gameOver (play a') = true
  /\ exists added,
       leaderboard a' = leaderboard a ++ added
       /\ Forall (fun e => game e = gameId
                           /\ Scores.stars e = Game.stars (play a)
                           /\ Scores.streak e = maxStreak (play a)) added.
Proof.
  intros a a' Ho Hl. apply over_run; [exact Ho| |exact Hl].
  pose proof (run_consistent difficulty gameId (mounted lb difficulty) events
                (initial_consistent difficulty)) as (_ & _ & _ & Ha & _).
  fold a in Ha. destruct (gameActive (play a)); [|reflexivity].
  destruct (Ha eq_refl) as [_ Hf]. congruence.
Qed.

Lemma totalStars_nonneg l :
  Forall (fun e => (0 <= Scores.stars e)%Z) l -> (0 <= totalStars l)%Z.
Proof.
  induction 1 as [|e l He _ IH]; [reflexivity|].
  change (e :: l) with ([e] ++ l). rewrite totalStars_app.
  unfold totalStars at 1. cbn. lia.
Qed.

Lemma bestStreak_app_le l l' : (bestStreak l <= bestStreak (l ++ l'))%Z.
Proof.
  induction l' as [|e l' IH] using rev_ind.
  - rewrite app_nil_r. lia.
  - rewrite app_assoc, bestStreak_snoc. lia.
Qed.

Lemma run_leaderboard difficulty gameId a es :
  consistent difficulty (play a) ->
  exists added,
    leaderboard (run difficulty gameId a es) = leaderboard a ++ added
    /\ Forall (fun e => game e = gameId /\ (0 <= Scores.stars e)%Z
                        /\ (0 <= Scores.streak e)%Z) added.
Proof.
  unfold run. revert a. induction es as [|e es IH]; intros a Hc.
  - exists []. split; [|constructor]. cbn. now rewrite app_nil_r.
  - cbn [fold_left].
    destruct (IH _ (step_consistent difficulty gameId a e Hc))
      as (added & E & Hall).
    destruct (step_leaderboard difficulty gameId a e)
      as [El | (now & _ & _ & El)].
    + exists added. rewrite E, El. now split.
    + eexists (_ :: added). rewrite E, El, <- app_assoc.
      split; [reflexivity|].
      destruct Hc as (Hs & Hst & _).
      constructor; [cbn; repeat split; lia|exact Hall].
Qed.

(** X27.  Whatever happens in a game, the leaderboard only grows at its
    end: the scores it had stay in their places, the scores added are
    scores of this game with stars and streak that are not negative, and
    neither the total of the stars nor the best streak goes down. *)
Theorem X27_leaderboard_only_grows (difficulty gameId : jsstring)
    (lb : list score) (events : list event) :
  let lb' :=
    leaderboard (run difficulty gameId (mounted lb difficulty) events) in
  (exists added,
     lb' = lb ++ added
     /\ Forall (fun e => game e = gameId /\ (0 <= Scores.stars e)%Z
                         /\ (0 <= Scores.streak e)%Z) added)
  /\ (totalStars lb <= totalStars lb')%Z
  /\ (bestStreak lb <= bestStreak lb')%Z
  /\ (totalGames lb <= totalGames lb')%nat.
Proof.
  intros lb'.
  destruct (run_leaderboard difficulty gameId (mounted lb difficulty) events
              (initial_consistent difficulty)) as (added & E & Hall).
  cbn [mounted leaderboard] in E. fold lb' in E.
  split; [now exists added|]. rewrite E. split; [|split].
  - rewrite totalStars_app.
    assert (0 <= totalStars added)%Z; [|lia].
    apply totalStars_nonneg. eapply Forall_impl; [exact Hall|].
    cbn. tauto.
  - apply bestStreak_app_le.
  - unfold totalGames. rewrite length_app. lia.
Qed.

(** X28.  Saving a score under a name that is blank does nothing.
    Under any other name it puts one entry at the end of the leaderboard,
    with the stars and the best streak of the game: the total goes up by
    these stars, and the best streak is the larger of the old one and
    this one. *)
Theorem X28_save_score (difficulty gameId now : jsstring)
    (lb : list score) (events : list event) :
  let a := run difficulty gameId (mounted lb difficulty) events in
  let a' := step difficulty gameId a (SaveScore now) in
  if truthy (trim (playerName (play a))) then
    leaderboard a'
    = leaderboard a
      ++ [{| game := gameId; name := playerName (play a);
             Scores.stars := Game.stars (play a);
             Scores.streak := maxStreak (play a); date := now |}]
    /\ totalStars (leaderboard a')
       = (totalStars (leaderboard a) + Game.stars (play a))%Z
    /\ bestStreak (leaderboard a')
       = Z.max (bestStreak (leaderboard a)) (maxStreak (play a))
    /\ totalGames (leaderboard a') = S (totalGames (leaderboard a))
    /\ scoreSaved (play a') = true
  else a' = a.
Proof.
  intros a a'.
  pose proof (run_consistent difficulty gameId (mounted lb difficulty) events
                (initial_consistent difficulty)) as Hc.
  fold a in Hc. clearbody a.
  destruct (truthy (trim (playerName (play a)))) eqn:E.
  - assert (leaderboard a'
            = leaderboard a
              ++ [{| game := gameId; name := playerName (play a);
                     Scores.stars := Game.stars (play a);
                     Scores.streak := maxStreak (play a); date := now |}])
      as El.
    { subst a'. unfold step, handleSaveScore. rewrite E. reflexivity. }
    rewrite El. split; [reflexivity|].
    rewrite totalStars_app, bestStreak_snoc.
    unfold totalGames. rewrite length_app. cbn [length Scores.streak].
    split; [unfold totalStars at 2; cbn; lia|].
    split; [|split; [lia|]].
    + unfold orZero. destruct (maxStreak (play a) =? 0)%Z eqn:E0; lia.
    + subst a'. unfold step, handleSaveScore. rewrite E.
      cbn [negb onPlay play]. unfold timerEffect, ticking.
      cbn [setScoreSaved gameActive timer currentQ].
      destruct (gameActive (play a) && (0 <? timer (play a))%Z
                && given (currentQ (play a))); [reflexivity|].
      destruct ((timer (play a) =? 0)%Z && gameActive (play a));
        reflexivity.
  - subst a'. unfold step, handleSaveScore. rewrite E. cbn [negb].
    unfold onPlay. rewrite (timerEffect_fixed difficulty _ Hc).
    now destruct a.
Qed.

End SavingFacts.

(** *** The choice of the next question *)

Section QuestionFacts.

Import Parser Game.

Lemma available_In qs used i :
  In i (available qs used) <-> (i < length qs)%nat /\ i ∉ used.
Proof.
  unfold available. rewrite filter_In, in_seq, negb_true_iff.
  rewrite bool_decide_eq_false. intuition lia.
Qed.

Lemma available_all qs : available qs ∅ = seq 0 (length qs).
Proof.
  unfold available. generalize (seq 0 (length qs)) as l.
  induction l as [|i l IH]; [reflexivity|].
  cbn [List.filter]. rewrite IH.
  now rewrite bool_decide_eq_false_2 by apply not_elem_of_empty.
Qed.

Lemma randomIndex_In (l : list nat) random :
  l <> [] -> In (nth (randomIndex random (length l)) l 0%nat) l.
Proof.
  intros Hl. apply nth_In. unfold randomIndex.
  apply Nat.mod_upper_bound. now destruct l.
Qed.

Lemma length_eqb_nil {A} (l : list A) :
  (length l =? 0)%nat = match l with [] => true | _ => false end.
Proof. now destruct l. Qed.

(** A call while some question is unused. *)
Lemma getNextQuestion_fresh qs used random l :
  used = list_to_set l -> (forall i, In i l -> (i < length qs)%nat) ->
  NoDup l -> (length l < length qs)%nat ->
  exists i,
    getNextQuestion qs used random used = (Some i, used ∪ {[i]})
    /\ (i < length qs)%nat /\ ~ In i l.
Proof.
  intros -> Hlt Hnd Hlen.
  assert (available qs (list_to_set l) <> []) as Hav.
  { intros Hnil.
    assert (incl (seq 0 (length qs)) l) as Hincl.
    { intros i Hi. apply in_seq in Hi.
      destruct (decide (i ∈ (list_to_set l : gset nat))) as [Hin|Hout].
      - now apply elem_of_list_to_set, list_elem_of_In in Hin.
      - assert (In i (available qs (list_to_set l))) as Hia
          by (apply available_In; split; [lia|exact Hout]).
        rewrite Hnil in Hia. destruct Hia. }
    apply NoDup_incl_length in Hincl; [|apply seq_NoDup].
    rewrite length_seq in Hincl. lia. }
  pose proof (randomIndex_In _ random Hav) as Hin.
  apply available_In in Hin as [Hi Hout].
  exists (nth (randomIndex random (length (available qs (list_to_set l))))
            (available qs (list_to_set l)) 0%nat).
  split; [|split; [exact Hi|]].
  - unfold getNextQuestion. rewrite !length_eqb_nil.
    destruct qs as [|q qs]; [cbn in Hlen; lia|].
    destruct (available (q :: qs) (list_to_set l)); [congruence|reflexivity].
  - intros Hl. apply Hout, elem_of_list_to_set, list_elem_of_In, Hl.
Qed.

(** A call when every question is used is a call when none is. *)
Lemma getNextQuestion_restart qs random l :
  qs <> [] -> l ≡ₚ seq 0 (length qs) ->
  getNextQuestion qs (list_to_set l) random (list_to_set l)
  = getNextQuestion qs ∅ random ∅.
Proof.
  intros Hqs Hl. unfold getNextQuestion.
  rewrite available_all, !length_eqb_nil.
  destruct qs as [|q qs]; [congruence|].
  assert (available (q :: qs) (list_to_set l) = []) as ->.
  { destruct (available (q :: qs) (list_to_set l)) as [|i av] eqn:E;
      [reflexivity|exfalso].
    assert (In i (available (q :: qs) (list_to_set l))) as Hi
      by (rewrite E; now left).
    apply available_In in Hi as [Hi Hout]. apply Hout.
    apply elem_of_list_to_set. rewrite Hl. apply list_elem_of_In, in_seq. lia. }
  destruct (seq 0 (length (q :: qs))) eqn:E; [discriminate|reflexivity].
Qed.

Lemma asked_no_questions randoms used : asked [] randoms used = [].
Proof. now destruct randoms. Qed.

(** The calls of a round that starts with the indices of [l] used. *)
Lemma asked_round qs rest randoms l :
  NoDup l -> (forall i, In i l -> (i < length qs)%nat) ->
  (length l + length randoms <= length qs)%nat ->
  exists block,
    asked qs (randoms ++ rest) (list_to_set l)
    = block ++ asked qs rest (list_to_set (l ++ block))
    /\ length block = length randoms
    /\ NoDup (l ++ block)
    /\ (forall i, In i block -> (i < length qs)%nat).
Proof.
  revert l. induction randoms as [|random randoms IH]; intros l Hnd Hlt Hlen.
  - exists []. rewrite app_nil_r. repeat split; [exact Hnd|intros i []].
  - cbn [length] in Hlen.
    destruct (getNextQuestion_fresh qs (list_to_set l) random l
                eq_refl Hlt Hnd ltac:(lia)) as (i & Hnext & Hi & Hout).
    assert ((list_to_set l : gset nat) ∪ {[i]} = list_to_set (l ++ [i]))
      as Hset
      by (rewrite list_to_set_app_L; cbn; now rewrite (right_id_L ∅ (∪))).
    destruct (IH (l ++ [i])) as (block & E & Hb & Hnd' & Hlt').
    + apply NoDup_app. repeat split.
      * exact Hnd.
      * intros x Hx Hx'. apply list_elem_of_In in Hx.
        apply list_elem_of_singleton in Hx'. congruence.
      * apply NoDup_singleton.
    + intros j Hj. apply in_app_or in Hj as [Hj|[<-|[]]]; auto.
    + rewrite length_app. cbn. lia.
    + exists (i :: block).
      change ((random :: randoms) ++ rest)
        with (random :: (randoms ++ rest)).
      cbn [asked]. rewrite Hnext, Hset, E.
      rewrite <- !app_assoc in *.
      change ([i] ++ block) with (i :: block) in *.
      repeat split; [cbn; lia|exact Hnd'|].
      intros j [<-|Hj]; auto.
Qed.

Lemma full_round (qs : list record) (l : list nat) :
  NoDup l -> (forall i, In i l -> (i < length qs)%nat) ->
  length l = length qs -> l ≡ₚ seq 0 (length qs).
Proof.
  intros Hnd Hlt Hlen. apply NoDup_Permutation_bis.
  - now apply NoDup_ListNoDup.
  - rewrite length_seq. lia.
  - intros i Hi. apply in_seq. split; [lia|]. now apply Hlt.
Qed.

Lemma asked_rounds qs rounds used :
  used = ∅ \/ (exists l, l ≡ₚ seq 0 (length qs) /\ used = list_to_set l) ->
  Forall (fun randoms => length randoms = length qs) rounds ->
  exists blocks,
    asked qs (concat rounds) used = concat blocks
    /\ length blocks = length rounds
    /\ Forall (fun block => block ≡ₚ seq 0 (length qs)) blocks.
Proof.
  intros Hused Hall. revert used Hused.
  induction Hall as [|randoms rounds Hlen _ IH]; intros used Hused.
  - exists []. repeat split. constructor.
  - destruct qs as [|q qs].
    { exists (repeat [] (S (length rounds))).
      rewrite asked_no_questions, repeat_length. repeat split.
      - generalize (S (length rounds)). now induction n.
      - apply Forall_forall. intros b Hb. apply list_elem_of_In, repeat_spec in Hb.
        now subst b. }
    set (qs' := q :: qs) in *.
    assert (qs' <> []) as Hne by discriminate. clearbody qs'.
    assert (asked qs' (concat (randoms :: rounds)) used
            = asked qs' (concat (randoms :: rounds)) ∅) as ->.
    { destruct Hused as [->|(l & Hl & ->)]; [reflexivity|].
      cbn [concat]. destruct randoms as [|random randoms];
        [destruct qs'; [congruence|discriminate]|].
      change ((random :: randoms) ++ concat rounds)
        with (random :: (randoms ++ concat rounds)).
      cbn [asked]. now rewrite getNextQuestion_restart. }
    cbn [concat].
    destruct (asked_round qs' (concat rounds) randoms [])
      as (block & E & Hb & Hnd & Hlt).
    + constructor.
    + intros i [].
    + cbn. lia.
    + change ([] ++ block) with block in *.
      change (list_to_set []) with (∅ : gset nat) in E.
      assert (block ≡ₚ seq 0 (length qs')) as Hperm
        by (apply full_round; [exact Hnd|exact Hlt|lia]).
      destruct (IH (list_to_set block)) as (blocks & E' & Hn & Hp).
      { right. now exists block. }
      exists (block :: blocks). cbn [concat length].
      rewrite E, E'. repeat split; [lia|]. now constructor.
Qed.

(** X29.  Questions are asked in rounds: as long as each call of
    [getNextQuestion] sees the used indices the call before left, the
    first as many questions as there are come one of each, and so do the
    next as many, and so on. *)
Theorem X29_questions_come_in_rounds (qs : list record)
    (rounds : list (list nat)) :
  Forall (fun randoms => length randoms = length qs) rounds ->
  exists blocks,
    asked qs (concat rounds) ∅ = concat blocks
    /\ length blocks = length rounds
    /\ Forall (fun block => block ≡ₚ seq 0 (length qs)) blocks.
Proof. intros H. apply asked_rounds; [now left|exact H]. Qed.

End QuestionFacts.

(** *** The questions of a difficulty *)

Section DifficultyFacts.

Import Parser Controller Game.

Variable toLowerCase : jsstring -> jsstring.

Lemma parseCSV_keys s rec :
  rec ∈ parseCSV toLowerCase (VString s) ->
  dom rec ⊆ list_to_set
              (map toLowerCase (parseRow (default [] (head (splitRows s))))).
Proof.
  rewrite parseCSV_string. unfold parseCSV_body.
  destruct (length (splitRows s) <? 2)%nat; simpl tryCatch.
  - intros Hrec. now apply elem_of_nil in Hrec.
  - intros Hrec. apply list_elem_of_filter in Hrec as [_ Hrec].
    apply list_elem_of_fmap in Hrec as (row & -> & _).
    unfold buildRecord. etrans; [apply fillRecord_dom_subseteq|].
    rewrite dom_empty_L. now rewrite (right_id_L ∅ (∪)).
Qed.

Lemma filterByGameType_elem g parsed rec :
  rec ∈ filterByGameType g parsed -> rec ∈ parsed.
Proof.
  unfold filterByGameType. destruct (truthy g); [|tauto].
  intros H. now apply list_elem_of_filter in H.
Qed.

Lemma questions_all (difficulty : jsstring) (l : list record) :
  (forall q, q ∈ l -> q !! DIFFICULTY = None) -> questions difficulty l = l.
Proof.
  unfold questions. induction l as [|q l IH]; intros H; [reflexivity|].
  cbn [List.filter]. rewrite (H q) by apply list_elem_of_here.
  cbn [negb orb]. f_equal. apply IH. intros q' Hq'.
  apply H. now apply list_elem_of_further.
Qed.

(** X30.  When the first row of the sheet names no column [difficulty],
    the game has all the records of its game type as questions, whatever
    its difficulty. *)
Theorem X30_sheet_without_difficulties (text gameType difficulty : jsstring) :
  DIFFICULTY ∉ map toLowerCase (parseRow (default [] (head (splitRows text)))) ->
  let data :=
    filterByGameType gameType (parseCSV toLowerCase (VString text)) in
  questions difficulty data = data.
Proof.
  intros Hno data. apply questions_all. intros q Hq.
  apply filterByGameType_elem, parseCSV_keys in Hq.
  apply not_elem_of_dom. intros Hin. apply Hno.
  apply Hq in Hin. now apply elem_of_list_to_set in Hin.
Qed.

End DifficultyFacts.

(** ** Instances of the further properties *)

Section MoreInstances.

Import Parser Csv Lines Cache Fetcher Backoff Controller Reference Samples.
Import Examples.

Lemma X1_witness :
  wfRow sampleHeader = true /\
  Forall (fun r => wfRow r.2 = true) linesWithBlanks /\
  length (keptRows linesWithBlanks) = 2%nat /\
  parseCSV asciiLower (VString (render sampleHeader linesWithBlanks))
  = parseCSV asciiLower (VString (render sampleHeader (keptRows linesWithBlanks))).
Proof.
  assert (H1 : wfRow sampleHeader = true) by reflexivity.
  assert (H2 : Forall (fun r => wfRow r.2 = true) linesWithBlanks)
    by (repeat constructor).
  split; [exact H1|]. split; [exact H2|]. split; [vm_compute; reflexivity|].
  exact (X1_blank_lines_ignored asciiLower sampleHeader linesWithBlanks H1 H2).
Defined.

Lemma X2_witness :
  wfRow sampleHeader = true /\ keptLine (renderRow sampleHeader) /\
  Forall (fun r => wfRow r.2 = true) sampleRows /\
  wfRow otherHeader = true /\ keptLine (renderRow otherHeader) /\
  Forall (fun r => wfRow r.2 = true) otherRows /\
  contents sampleHeader = contents otherHeader /\
  rowContents sampleRows = rowContents otherRows /\
  render sampleHeader sampleRows <> render otherHeader otherRows /\
  parseCSV asciiLower (VString (render sampleHeader sampleRows))
  = parseCSV asciiLower (VString (render otherHeader otherRows)).
Proof.
  assert (H1 : wfRow sampleHeader = true) by reflexivity.
  assert (H2 : keptLine (renderRow sampleHeader)) by reflexivity.
  assert (H3 : Forall (fun r => wfRow r.2 = true) sampleRows)
    by (repeat constructor).
  assert (H4 : wfRow otherHeader = true) by reflexivity.
  assert (H5 : keptLine (renderRow otherHeader)) by reflexivity.
  assert (H6 : Forall (fun r => wfRow r.2 = true) otherRows)
    by (repeat constructor).
  assert (H7 : contents sampleHeader = contents otherHeader) by reflexivity.
  assert (H8 : rowContents sampleRows = rowContents otherRows) by reflexivity.
  repeat (split; [assumption|]).
  split; [vm_compute; discriminate|].
  exact (X2_only_contents_matter asciiLower sampleHeader sampleRows
           otherHeader otherRows H1 H2 H3 H4 H5 H6 H7 H8).
Defined.

Lemma X5_witness :
  let ls' := setCachedData stringify noQuota Settings.mathSheetUrl sampleText T0 ∅ in
  isLatin1 Settings.mathSheetUrl = true /\
  isLatin1 Settings.englishSheetUrl = true /\
  (38 <= length Settings.mathSheetUrl)%nat /\
  (38 <= length Settings.englishSheetUrl)%nat /\
  take 38 Settings.mathSheetUrl = take 38 Settings.englishSheetUrl /\
  getCacheKey Settings.mathSheetUrl = Normal Settings.SHEETS_KEY /\
  (T0 + 1000 - T0 < CACHE_DURATION)%Z /\
  getCachedData parse Settings.englishSheetUrl (T0 + 1000) ls'
  = (VString sampleText, ls').
Proof.
  cbv zeta.
  assert (H1 : isLatin1 Settings.mathSheetUrl = true) by reflexivity.
  assert (H2 : isLatin1 Settings.englishSheetUrl = true) by reflexivity.
  assert (H3 : (38 <= length Settings.mathSheetUrl)%nat) by (vm_compute; lia).
  assert (H4 : (38 <= length Settings.englishSheetUrl)%nat) by (vm_compute; lia).
  assert (H5 : take 38 Settings.mathSheetUrl = take 38 Settings.englishSheetUrl)
    by reflexivity.
  assert (H6 : getCacheKey Settings.mathSheetUrl = Normal Settings.SHEETS_KEY)
    by (vm_compute; reflexivity).
  assert (H7 : noQuota ∅ Settings.SHEETS_KEY (stringify sampleText T0) = false)
    by reflexivity.
  assert (H8 : truthy (stringify sampleText T0) = true) by reflexivity.
  assert (H9 : parse (stringify sampleText T0)
               = Normal {| Cache.data := VString sampleText; Cache.timestamp := Some T0 |})
    by (vm_compute; reflexivity).
  assert (H10 : (T0 + 1000 - T0 < CACHE_DURATION)%Z) by (vm_compute; reflexivity).
  repeat (split; [assumption|]).
  exact (X5_read_of_colliding_url stringify parse noQuota
           Settings.mathSheetUrl Settings.englishSheetUrl sampleText T0
           (T0 + 1000) ∅ Settings.SHEETS_KEY H1 H2 H3 H4 H5 H6 H7 H8 H9 H10).
Defined.

Lemma X6_witness :
  startsWith SETTINGS_KEY (str "sheet-cache-") = false /\
  setCachedData stringify noQuota sampleUrl sampleText T0 otherStorage
    !! SETTINGS_KEY = Some (str "{}") /\
  (getCachedData parse sampleUrl T0 otherStorage).2 !! SETTINGS_KEY
  = Some (str "{}").
Proof.
  assert (H1 : startsWith SETTINGS_KEY (str "sheet-cache-") = false)
    by reflexivity.
  split; [exact H1|].
  destruct (X6_cache_keeps_to_its_keys stringify parse noQuota sampleUrl
              sampleText T0 otherStorage SETTINGS_KEY H1) as [Hs Hg].
  rewrite Hs, Hg. split; vm_compute; reflexivity.
Defined.

Lemma X7_witness :
  getCacheKey sampleUrl = Normal sampleKey /\
  brokenStorage !! sampleKey = Some (str "junk") /\
  truthy (str "junk") = true /\
  parse (str "junk") = Throw (Error (str "SyntaxError")) /\
  getCachedData parse sampleUrl T0 brokenStorage = (VNull, brokenStorage).
Proof.
  assert (H1 : getCacheKey sampleUrl = Normal sampleKey) by reflexivity.
  assert (H2 : brokenStorage !! sampleKey = Some (str "junk"))
    by (vm_compute; reflexivity).
  assert (H3 : truthy (str "junk") = true) by reflexivity.
  assert (H4 : parse (str "junk") = Throw (Error (str "SyntaxError")))
    by (vm_compute; reflexivity).
  repeat (split; [assumption|]).
  destruct (X7_unreadable_entry parse sampleUrl T0 brokenStorage sampleKey
              (str "junk") H1 H2) as (_ & Hthrow & _).
  exact (Hthrow _ H3 H4).
Defined.

Lemma X8_witness :
  (2 < 3)%nat /\ (Z.of_nat 3 <= TIMED_RETRIES)%Z /\
  (forall i, (i < 2)%nat ->
     failureOf (flaky (calls start + i)%nat sampleUrl) = Some (unavailableError i)) /\
  succeeds (flaky (calls start + 2)%nat sampleUrl) sampleText /\
  fetchWithRetry flaky sampleUrl 3 start
  = (Normal sampleText,
     {| calls := 3;
        trace := [Fetch sampleUrl; Sleep 1000; Fetch sampleUrl; Sleep 2000;
                  Fetch sampleUrl] |}).
Proof.
  assert (H1 : (2 < 3)%nat) by lia.
  assert (H2 : (Z.of_nat 3 <= TIMED_RETRIES)%Z) by (vm_compute; discriminate).
  assert (H3 : forall i, (i < 2)%nat ->
            failureOf (flaky (calls start + i)%nat sampleUrl)
            = Some (unavailableError i)).
  { intros [|[|i]] Hi; [reflexivity|reflexivity|lia]. }
  assert (H4 : succeeds (flaky (calls start + 2)%nat sampleUrl) sampleText).
  { eexists. repeat split. }
  split; [exact H1|]. split; [exact H2|]. split; [exact H3|].
  split; [exact H4|].
  exact (proj1 (X8_success_after_failures flaky sampleUrl 3 start 2 sampleText
                  unavailableError H1 H2 H3 H4)).
Defined.

Lemma X9_witness :
  (1 <= 3 <= TIMED_RETRIES)%Z /\
  exists j,
    (Z.of_nat j < 3)%Z /\
    timed (rounds sampleUrl j ++ [Fetch sampleUrl]) /\
    (fetchWithRetry flaky sampleUrl 3 start).2
    = {| calls := (j + 1)%nat;
         trace := rounds sampleUrl j ++ [Fetch sampleUrl] |}.
Proof.
  assert (H1 : (1 <= 3 <= TIMED_RETRIES)%Z) by (vm_compute; split; discriminate).
  split; [exact H1|].
  destruct (X9_run_on_any_network flaky sampleUrl 3 start H1)
    as (j & Hj & _ & Htimed & Hrun).
  exists j. split; [exact Hj|]. split; [exact Htimed|].
  destruct Hrun as [(t & _ & ->) | (_ & e & _ & ->)]; reflexivity.
Defined.

Lemma X10_witness :
  (Z.of_nat 3 <= TIMED_RETRIES)%Z /\
  (forall i, (i <= 2)%nat ->
     failureOf (unavailable (calls start + i)%nat sampleUrl)
     = Some (unavailableError i)) /\
  fetchWithRetry unavailable sampleUrl 3 start
  = (Throw (Some (unavailableError 2)),
     {| calls := 3;
        trace := [Fetch sampleUrl; Sleep 1000; Fetch sampleUrl; Sleep 2000;
                  Fetch sampleUrl] |}) /\
  timed [Fetch sampleUrl; Sleep 1000; Fetch sampleUrl; Sleep 2000;
         Fetch sampleUrl] /\
  totalSleep [Fetch sampleUrl; Sleep 1000; Fetch sampleUrl; Sleep 2000;
              Fetch sampleUrl] = 3000%Z.
Proof.
  assert (H1 : (Z.of_nat 3 <= TIMED_RETRIES)%Z) by (vm_compute; discriminate).
  assert (H2 : forall i, (i <= 2)%nat ->
            failureOf (unavailable (calls start + i)%nat sampleUrl)
            = Some (unavailableError i)).
  { intros i Hi. reflexivity. }
  split; [exact H1|]. split; [exact H2|].
  exact (X10_all_attempts_fail unavailable sampleUrl 2 start unavailableError
           H1 H2).
Defined.

Lemma X11_witness :
  (0 <= 0)%Z /\ (1 <= 3 <= TIMED_RETRIES)%Z /\
  fetchWithRetry unavailable sampleUrl 0 start = (Throw None, start) /\
  (fetchWithRetry unavailable sampleUrl 3 start).1
  = Throw (Some (unavailableError 2)) /\
  exists e,
    Some (unavailableError 2) = Some e
    /\ failureOf (unavailable 2%nat sampleUrl) = Some e
    /\ calls (fetchWithRetry unavailable sampleUrl 3 start).2 = 3%nat.
Proof.
  assert (H1 : (0 <= 0)%Z) by lia.
  assert (H2 : (1 <= 3 <= TIMED_RETRIES)%Z) by (vm_compute; split; discriminate).
  assert (H3 : (fetchWithRetry unavailable sampleUrl 3 start).1
               = Throw (Some (unavailableError 2))) by reflexivity.
  split; [exact H1|]. split; [exact H2|]. split.
  - exact (proj1 (X11_thrown_value unavailable sampleUrl 0 start) H1).
  - split; [exact H3|].
    destruct (proj2 (X11_thrown_value unavailable sampleUrl 3 start) H2
                (Some (unavailableError 2)) H3) as (e & He & Hlast & _ & Hcalls).
    exists e. split; [exact He|]. split; [exact Hlast|exact Hcalls].
Defined.

Lemma X12_witness :
  let s := waiting sampleUrl (str "x") in
  let s1 := step asciiLower stringify parse noQuota s
              (Render [] (str "x") (T0 + 1)) in
  lastDeps s <> Some ([], str "x", retryTrigger (hook s)) /\
  loading (hook s) = true /\ loading (hook s1) = false /\
  inflight s1 = inflight s /\ localStorage s1 = localStorage s.
Proof.
  cbv zeta.
  assert (H1 : lastDeps (waiting sampleUrl (str "x"))
               <> Some ([], str "x",
                        retryTrigger (hook (waiting sampleUrl (str "x")))))
    by (vm_compute; discriminate).
  split; [exact H1|]. split; [reflexivity|].
  destruct (X12_no_url asciiLower stringify parse noQuota
              (waiting sampleUrl (str "x")) (str "x") (T0 + 1) H1)
    as (Hh & _ & Hls & Hin & _).
  rewrite Hh. repeat split; assumption.
Defined.

Lemma X13_witness :
  let s := mounting ∅ in
  let s1 := step asciiLower stringify parse noQuota s
              (Render sampleUrl (str "x") T0) in
  let s2 := step asciiLower stringify parse noQuota s1
              (Settle 0 (Normal sampleText) (T0 + 5)) in
  truthy sampleUrl = true /\
  lastDeps s <> Some (sampleUrl, str "x", retryTrigger (hook s)) /\
  toBoolean (getCachedData parse sampleUrl T0 (localStorage s)).1 = false /\
  loading (hook s1) = true /\ loading (hook s2) = false /\
  length (Controller.data (hook s2)) = 2%nat.
Proof.
  cbv zeta.
  assert (H1 : truthy sampleUrl = true) by reflexivity.
  assert (H2 : lastDeps (mounting ∅)
               <> Some (sampleUrl, str "x", retryTrigger (hook (mounting ∅))))
    by discriminate.
  assert (H3 : toBoolean (getCachedData parse sampleUrl T0
                            (localStorage (mounting ∅))).1 = false)
    by (vm_compute; reflexivity).
  split; [exact H1|]. split; [exact H2|]. split; [exact H3|].
  destruct (X13_foreground_load asciiLower stringify parse noQuota
              (mounting ∅) sampleUrl (str "x") T0 H1 H2 H3)
    as ((Hl & _) & Hok & _).
  split; [exact Hl|].
  destruct (Hok sampleText (T0 + 5)%Z) as (Hd & Hl2 & _).
  split; [exact Hl2|]. cbn [nextRequest mounting] in Hd. rewrite Hd.
  vm_compute. reflexivity.
Defined.



Lemma X16_witness :
  let net : network := fun n url => if (n <? 2)%nat then unavailable n url
                                    else Normal notFound in
  (Z.of_nat 3 <= TIMED_RETRIES)%Z /\
  (forall i, (i < 2)%nat ->
     exists e, failureOf (net (calls start + i)%nat sampleUrl) = Some e) /\
  net (calls start + 2)%nat sampleUrl = Normal notFound /\
  ok notFound = false /\ ErrorHelpers.neutral (statusText notFound) = true /\
  exists e,
    (fetchWithRetry net sampleUrl 3 start).1 = Throw (Some e) /\
    Js.message e = str "HTTP 404: Not Found" /\
    ErrorHelpers.title (ErrorHelpers.getErrorDetails e) = str "Sheet Not Found".
Proof.
  cbv zeta.
  set (net := fun (n : nat) (url : jsstring) =>
                if (n <? 2)%nat then unavailable n url else Normal notFound).
  assert (H1 : (Z.of_nat 3 <= TIMED_RETRIES)%Z) by (vm_compute; discriminate).
  assert (H2 : forall i, (i < 2)%nat ->
            exists e, failureOf (net (calls start + i)%nat sampleUrl) = Some e).
  { intros [|[|i]] Hi; [eexists; reflexivity|eexists; reflexivity|lia]. }
  assert (H3 : net (calls start + 2)%nat sampleUrl = Normal notFound)
    by reflexivity.
  assert (H4 : ok notFound = false) by reflexivity.
  assert (H5 : ErrorHelpers.neutral (statusText notFound) = true)
    by (vm_compute; reflexivity).
  split; [exact H1|]. split; [exact H2|]. split; [exact H3|].
  split; [exact H4|]. split; [exact H5|].
  destruct (X16_http_failures_classified net sampleUrl 2 start notFound
              H1 H2 H3 H4 H5) as (e & Hrun & Hmsg & H404 & _).
  change (Z.of_nat 3) with 3%Z in Hrun.
  exists e. split; [now rewrite Hrun|]. split; [exact Hmsg|].
  exact (H404 eq_refl).
Defined.

Lemma X17_witness :
  truthy (str "Timeout") = true /\ ErrorHelpers.neutral (str "Timeout") = true /\
  ErrorHelpers.title (ErrorHelpers.getErrorDetails (Error (str "Timeout")))
  = str "Connection Error" /\
  ErrorHelpers.message (ErrorHelpers.getErrorDetails (Error (str "Timeout")))
  = str "Timeout".
Proof.
  assert (H1 : truthy (str "Timeout") = true) by reflexivity.
  assert (H2 : ErrorHelpers.neutral (str "Timeout") = true)
    by (vm_compute; reflexivity).
  split; [exact H1|]. split; [exact H2|].
  exact (X17_other_messages_pass_through (str "Timeout") H1 H2).
Defined.

Lemma X18_witness :
  let s := waiting sampleUrl (str "x") in
  let r := {| req_url := sampleUrl; req_gameType := str "x";
              req_branch := Foreground |} in
  let failed := step asciiLower stringify parse noQuota s
                  (Settle 0 (Throw (Error (str "HTTP 404: Not Found"))) T0) in
  let silent := step asciiLower stringify parse noQuota s
                  (Settle 0 (Throw (Error [])) T0) in
  inflight s !! 0%nat = Some r /\ req_branch r = Foreground /\
  ErrorHelpers.screenOf (hook s) = ErrorHelpers.Spinner /\
  ErrorHelpers.screenOf (hook failed)
  = ErrorHelpers.ErrorScreen
      (ErrorHelpers.getErrorDetails (Error (str "HTTP 404: Not Found"))) /\
  ErrorHelpers.screenOf (hook silent) = ErrorHelpers.Game.
Proof.
  cbv zeta.
  set (r := {| req_url := sampleUrl; req_gameType := str "x";
               req_branch := Foreground |}).
  assert (H1 : inflight (waiting sampleUrl (str "x")) !! 0%nat = Some r)
    by (vm_compute; reflexivity).
  assert (H2 : req_branch r = Foreground) by reflexivity.
  split; [exact H1|]. split; [exact H2|]. split; [reflexivity|]. split.
  - exact (proj1 (X18_screen_after_failed_load asciiLower stringify parse
                    noQuota (waiting sampleUrl (str "x")) 0%nat r
                    (Error (str "HTTP 404: Not Found")) T0 H1 H2) eq_refl).
  - exact (proj1 (proj2 (X18_screen_after_failed_load asciiLower stringify
                           parse noQuota (waiting sampleUrl (str "x")) 0%nat r
                           (Error []) T0 H1 H2) eq_refl)).
Defined.

Lemma X19_witness :
  Settings.validateGoogleSheetUrl Settings.mathSheetUrl = [] /\
  Settings.validateGoogleSheetUrl Settings.englishSheetUrl = [] /\
  Settings.validateGoogleSheetUrl sampleUrl = Settings.INVALID_URL /\
  exists e id rest,
    (e = [] \/ e = str "e/") /\ id <> [] /\
    forallb Settings.isWordOrDash id = true /\
    Settings.mathSheetUrl
    = Settings.SHEETS_PREFIX ++ e ++ id ++ Settings.PUB_CSV ++ rest.
Proof.
  assert (H1 : Settings.validateGoogleSheetUrl Settings.mathSheetUrl = [])
    by (vm_compute; reflexivity).
  split; [exact H1|]. split; [vm_compute; reflexivity|].
  split; [vm_compute; reflexivity|].
  exact (proj1 (X19_accepted_urls Settings.mathSheetUrl) H1).
Defined.

Lemma X20_witness :
  Settings.validateGoogleSheetUrl Settings.mathSheetUrl = [] /\
  isLatin1 Settings.mathSheetUrl = true /\
  Settings.validateGoogleSheetUrl Settings.englishSheetUrl = [] /\
  isLatin1 Settings.englishSheetUrl = true /\
  Settings.mathSheetUrl <> Settings.englishSheetUrl /\
  getCacheKey Settings.mathSheetUrl = getCacheKey Settings.englishSheetUrl.
Proof.
  assert (H1 : Settings.validateGoogleSheetUrl Settings.mathSheetUrl = [])
    by (vm_compute; reflexivity).
  assert (H2 : isLatin1 Settings.mathSheetUrl = true) by reflexivity.
  assert (H3 : Settings.validateGoogleSheetUrl Settings.englishSheetUrl = [])
    by (vm_compute; reflexivity).
  assert (H4 : isLatin1 Settings.englishSheetUrl = true) by reflexivity.
  split; [exact H1|]. split; [exact H2|]. split; [exact H3|].
  split; [exact H4|]. split; [vm_compute; discriminate|].
  rewrite (X20_accepted_urls_share_one_key Settings.mathSheetUrl H1 H2).
  rewrite (X20_accepted_urls_share_one_key Settings.englishSheetUrl H3 H4).
  reflexivity.
Defined.


Lemma X24_witness :
  let ann := {| Scores.game := str "space-math"; Scores.name := str "Ann";
                Scores.stars := 30; Scores.streak := 2;
                Scores.date := str "d1" |} in
  Settings.mathSheetUrl <> Settings.englishSheetUrl /\
  ann ∈ sampleScores /\
  Scores.sheetUrl Settings.mathSheetUrl Settings.englishSheetUrl
    (Scores.game ann) = Settings.mathSheetUrl /\
  ann ∈ Scores.filtered (str "math") sampleScores /\
  ann ∉ Scores.filtered (str "english") sampleScores.
Proof.
  cbv zeta.
  set (ann := {| Scores.game := str "space-math"; Scores.name := str "Ann";
                 Scores.stars := 30; Scores.streak := 2;
                 Scores.date := str "d1" |}).
  assert (H1 : Settings.mathSheetUrl <> Settings.englishSheetUrl)
    by (vm_compute; discriminate).
  assert (H2 : ann ∈ sampleScores) by apply list_elem_of_here.
  assert (H3 : Scores.sheetUrl Settings.mathSheetUrl Settings.englishSheetUrl
                 (Scores.game ann) = Settings.mathSheetUrl) by reflexivity.
  split; [exact H1|]. split; [exact H2|]. split; [exact H3|].
  destruct (X24_boards_follow_the_sheet Settings.mathSheetUrl
              Settings.englishSheetUrl sampleScores ann H1 H2)
    as (Hm & _ & Hx & _).
  split; [exact (proj2 Hm H3)|]. exact (proj1 Hx (proj2 Hm H3)).
Defined.

Lemma X26_witness :
  let a := Game.run (str "Easy") (str "space-math")
             (Game.mounted sampleScores (str "Easy")) sampleGame in
  let a' := Game.run (str "Easy") (str "space-math") a afterGame in
  Game.gameOver (Game.play a) = true /\
  forallb (fun e => negb (Game.isStart e)) afterGame = true /\
  Game.stars (Game.play a) = 15%Z /\
  Game.stars (Game.play a') = 15%Z /\
  Game.maxStreak (Game.play a') = 1%Z /\
  length (Game.leaderboard a') = 3%nat.
Proof.
  cbv zeta.
  set (a := Game.run (str "Easy") (str "space-math")
              (Game.mounted sampleScores (str "Easy")) sampleGame).
  assert (H1 : Game.gameOver (Game.play a) = true) by (vm_compute; reflexivity).
  assert (H2 : forallb (fun e => negb (Game.isStart e)) afterGame = true)
    by reflexivity.
  assert (H3 : Game.stars (Game.play a) = 15%Z) by (vm_compute; reflexivity).
  assert (H4 : Game.maxStreak (Game.play a) = 1%Z) by (vm_compute; reflexivity).
  split; [exact H1|]. split; [exact H2|]. split; [exact H3|].
  destruct (X26_saved_score_is_final (str "Easy") (str "space-math")
              sampleScores sampleGame afterGame H1 H2)
    as (Hs & Hm & _ & _).
  fold a in Hs, Hm. rewrite Hs, Hm.
  split; [exact H3|]. split; [exact H4|]. vm_compute. reflexivity.
Defined.

Lemma X29_witness :
  let rounds := [[0; 1; 2]; [5; 0; 7]]%nat in
  Forall (fun randoms => length randoms = length sampleQuestions) rounds /\
  Game.asked sampleQuestions (concat rounds) ∅ = [0; 2; 1; 2; 0; 1]%nat /\
  exists blocks,
    Game.asked sampleQuestions (concat rounds) ∅ = concat blocks /\
    length blocks = 2%nat /\
    Forall (fun block => block ≡ₚ [0; 1; 2]%nat) blocks.
Proof.
  cbv zeta.
  assert (H1 : Forall (fun randoms => length randoms = length sampleQuestions)
                 [[0; 1; 2]; [5; 0; 7]]%nat) by (repeat constructor).
  split; [exact H1|]. split; [vm_compute; reflexivity|].
  exact (X29_questions_come_in_rounds sampleQuestions
           [[0; 1; 2]; [5; 0; 7]]%nat H1).
Defined.

Lemma X30_witness :
  let data := filterByGameType (str "x")
                (parseCSV asciiLower (VString sampleText)) in
  (Game.DIFFICULTY
     ∉ map asciiLower (parseRow (default [] (head (splitRows sampleText))))) /\
  length data = 2%nat /\
  Game.questions (str "Hard") data = data.
Proof.
  cbv zeta.
  assert (H1 : Game.DIFFICULTY
               ∉ map asciiLower
                   (parseRow (default [] (head (splitRows sampleText))))).
  { refine (bool_decide_unpack _ _). vm_compute. exact I. }
  split; [exact H1|]. split; [vm_compute; reflexivity|].
  exact (X30_sheet_without_difficulties asciiLower sampleText (str "x")
           (str "Hard") H1).
Defined.

End MoreInstances.
